(** * PulseKids: the PPG processing core, embedded and verified

    A shallow embedding of the signal-processing classes of the repository

    - [FingerDetector]        (FingerDetection.js)
    - [RealPPGProcessor]      (RealPPGAlgorithm.js)
    - [AdvancedPPGProcessor]  (PPGAlgorithm.js)
    - [EnhancedPPGProcessor]  (App.js)

    JavaScript numbers are embedded as rationals ([Q]) wherever the code only
    adds, multiplies, divides, compares and rounds; integer counters are [nat]
    and rounded results are [Z].  [Math.sqrt] and [Math.log10] have no rational
    counterpart and are parameters of the definitions that call them, as are
    the estimators of the two simulated processors, which go through
    [Math.sqrt], [Math.log10], [Math.cos] and [Math.sin].  Instance fields are
    threaded explicitly: every method maps the processor state to the next
    state and the returned value.  What a call takes from outside (the clock,
    the pixels, [Math.random]) is an argument.

    The rationals are exact where JavaScript rounds.  Statements over them are
    kept to what the rounding cannot change (clamps, caps, counts, what a loop
    records, bounds with room to spare); where the last bit decides, as in the
    heart rate computed from the spacing of the peaks, the functions are
    embedded a second time over binary64 ([RealPPGProcessorDouble]). *)

From Stdlib Require Import ZArith QArith Qround Qabs String DecimalString List Sorted Permutation Bool
  Arith Lia Lqa.
From Stdlib Require PrimFloat FloatOps SpecFloat FloatAxioms Uint63.
Import ListNotations.

Close Scope Q_scope.

(** ** Exceptions

    A [try { body } catch { fallback }] block is embedded by giving the body an
    [outcome]: it either returned a value or threw. *)

Inductive outcome (A : Type) : Type :=
| Returned (a : A)
| Thrown.

Arguments Returned {A} a.
Arguments Thrown {A}.

(** [try body catch fallback]. *)
Definition tryCatch {A : Type} (body : outcome A) (fallback : A) : A :=
  match body with
  | Returned a => a
  | Thrown => fallback
  end.

(** ** JavaScript numerics over the rationals *)

(** [Math.round]: the nearest integer, ties towards plus infinity. *)
Definition js_round (x : Q) : Z := Qfloor (x + (1 # 2))%Q.

(** [Math.max(a, b)] and [Math.min(a, b)]. *)
Definition js_max (a b : Q) : Q := if Qle_bool a b then b else a.
Definition js_min (a b : Q) : Q := if Qle_bool a b then a else b.

(** [n] as a JavaScript number. *)
Definition num (n : nat) : Q := inject_Z (Z.of_nat n).

(** [array.slice(-n)]: the last [n] elements, all of them when there are fewer. *)
Definition lastN {A : Type} (n : nat) (l : list A) : list A :=
  skipn (length l - n) l.

(** * FingerDetector (FingerDetection.js) *)

Module FingerDetector.

(** A contour is the array of [{x, y}] points of one connected component. *)
Definition point : Type := (Z * Z)%type.
Definition contour : Type := list point.

(** The fields [detectFinger] and [reset] assign.  [requiredDetections] is
    set to 5 by the constructor and assigned nowhere else. *)
Record state : Type := mkState {
  fingerDetected : bool;
  consecutiveDetections : nat
}.

Definition requiredDetections : nat := 5.

(** The constructor. *)
Definition init : state :=
  {| fingerDetected := false; consecutiveDetections := 0 |}.

(** The object [detectFinger] returns. *)
Record detection : Type := mkDetection {
  detected : bool;
  confidence : Q;
  found : option contour
}.

(** [detectFinger(imageData)].  The pixel pipeline of the try block
    ([rgbToHsv], [createSkinMask], [findContours], [findFingerContour]) runs
    before any field is assigned; [fingerContour] is what it produced: a
    contour, [null], or an exception.  The handler returns the fallback object
    and leaves the fields as they were. *)
Definition detectFinger (fingerContour : outcome (option contour)) (s : state)
  : state * detection :=
  match fingerContour with
  | Returned (Some c) =>
      let n := S (consecutiveDetections s) in
      let s' := {| fingerDetected :=
                     if requiredDetections <=? n then true else fingerDetected s;
                   consecutiveDetections := n |} in
      (s', {| detected := fingerDetected s';
              confidence := (num (consecutiveDetections s') / num requiredDetections)%Q;
              found := Some c |})
  | Returned None =>
      let s' := {| fingerDetected := false; consecutiveDetections := 0 |} in
      (s', {| detected := fingerDetected s';
              confidence := (num (consecutiveDetections s') / num requiredDetections)%Q;
              found := None |})
  | Thrown =>
      (s, {| detected := false; confidence := 0%Q; found := None |})
  end.

(** [reset()]. *)
Definition reset (s : state) : state :=
  {| fingerDetected := false; consecutiveDetections := 0 |}.

(** One per-frame classification: the contour [findFingerContour] accepted,
    or [None] when it accepted none. *)
Definition classification : Type := option contour.

Definition positive (c : classification) : bool :=
  match c with Some _ => true | None => false end.

(** The detector driven over a sequence of classifications, oldest first. *)
Definition feed (s : state) (cs : list classification) : state :=
  fold_left (fun st c => fst (detectFinger (Returned c) st)) cs s.

(** The [fingerDetected] flag returned for each frame of the sequence. *)
Fixpoint flags (s : state) (cs : list classification) : list bool :=
  match cs with
  | [] => []
  | c :: rest =>
      let (s', d) := detectFinger (Returned c) s in
      detected d :: flags s' rest
  end.

(** Number of positive classifications at the end of the sequence, counted
    back to the most recent negative one. *)
Definition trailing (cs : list classification) : nat :=
  fold_left (fun n c => if positive c then S n else 0) cs 0.

(** ** The pixel pipeline of [detectFinger]

    [imageData] is the array of the frame's bytes, four per pixel (R, G, B,
    A); arrays of integers are embedded as [list Z].  The colour conversion
    is carried out over the rationals. *)

(** A store of the integer [z] into a [Uint8ClampedArray]. *)
Definition clamp8 (z : Z) : Z := Z.max 0 (Z.min 255 z).

(** [a % m] on numbers: the quotient is truncated towards zero. *)
Definition js_rem (a m : Q) : Q :=
  let q := (a / m)%Q in
  (a - m * inject_Z (if Qle_bool 0 q then Qfloor q else Qceiling q))%Q.

(** The body of the loop of [rgbToHsv] for one pixel: the values of [h],
    [Math.round(s * 255)] and [Math.round(v * 255)] before they are stored. *)
Definition hsvOfPixel (R G B : Z) : Z * Z * Z :=
  let r := (inject_Z R / 255)%Q in
  let g := (inject_Z G / 255)%Q in
  let b := (inject_Z B / 255)%Q in
  let max := js_max (js_max r g) b in
  let min := js_min (js_min r g) b in
  let diff := (max - min)%Q in
  let h :=
    if Qeq_bool diff 0 then 0%Q
    else if Qeq_bool max r then js_rem ((g - b) / diff) 6
    else if Qeq_bool max g then ((b - r) / diff + 2)%Q
    else ((r - g) / diff + 4)%Q in
  let h := js_round (h * 60) in
  let h := if (h <? 0)%Z then (h + 360)%Z else h in
  let s := if Qeq_bool max 0 then 0%Q else (diff / max)%Q in
  let v := max in
  (h, js_round (s * 255), js_round (v * 255)).

(** [rgbToHsv(imageData)]: the result has the length of [imageData].  In a
    trailing incomplete pixel the bytes read beyond the array are
    [undefined]: with the blue byte missing the arithmetic gives [NaN], which
    is stored as 0, and a store beyond the array is dropped. *)
Fixpoint rgbToHsv (imageData : list Z) : list Z :=
  match imageData with
  | R :: G :: B :: A :: rest =>
      let '(h, s, v) := hsvOfPixel R G B in
      clamp8 h :: clamp8 s :: clamp8 v :: clamp8 A :: rgbToHsv rest
  | [R; G; B] =>
      let '(h, s, v) := hsvOfPixel R G B in [clamp8 h; clamp8 s; clamp8 v]
  | [_; _] => [0; 0]%Z
  | [_] => [0]%Z
  | [] => []
  end.

(** The constructor's [skinColorRanges], [lower] then [upper], and its area
    limits. *)
Definition skinColorRanges : list ((Z * Z * Z) * (Z * Z * Z)) :=
  [ ((0, 20, 70), (20, 255, 255));
    ((0, 30, 60), (25, 255, 255));
    ((0, 40, 50), (30, 255, 255)) ]%Z.

Definition minFingerArea : Q := 5000.
Definition maxFingerArea : Q := 50000.

(** The test of the inner loop of [createSkinMask]. *)
Definition inRange (h s v : Z) (range : (Z * Z * Z) * (Z * Z * Z)) : bool :=
  let '((lh, ls, lv), (uh, us, uv)) := range in
  ((lh <=? h) && (h <=? uh) && (ls <=? s) && (s <=? us)
   && (lv <=? v) && (v <=? uv))%Z.

(** [createSkinMask(hsvData)]: one entry per complete pixel (the mask has
    [hsvData.length / 4] entries, the fraction dropped). *)
Fixpoint createSkinMask (hsvData : list Z) : list Z :=
  match hsvData with
  | h :: s :: v :: _ :: rest =>
      (if existsb (inRange h s v) skinColorRanges then 255 else 0)%Z
        :: createSkinMask rest
  | _ => []
  end.

(** [findContours] takes [width = height = Math.sqrt(binaryImage.length)].
    For a length [n] that is a perfect square this is the integer
    [Nat.sqrt n]; for any other length it is an irrational number between
    [Nat.sqrt n] and its successor, so that [y * width + x] is an integer,
    and [binaryImage[y * width + x]] an entry of the array, only for
    [y = 0]. *)
Definition isSquare (n : nat) : bool := Nat.sqrt n * Nat.sqrt n =? n.

(** The number of integers [x] with [0 <= x < width]. *)
Definition span (n : nat) : nat :=
  if isSquare n then Nat.sqrt n else S (Nat.sqrt n).

(** [x < 0 || x >= width || y < 0 || y >= height], negated. *)
Definition inside (n : nat) (p : point) : bool :=
  let '(x, y) := p in
  ((0 <=? x) && (x <? Z.of_nat (span n))
   && (0 <=? y) && (y <? Z.of_nat (span n)))%Z.

(** [index = y * width + x] where it is an integer. *)
Definition indexAt (n : nat) (p : point) : option nat :=
  let '(x, y) := p in
  if isSquare n then Some (Z.to_nat (y * Z.of_nat (Nat.sqrt n) + x))
  else if (y =? 0)%Z then Some (Z.to_nat x)
  else None.

(** [binaryImage[index] === 255 && !visited.has(index)], with the index. *)
Definition unvisitedSkin (binaryImage : list Z) (visited : list nat)
  (p : point) : option nat :=
  match indexAt (length binaryImage) p with
  | Some i =>
      match nth_error binaryImage i with
      | Some m =>
          if (m =? 255)%Z && negb (existsb (Nat.eqb i) visited) then Some i
          else None
      | None => None
      end
  | None => None
  end.

(** The variables of the loop of [floodFill]: the stack (top first), the
    [visited] set shared with [findContours], and the contour. *)
Record fill : Type := mkFill {
  stack : list point;
  visited : list nat;
  filled : contour
}.

(** One iteration of the loop of [floodFill]; with an empty stack the loop
    has ended. *)
Definition floodFill_step (binaryImage : list Z) (st : fill) : fill :=
  match stack st with
  | [] => st
  | (x, y) :: rest =>
      if inside (length binaryImage) (x, y) then
        match unvisitedSkin binaryImage (visited st) (x, y) with
        | Some i =>
            {| stack := (x, y - 1)%Z :: (x, y + 1)%Z :: (x - 1, y)%Z
                          :: (x + 1, y)%Z :: rest;
               visited := i :: visited st;
               filled := filled st ++ [(x, y)] |}
        | None => {| stack := rest; visited := visited st;
                     filled := filled st |}
        end
      else {| stack := rest; visited := visited st; filled := filled st |}
  end.

(** [floodFill(binaryImage, startX, startY, width, height, visited)]: the
    contour and the [visited] set when the loop ends, which it does within
    [4 * binaryImage.length + 1] iterations. *)
Definition floodFill (binaryImage : list Z) (start : point)
  (visited0 : list nat) : contour * list nat :=
  let final := Nat.iter (4 * length binaryImage + 1)
                        (floodFill_step binaryImage)
                        (mkFill [start] visited0 []) in
  (filled final, visited final).

(** The pixels in the order of the two loops of [findContours]. *)
Definition cells (n : nat) : list point :=
  flat_map (fun y => map (fun x => (Z.of_nat x, Z.of_nat y)) (seq 0 (span n)))
           (seq 0 (span n)).

(** The body of the inner loop of [findContours]. *)
Definition findContours_step (binaryImage : list Z)
  (acc : list contour * list nat) (p : point) : list contour * list nat :=
  let '(contours, visited0) := acc in
  match unvisitedSkin binaryImage visited0 p with
  | Some _ =>
      let '(c, visited1) := floodFill binaryImage p visited0 in
      (if 100 <? length c then contours ++ [c] else contours, visited1)
  | None => acc
  end.

(** [findContours(binaryImage)]. *)
Definition findContours (binaryImage : list Z) : list contour :=
  fst (fold_left (findContours_step binaryImage)
                 (cells (length binaryImage)) ([], [])).

(** [calculateContourArea(contour)]: the shoelace sum over the points in
    array order. *)
Definition calculateContourArea (c : contour) : Q :=
  let n := length c in
  let pt := fun i => nth i c (0, 0)%Z in
  let area :=
    fold_left (fun area i =>
                 let j := (i + 1) mod n in
                 (area + fst (pt i) * snd (pt j) - fst (pt j) * snd (pt i))%Z)
              (seq 0 n) 0%Z in
  (inject_Z (Z.abs area) / 2)%Q.

(** [calculateAspectRatio(contour)]; [None] is a result that is not finite
    (a division by zero). *)
Definition calculateAspectRatio (c : contour) : option Q :=
  match c with
  | [] => None
  | (x0, y0) :: rest =>
      let minX := fold_left (fun m p => Z.min m (fst p)) rest x0 in
      let maxX := fold_left (fun m p => Z.max m (fst p)) rest x0 in
      let minY := fold_left (fun m p => Z.min m (snd p)) rest y0 in
      let maxY := fold_left (fun m p => Z.max m (snd p)) rest y0 in
      let width := (maxX - minX)%Z in
      let height := (maxY - minY)%Z in
      if (height <? width)%Z then
        if (height =? 0)%Z then None
        else Some (inject_Z width / inject_Z height)%Q
      else
        if (width =? 0)%Z then None
        else Some (inject_Z height / inject_Z width)%Q
  end.

(** [Math.PI]: the double nearest to pi. *)
Definition PI : Q := 884279719003555 # 281474976710656.

(** [calculateCircularity(area, perimeter)]. *)
Definition calculateCircularity (area perimeter : Q) : Q :=
  if Qeq_bool perimeter 0 then 0%Q
  else (4 * PI * area / (perimeter * perimeter))%Q.

Section Shape.

(** [Math.sqrt]. *)
Variable sqrtQ : Q -> Q.

(** [calculateContourPerimeter(contour)]. *)
Definition calculateContourPerimeter (c : contour) : Q :=
  let n := length c in
  let pt := fun i => nth i c (0, 0)%Z in
  fold_left (fun perimeter i =>
               let j := (i + 1) mod n in
               let dx := (fst (pt j) - fst (pt i))%Z in
               let dy := (snd (pt j) - snd (pt i))%Z in
               (perimeter + sqrtQ (inject_Z (dx * dx + dy * dy)))%Q)
            (seq 0 n) 0%Q.

(** [isFingerShape(contour)]. *)
Definition isFingerShape (c : contour) : bool :=
  if length c <? 50 then false
  else
    let area := calculateContourArea c in
    let perimeter := calculateContourPerimeter c in
    let aspectRatio := calculateAspectRatio c in
    let circularity := calculateCircularity area perimeter in
    Qle_bool minFingerArea area
    && Qle_bool area maxFingerArea
    && match aspectRatio with
       | Some a => negb (Qle_bool a (15 # 10)) && negb (Qle_bool 4 a)
       | None => false
       end
    && negb (Qle_bool (8 # 10) circularity)
    && negb (Qle_bool (1 # 10) (perimeter / area)).

(** [findFingerContour(contours)]. *)
Definition findFingerContour (contours : list contour) : option contour :=
  find isFingerShape contours.

(** The first four statements of the try block of [detectFinger]: the value
    of [fingerContour] for the frame [imageData]. *)
Definition fingerContourOf (imageData : list Z) : option contour :=
  let hsvData := rgbToHsv imageData in
  let skinMask := createSkinMask hsvData in
  let contours := findContours skinMask in
  findFingerContour contours.

End Shape.

End FingerDetector.

(** * RealPPGProcessor (RealPPGAlgorithm.js) *)

Module RealPPGProcessor.

(** ** Data *)

(** One entry of [signalBuffer], as [extractPPGSignal] builds it. *)
Record Sample : Type := mkSample {
  timestamp : Q;
  value : Q;
  r : Q;
  g : Q;
  b : Q
}.

Record BloodPressure : Type := mkBP {
  systolic : Z;
  diastolic : Z
}.

(** The instance fields that some method assigns. *)
Record state : Type := mkState {
  fingerDetector : FingerDetector.state;
  signalBuffer : list Sample;
  heartRateHistory : list Z;
  bpHistory : list BloodPressure;
  temperature : Q;
  childAge : Q;
  isProcessing : bool;
  lastProcessTime : Z
}.

(** The fields the constructor sets and no method assigns. *)
Definition maxBufferSize : nat := 300.
Definition samplingRate : Q := 30.
Definition minValidSamples : nat := 90.
Definition minHeartRate : Z := 60.
Definition maxHeartRate : Z := 200.
Definition maxHistorySize : nat := 10.
Definition maxBPHistorySize : nat := 5.
Definition snrThreshold : Q := 3.
Definition stabilityThreshold : Q := 8 # 10.
Definition amplitudeThreshold : Q := 1 # 10.
Definition processingInterval : Z := 33.

(** The constructor. *)
Definition init : state :=
  {| fingerDetector := FingerDetector.init;
     signalBuffer := [];
     heartRateHistory := [];
     bpHistory := [];
     temperature := 37;
     childAge := 5;
     isProcessing := false;
     lastProcessTime := 0 |}.

Definition with_lastProcessTime (t : Z) (s : state) : state :=
  mkState (fingerDetector s) (signalBuffer s) (heartRateHistory s) (bpHistory s)
          (temperature s) (childAge s) (isProcessing s) t.

Definition with_fingerDetector (d : FingerDetector.state) (s : state) : state :=
  mkState d (signalBuffer s) (heartRateHistory s) (bpHistory s)
          (temperature s) (childAge s) (isProcessing s) (lastProcessTime s).

Definition with_signalBuffer (buf : list Sample) (s : state) : state :=
  mkState (fingerDetector s) buf (heartRateHistory s) (bpHistory s)
          (temperature s) (childAge s) (isProcessing s) (lastProcessTime s).

Definition with_heartRateHistory (h : list Z) (s : state) : state :=
  mkState (fingerDetector s) (signalBuffer s) h (bpHistory s)
          (temperature s) (childAge s) (isProcessing s) (lastProcessTime s).

Definition with_bpHistory (h : list BloodPressure) (s : state) : state :=
  mkState (fingerDetector s) (signalBuffer s) (heartRateHistory s) h
          (temperature s) (childAge s) (isProcessing s) (lastProcessTime s).

(** The quality labels the processor writes. *)
Inductive quality : Type :=
| collecting | poor | fair | good | excellent | error | insufficient_data.

(** What [calculateVitalSigns] returns. *)
Record VitalSigns : Type := mkVitalSigns {
  vsHeartRate : option Z;
  vsBloodPressure : option BloodPressure;
  vsConfidence : Q;
  vsQuality : quality
}.

(** An entry of [signalData]. *)
Record DisplayPoint : Type := mkDisplayPoint {
  x : nat;
  y : Q;
  at_time : Q
}.

(** The two shapes of object [processFrame] returns: a status with a message,
    or the estimates. *)
Inductive Result : Type :=
| Status (fingerDetected : bool) (message : string) (confidence : Q) (q : quality)
| Estimate (fingerDetected : bool) (heartRate : option Z)
           (bloodPressure : option BloodPressure) (confidence : Q) (q : quality)
           (signalData : list DisplayPoint) (temp : Q) (age : Q).

(** Field reads on a returned object; a field the object lacks reads as absent. *)
Definition resultQuality (res : Result) : quality :=
  match res with
  | Status _ _ _ q => q
  | Estimate _ _ _ _ q _ _ _ => q
  end.

Definition resultConfidence (res : Result) : Q :=
  match res with
  | Status _ _ c _ => c
  | Estimate _ _ _ c _ _ _ _ => c
  end.

Definition resultHeartRate (res : Result) : option Z :=
  match res with
  | Status _ _ _ _ => None
  | Estimate _ hr _ _ _ _ _ _ => hr
  end.

Definition resultBloodPressure (res : Result) : option BloodPressure :=
  match res with
  | Status _ _ _ _ => None
  | Estimate _ _ bp _ _ _ _ _ => bp
  end.

Definition resultMessage (res : Result) : option string :=
  match res with
  | Status _ m _ _ => Some m
  | Estimate _ _ _ _ _ _ _ _ => None
  end.

Definition resultFingerDetected (res : Result) : bool :=
  match res with
  | Status f _ _ _ => f
  | Estimate f _ _ _ _ _ _ _ => f
  end.

(** ** What one call of [processFrame] takes from outside

    The stages of [processFrame], in call order.  Every stage but
    [AddToBuffer] wraps its whole body in a handler of its own. *)
Inductive stage : Type :=
| ExtractImageData | DetectFinger | ExtractPPGSignal
| AddToBuffer | CalculateVitalSigns | GetDisplaySignal.

Definition stage_eqb (a c : stage) : bool :=
  match a, c with
  | ExtractImageData, ExtractImageData
  | DetectFinger, DetectFinger
  | ExtractPPGSignal, ExtractPPGSignal
  | AddToBuffer, AddToBuffer
  | CalculateVitalSigns, CalculateVitalSigns
  | GetDisplaySignal, GetDisplaySignal => true
  | _, _ => false
  end.

(** The frame argument is [null] or carries [{width, height}].  The clock, the
    pixel content of the frame (which [extractImageData] replaces by a
    placeholder, so the verdict of the finger classifier and the averaged
    region are taken per frame), the draw of [Math.random] and an exception
    nothing in the code foresees are the environment of the call.  [fault]
    names the stage in whose body such an exception is raised, before that
    body assigns any field. *)
Record FrameEnv : Type := mkEnv {
  now : Z;
  frame : option (nat * nat);
  fingerContour : option FingerDetector.contour;
  regionSample : option Sample;
  random : Q;
  fault : option stage
}.

Definition raised (e : FrameEnv) (st : stage) : bool :=
  match fault e with
  | Some st' => stage_eqb st st'
  | None => false
  end.

(** ** Array helpers *)

Definition ltb (a c : Q) : bool := negb (Qle_bool c a).

(** [signal.reduce((sum, val) => sum + val, 0)]. *)
Definition sum (l : list Q) : Q := fold_left Qplus l 0%Q.

Definition mean (l : list Q) : Q := (sum l / num (length l))%Q.

(** [Math.min(...signal)] and [Math.max(...signal)] of a non-empty array (on
    the empty array the source gets an infinity; the stages below are reached
    with at least [minValidSamples] samples). *)
Definition minimum (l : list Q) : Q :=
  match l with
  | [] => 0%Q
  | v :: rest => fold_left js_min rest v
  end.

Definition maximum (l : list Q) : Q :=
  match l with
  | [] => 0%Q
  | v :: rest => fold_left js_max rest v
  end.

(** ** Signal conditioning

    The arithmetic functions from here to [assessSignalQuality] each wrap
    their body in a handler that returns a default.  Over the rationals these
    bodies do not throw, so the handlers are not embedded; an exception inside
    [calculateVitalSigns] is embedded at that function itself. *)

(** [bandpassFilter(signal, lowFreq, highFreq, sampleRate)]: the first [order]
    samples are copied, the others are the weighted sum of five samples; the
    normalised cut-offs are computed and not used.  (An array shorter than
    [order] = 4 would be padded by the copy loop; the caller passes at least
    [minValidSamples] samples.) *)
Definition bandpassFilter (signal : list Q) (lowFreq highFreq sampleRate : Q)
  : list Q :=
  let nyquist := (sampleRate / 2)%Q in
  let lowNorm := (lowFreq / nyquist)%Q in
  let highNorm := (highFreq / nyquist)%Q in
  let order := 4 in
  let s := fun i => nth i signal 0%Q in
  map (fun i =>
         if i <? order then s i
         else ((1 # 10) * s i + (2 # 10) * s (i - 1)%nat + (4 # 10) * s (i - 2)%nat
               + (2 # 10) * s (i - 3)%nat + (1 # 10) * s (i - 4)%nat)%Q)
      (seq 0 (length signal)).

(** [savitzkyGolayFilter(signal, windowSize, order)]: [halfWindow] samples at
    each end are copied, the others are the mean of their window. *)
Definition savitzkyGolayFilter (signal : list Q) (windowSize order : nat)
  : list Q :=
  let n := length signal in
  let halfWindow := windowSize / 2 in
  let s := fun i => nth i signal 0%Q in
  map (fun i =>
         if (i <? halfWindow) || (n - halfWindow <=? i) then s i
         else (fold_left (fun acc j => (acc + s (i - halfWindow + j)%nat)%Q)
                         (seq 0 (2 * halfWindow + 1)) 0%Q
               / num windowSize)%Q)
      (seq 0 n).

(** [normalizeSignal(signal)]. *)
Definition normalizeSignal (signal : list Q) : list Q :=
  let lo := minimum signal in
  let hi := maximum signal in
  let range := (hi - lo)%Q in
  if Qeq_bool range 0 then map (fun _ => (1 # 2)%Q) signal
  else map (fun val => ((val - lo) / range)%Q) signal.

(** [applySignalProcessing(signal)]. *)
Definition applySignalProcessing (signal : list Q) : list Q :=
  let m := mean signal in
  let processed := map (fun val => (val - m)%Q) signal in
  let processed := bandpassFilter processed (8 # 10)%Q 3%Q samplingRate in
  let processed := savitzkyGolayFilter processed 5 2 in
  normalizeSignal processed.

(** ** Heart rate *)

Record Peak : Type := mkPeak {
  index : nat;
  peakTime : Q;
  peakValue : Q
}.

Definition lastPeak (peaks : list Peak) : option Peak :=
  match rev peaks with
  | [] => None
  | p :: _ => Some p
  end.

(** One iteration of the loop of [findPeaks], at index [i]. *)
Definition findPeaks_step (signal timestamps : list Q) (peaks : list Peak)
  (i : nat) : list Peak :=
  let minPeakHeight := (6 # 10)%Q in
  let minPeakDistance := (3 # 10)%Q in
  let current := nth i signal 0%Q in
  let prev := nth (i - 1) signal 0%Q in
  let next := nth (i + 1) signal 0%Q in
  if ltb prev current && ltb next current && ltb minPeakHeight current then
    if match lastPeak peaks with
       | None => true
       | Some p => Qle_bool minPeakDistance (nth i timestamps 0 - peakTime p)%Q
       end
    then peaks ++ [mkPeak i (nth i timestamps 0%Q) current]
    else peaks
  else peaks.

(** [findPeaks(signal, timestamps)]: [i] runs from 1 to [signal.length - 2].
    The caller passes two arrays mapped from the same buffer, so [timestamps]
    is as long as [signal]. *)
Definition findPeaks (signal timestamps : list Q) : list Peak :=
  fold_left (findPeaks_step signal timestamps)
            (seq 1 (length signal - 2)) [].

(** The loop that collects [peaks[i].timestamp - peaks[i-1].timestamp]. *)
Fixpoint intervalsOf (peaks : list Peak) : list Q :=
  match peaks with
  | p :: (p' :: _) as rest => (peakTime p' - peakTime p)%Q :: intervalsOf rest
  | _ => []
  end.

(** [applyAgeConstraints(heartRate)]. *)
Definition ageBand (age : Q) : Q * Q :=
  if Qle_bool age 1 then (100, 160)%Q
  else if Qle_bool age 3 then (80, 140)%Q
  else if Qle_bool age 5 then (70, 120)%Q
  else if Qle_bool age 7 then (65, 110)%Q
  else (60, 100)%Q.

Definition applyAgeConstraints (age heartRate : Q) : Q :=
  let (minHR, maxHR) := ageBand age in
  js_max minHR (js_min maxHR heartRate).

(** [calculateHeartRate(signal, timestamps)]; [null] is [None]. *)
Definition calculateHeartRate (age : Q) (signal timestamps : list Q)
  : option Z :=
  let peaks := findPeaks signal timestamps in
  if length peaks <? 2 then None
  else
    let intervals := intervalsOf peaks in
    let avgInterval := (sum intervals / num (length intervals))%Q in
    let heartRate := (60 / avgInterval)%Q in
    let ageAdjustedHR := applyAgeConstraints age heartRate in
    Some (js_round ageAdjustedHR).

(** ** Blood pressure *)

(** The object [extractPulseWaveFeatures] fills. *)
Record PulseFeatures : Type := mkFeatures {
  amplitude : Q;
  featMean : Q;
  variance : Q;
  peakToPeak : Q;
  skewness : Q;
  kurtosis : Q
}.

(** [signal.reduce((sum, val) => sum + Math.pow(val - mean, 2), 0) / signal.length]. *)
Definition varianceOf (signal : list Q) (m : Q) : Q :=
  (fold_left (fun acc val => acc + (val - m) ^ 2) signal 0 / num (length signal))%Q.

(** [calculateSkewness(signal, mean, stdDev)]. *)
Definition calculateSkewness (signal : list Q) (m stdDev : Q) : Q :=
  if Qeq_bool stdDev 0 then 0%Q
  else
    let n := num (length signal) in
    let total := fold_left (fun acc val => acc + ((val - m) / stdDev) ^ 3)%Q signal 0%Q in
    ((n / ((n - 1) * (n - 2))) * total)%Q.

(** [calculateKurtosis(signal, mean, stdDev)]. *)
Definition calculateKurtosis (signal : list Q) (m stdDev : Q) : Q :=
  if Qeq_bool stdDev 0 then 0%Q
  else
    let n := num (length signal) in
    let total := fold_left (fun acc val => acc + ((val - m) / stdDev) ^ 4)%Q signal 0%Q in
    ((n * (n + 1) / ((n - 1) * (n - 2) * (n - 3))) * total
     - (3 * (n - 1) ^ 2 / ((n - 2) * (n - 3))))%Q.

(** [getAgeAdjustment()]. *)
Definition getAgeAdjustment (age : Q) : Q :=
  if Qle_bool age 1 then (-20)%Q
  else if Qle_bool age 3 then (-15)%Q
  else if Qle_bool age 5 then (-10)%Q
  else if Qle_bool age 7 then (-5)%Q
  else 0%Q.

(** [calculateSystolicBP(pulseFeatures, heartRate)]. *)
Definition calculateSystolicBP (age : Q) (pulseFeatures : PulseFeatures)
  (heartRate : Z) : Q :=
  let hr := inject_Z heartRate in
  let baseSystolic := 100%Q in
  let baseSystolic :=
    if ltb 100 hr then (baseSystolic + (hr - 100) * (3 # 10))%Q
    else if ltb hr 70 then (baseSystolic - (70 - hr) * (2 # 10))%Q
    else baseSystolic in
  let baseSystolic :=
    if ltb (3 # 10) (amplitude pulseFeatures) then (baseSystolic + 10)%Q
    else if ltb (amplitude pulseFeatures) (1 # 10) then (baseSystolic - 5)%Q
    else baseSystolic in
  let ageAdjustment := getAgeAdjustment age in
  let baseSystolic := (baseSystolic + ageAdjustment)%Q in
  js_max 70 (js_min 140 baseSystolic).

(** [calculateDiastolicBP(pulseFeatures, systolic)]; [rnd] is the value
    [Math.random()] returns. *)
Definition calculateDiastolicBP (rnd : Q) (pulseFeatures : PulseFeatures)
  (sys : Q) : Q :=
  let ratio := ((65 # 100) + (rnd - (1 # 2)) * (1 # 10))%Q in
  inject_Z (js_round (sys * ratio)).

(** [applyTemperatureCompensation(bpValue)]. *)
Definition applyTemperatureCompensation (temp bpValue : Q) : Q :=
  let tempDiff := (temp - 37)%Q in
  let compensation := (tempDiff * 2)%Q in
  (bpValue + compensation)%Q.

(** The statements of [calculateBloodPressure] that follow the extraction of
    the pulse-wave features. *)
Definition bloodPressureFrom (temp age rnd : Q) (pulseFeatures : PulseFeatures)
  (heartRate : Z) : BloodPressure :=
  let sys := calculateSystolicBP age pulseFeatures heartRate in
  let dia := calculateDiastolicBP rnd pulseFeatures sys in
  let tempCompensatedSystolic := applyTemperatureCompensation temp sys in
  let tempCompensatedDiastolic := applyTemperatureCompensation temp dia in
  {| systolic := js_round tempCompensatedSystolic;
     diastolic := js_round tempCompensatedDiastolic |}.

(** [assessSignalQuality(signal, confidence)]. *)
Definition assessSignalQuality (signal : list Q) (conf : Q) : quality :=
  if Qle_bool (8 # 10) conf then excellent
  else if Qle_bool (6 # 10) conf then good
  else if Qle_bool (4 # 10) conf then fair
  else poor.

(** [estimateNoisePower(signal)]. *)
Definition estimateNoisePower (signal : list Q) : Q :=
  let n := length signal in
  let s := fun i => nth i signal 0%Q in
  let noiseSum :=
    fold_left (fun acc i =>
                 let diff := Qabs (s i - s (i - 1)%nat) in (acc + diff * diff)%Q)
              (seq 1 (n - 1)) 0%Q in
  let count := n - 1 in
  if 0 <? count then (noiseSum / num count)%Q else (1 # 100)%Q.

(** [calculateAmplitude(signal)]. *)
Definition calculateAmplitude (signal : list Q) : Q :=
  (maximum signal - minimum signal)%Q.

(** [updateHeartRateHistory(heartRate)] and [updateBPHistory(bloodPressure)]. *)
Definition updateHeartRateHistory (heartRate : Z) (s : state) : state :=
  let h := heartRateHistory s ++ [heartRate] in
  with_heartRateHistory (if maxHistorySize <? length h then tl h else h) s.

Definition updateBPHistory (bp : BloodPressure) (s : state) : state :=
  let h := bpHistory s ++ [bp] in
  with_bpHistory (if maxBPHistorySize <? length h then tl h else h) s.

(** [addToBuffer(ppgSignal)]: one [push], then at most one [shift]. *)
Definition addToBuffer (ppgSignal : Sample) (s : state) : state :=
  let buf := signalBuffer s ++ [ppgSignal] in
  with_signalBuffer (if maxBufferSize <? length buf then tl buf else buf) s.

(** What a caller can pass where the setters expect a number, as [Math.min]
    converts it: a finite number, an infinity, or NaN (NaN itself,
    [undefined], a string that is not a number). *)
Inductive argument : Type :=
| Finite (v : Q)
| PlusInfinity
| MinusInfinity
| NotANumber.

(** [Math.max(lo, Math.min(hi, x))] for two finite bounds.  An infinity is
    cut to a bound like any other number; NaN goes through both calls and
    comes out as NaN, which is [None] here. *)
Definition clampArgument (lo hi : Q) (x : argument) : option Q :=
  match x with
  | Finite v => Some (js_max lo (js_min hi v))
  | PlusInfinity => Some (js_max lo hi)
  | MinusInfinity => Some lo
  | NotANumber => None
  end.

(** [a || d] as the app writes it for the two settings: the default replaces
    NaN and zero. *)
Definition orDefault (a : argument) (d : Q) : argument :=
  match a with
  | NotANumber => Finite d
  | Finite v => if Qeq_bool v 0 then Finite d else a
  | _ => a
  end.

(** [setTemperature(temp)] and [setChildAge(age)].  The fields of [state] are
    numbers: a call that would store NaN has no next state here ([None]), and
    the sessions followed below are those without such a call.  The app calls
    the setters with [parseFloat(temperature) || 37.0] and
    [parseInt(childAge) || 5], which are never NaN. *)
Definition setTemperature (temp : argument) (s : state) : option state :=
  match clampArgument 35 42 temp with
  | Some t =>
      Some (mkState (fingerDetector s) (signalBuffer s) (heartRateHistory s)
                    (bpHistory s) t (childAge s) (isProcessing s)
                    (lastProcessTime s))
  | None => None
  end.

Definition setChildAge (age : argument) (s : state) : option state :=
  match clampArgument 0 7 age with
  | Some a =>
      Some (mkState (fingerDetector s) (signalBuffer s) (heartRateHistory s)
                    (bpHistory s) (temperature s) a (isProcessing s)
                    (lastProcessTime s))
  | None => None
  end.

(** [reset()]. *)
Definition reset (s : state) : state :=
  mkState (FingerDetector.reset (fingerDetector s)) [] [] []
          (temperature s) (childAge s) false (lastProcessTime s).

(** ** The stages that read the frame *)

(** [extractImageData(frame)]: destructuring a [null] frame throws inside the
    try block; otherwise the result is the placeholder image, four bytes per
    pixel.  The handler returns [null]. *)
Definition extractImageData (e : FrameEnv) : option (list Z) :=
  tryCatch
    (if raised e ExtractImageData then Thrown
     else match frame e with
          | None => Thrown
          | Some (width, height) =>
              Returned (Some (concat (repeat [128; 128; 128; 255]%Z
                                             (width * height))))
          end)
    None.

(** [extractPPGSignal(imageData, fingerContour)]: [null] without a contour or
    without a valid pixel, else the averaged sample.  The handler returns
    [null]. *)
Definition extractPPGSignal (e : FrameEnv) (imageData : list Z)
  (contour : option FingerDetector.contour) : option Sample :=
  tryCatch
    (if raised e ExtractPPGSignal then Thrown
     else match contour with
          | None | Some [] => Returned None
          | Some (_ :: _) => Returned (regionSample e)
          end)
    None.

(** [getDisplaySignal()]: the last 60 samples, numbered from 0.  The handler
    returns the empty array. *)
Definition getDisplaySignal (e : FrameEnv) (s : state) : list DisplayPoint :=
  tryCatch
    (if raised e GetDisplaySignal then Thrown
     else
       let recentSignals := lastN 60 (signalBuffer s) in
       Returned (map (fun p => mkDisplayPoint (fst p) (value (snd p))
                                              (timestamp (snd p)))
                     (combine (seq 0 (length recentSignals)) recentSignals)))
    [].

(** [n] in decimal, as a template literal prints it. *)
Definition decimal (n : nat) : string :=
  NilEmpty.string_of_uint (Nat.to_uint n).

Section Numerics.

(** [Math.sqrt] and [Math.log10]. *)
Variables sqrtQ log10Q : Q -> Q.

(** [extractPulseWaveFeatures(signal)]. *)
Definition extractPulseWaveFeatures (signal : list Q) : PulseFeatures :=
  let m := mean signal in
  let var := varianceOf signal m in
  let stdDev := sqrtQ var in
  {| amplitude := stdDev;
     featMean := m;
     variance := var;
     peakToPeak := (maximum signal - minimum signal)%Q;
     skewness := calculateSkewness signal m stdDev;
     kurtosis := calculateKurtosis signal m stdDev |}.

(** [calculateBloodPressure(signal, heartRate)]: [!heartRate] holds of [null]
    and of 0. *)
Definition calculateBloodPressure (temp age rnd : Q) (signal : list Q)
  (heartRate : option Z) : option BloodPressure :=
  match heartRate with
  | None => None
  | Some hr =>
      if (hr =? 0)%Z then None
      else Some (bloodPressureFrom temp age rnd
                                   (extractPulseWaveFeatures signal) hr)
  end.

(** [calculateSNR(signal)]. *)
Definition calculateSNR (signal : list Q) : Q :=
  let m := mean signal in
  let signalPower := varianceOf signal m in
  let noisePower := estimateNoisePower signal in
  if Qeq_bool noisePower 0 then 10%Q
  else (10 * log10Q (signalPower / noisePower))%Q.

(** [calculateStability(signal)]. *)
Definition calculateStability (signal : list Q) : Q :=
  let m := mean signal in
  let var := varianceOf signal m in
  let stdDev := sqrtQ var in
  if ltb 0 m then js_max 0 (1 - stdDev / m)%Q else 0%Q.

(** [calculateConfidence(signal, heartRate)]. *)
Definition calculateConfidence (signal : list Q) (heartRate : option Z) : Q :=
  let conf := 0%Q in
  let snr := calculateSNR signal in
  let stability := calculateStability signal in
  let amp := calculateAmplitude signal in
  let conf :=
    if ltb snrThreshold snr then (conf + (3 # 10))%Q
    else (conf + (snr / snrThreshold) * (3 # 10))%Q in
  let conf :=
    if ltb stabilityThreshold stability then (conf + (3 # 10))%Q
    else (conf + (stability / stabilityThreshold) * (3 # 10))%Q in
  let conf :=
    if ltb amplitudeThreshold amp then (conf + (2 # 10))%Q
    else (conf + (amp / amplitudeThreshold) * (2 # 10))%Q in
  let conf :=
    match heartRate with
    | Some hr =>
        if negb (hr =? 0)%Z && (minHeartRate <=? hr)%Z && (hr <=? maxHeartRate)%Z
        then (conf + (2 # 10))%Q else conf
    | None => conf
    end in
  js_min 1 (js_max 0 conf).

(** [calculateVitalSigns()].  Every computation of the try block precedes the
    two history updates; the handler returns the all-null object with quality
    ['error']. *)
Definition calculateVitalSigns (e : FrameEnv) (s : state) : state * VitalSigns :=
  if raised e CalculateVitalSigns then
    (s, mkVitalSigns None None 0 error)
  else if length (signalBuffer s) <? minValidSamples then
    (s, mkVitalSigns None None 0 insufficient_data)
  else
    let values := map value (signalBuffer s) in
    let timestamps := map timestamp (signalBuffer s) in
    let filteredSignal := applySignalProcessing values in
    let heartRate := calculateHeartRate (childAge s) filteredSignal timestamps in
    let bloodPressure :=
      calculateBloodPressure (temperature s) (childAge s) (random e)
                             filteredSignal heartRate in
    let conf := calculateConfidence filteredSignal heartRate in
    let q := assessSignalQuality filteredSignal conf in
    let s :=
      match heartRate with
      | Some hr => if (hr =? 0)%Z then s else updateHeartRateHistory hr s
      | None => s
      end in
    let s :=
      match bloodPressure with
      | Some bp => updateBPHistory bp s
      | None => s
      end in
    (s, mkVitalSigns heartRate bloodPressure conf q).

(** The try block of [processFrame]: the state it leaves and what it
    returned, or that it threw. *)
Definition processFrame_body (e : FrameEnv) (s : state)
  : state * outcome (option Result) :=
  let currentTime := now e in
  if (currentTime - lastProcessTime s <? processingInterval)%Z then
    (s, Returned None)
  else
    let s := with_lastProcessTime currentTime s in
    match extractImageData e with
    | None => (s, Returned None)
    | Some imageData =>
        let (fd, fingerDetection) :=
          FingerDetector.detectFinger
            (if raised e DetectFinger then Thrown
             else Returned (fingerContour e))
            (fingerDetector s) in
        let s := with_fingerDetector fd s in
        if negb (FingerDetector.detected fingerDetection) then
          (s, Returned (Some (Status false
                 "Please place your finger properly on the camera" 0 poor)))
        else
          match extractPPGSignal e imageData
                                 (FingerDetector.found fingerDetection) with
          | None => (s, Returned None)
          | Some ppgSignal =>
              if raised e AddToBuffer then (s, Thrown)
              else
                let s := addToBuffer ppgSignal s in
                if minValidSamples <=? length (signalBuffer s) then
                  let (s, vitalSigns) := calculateVitalSigns e s in
                  (s, Returned (Some (Estimate true
                         (vsHeartRate vitalSigns)
                         (vsBloodPressure vitalSigns)
                         (vsConfidence vitalSigns)
                         (vsQuality vitalSigns)
                         (getDisplaySignal e s)
                         (temperature s)
                         (childAge s))))
                else
                  (s, Returned (Some (Status true
                         ("Collecting data... "
                            ++ decimal (length (signalBuffer s)) ++ "/"
                            ++ decimal minValidSamples)%string
                         (num (length (signalBuffer s)) / num minValidSamples)
                         collecting)))
          end
    end.

(** [processFrame(frame)]: the try block and its handler. *)
Definition processFrame (e : FrameEnv) (s : state) : state * option Result :=
  let (s', out) := processFrame_body e s in
  (s', tryCatch out
         (Some (Status false "Processing error occurred" 0 error))).

End Numerics.

End RealPPGProcessor.

(** * The heart-rate estimator of RealPPGProcessor in binary64

    Where the last bit of a quotient decides the result, the rationals are
    too fine a model: [1.2 - 0.9] is below [0.3] in binary64, and sixty
    divided by a mean interval can round to the other side of a half.  The
    functions behind [calculateHeartRate] are therefore also embedded over
    the binary64 numbers of Rocq ([PrimFloat.float]), which are the
    numbers of JavaScript: same operations, same rounding, same NaN. *)

Module Double.

Import PrimFloat SpecFloat FloatOps.

(** The rational a finite binary64 number stands for (0 for the others). *)
Definition exactly (x : float) : Q :=
  match Prim2SF x with
  | S754_finite s m e =>
      let n := if s then Z.neg m else Z.pos m in
      if (e <? 0)%Z then Qmake n (Z.to_pos (2 ^ (- e)))
      else inject_Z (n * 2 ^ e)
  | _ => 0%Q
  end.

(** An integer below 2^53 in absolute value as a binary64 number. *)
Definition ofZ (z : Z) : float :=
  if (z <? 0)%Z then opp (of_uint63 (Uint63.of_Z (- z)))
  else of_uint63 (Uint63.of_Z z).

(** [array.length] as a number. *)
Definition num (n : nat) : float := ofZ (Z.of_nat n).

(** [Math.round(x)]: the nearest integer, ties towards plus infinity; an
    integer, an infinity or NaN is returned as it is, and what rounds to zero
    from below is [-0]. *)
Definition js_round (x : float) : float :=
  match Prim2SF x with
  | S754_finite s m e =>
      if (e <? 0)%Z then
        let z := Qfloor (exactly x + (1 # 2))%Q in
        if (z =? 0)%Z then (if s then (-0)%float else 0%float) else ofZ z
      else x
  | _ => x
  end.

(** [Math.min(a, b)] and [Math.max(a, b)]: NaN when an argument is NaN, and
    [-0] counts as smaller than [+0]. *)
Definition js_min (a b : float) : float :=
  if is_nan a || is_nan b then nan
  else if ltb a b then a
  else if ltb b a then b
  else if get_sign a then a else b.

Definition js_max (a b : float) : float :=
  if is_nan a || is_nan b then nan
  else if ltb a b then b
  else if ltb b a then a
  else if get_sign a then b else a.

(** [array[i]] where a number is expected: reading past the end gives
    [undefined], which compares and subtracts as NaN. *)
Definition item (l : list float) (i : nat) : float := nth i l nan.

End Double.

Module RealPPGProcessorDouble.

Import PrimFloat.
Import Double.

(** The object [findPeaks] pushes. *)
Record Peak : Type := mkPeak {
  index : nat;
  timestamp : float;
  value : float
}.

Definition lastPeak (peaks : list Peak) : option Peak :=
  match rev peaks with
  | [] => None
  | p :: _ => Some p
  end.

(** The literals 0.6 and 0.3 of [findPeaks], as binary64 reads them. *)
Definition minPeakHeight : float := 0x1.3333333333333p-1%float.
Definition minPeakDistance : float := 0x1.3333333333333p-2%float.

(** One iteration of the loop of [findPeaks], at index [i]. *)
Definition findPeaks_step (signal timestamps : list float)
  (peaks : list Peak) (i : nat) : list Peak :=
  let current := item signal i in
  let prev := item signal (i - 1) in
  let next := item signal (i + 1) in
  if ltb prev current && ltb next current && ltb minPeakHeight current then
    if match lastPeak peaks with
       | None => true
       | Some p => leb minPeakDistance (item timestamps i - timestamp p)
       end
    then peaks ++ [mkPeak i (item timestamps i) current]
    else peaks
  else peaks.

(** [findPeaks(signal, timestamps)]: [i] runs from 1 to [signal.length - 2]. *)
Definition findPeaks (signal timestamps : list float) : list Peak :=
  fold_left (findPeaks_step signal timestamps)
            (seq 1 (length signal - 2)) [].

(** The loop that collects [peaks[i].timestamp - peaks[i-1].timestamp]. *)
Fixpoint intervalsOf (peaks : list Peak) : list float :=
  match peaks with
  | p :: (p' :: _) as rest =>
      (timestamp p' - timestamp p)%float :: intervalsOf rest
  | _ => []
  end.

(** [intervals.reduce((sum, val) => sum + val, 0)]. *)
Definition sum (l : list float) : float := fold_left add l 0%float.

(** [applyAgeConstraints(heartRate)]; a comparison with a NaN age is false. *)
Definition ageBand (age : float) : float * float :=
  if leb age 1 then (100, 160)%float
  else if leb age 3 then (80, 140)%float
  else if leb age 5 then (70, 120)%float
  else if leb age 7 then (65, 110)%float
  else (60, 100)%float.

Definition applyAgeConstraints (age heartRate : float) : float :=
  let (minHR, maxHR) := ageBand age in
  js_max minHR (js_min maxHR heartRate).

(** [calculateHeartRate(signal, timestamps)]; [null] is [None]. *)
Definition calculateHeartRate (age : float) (signal timestamps : list float)
  : option float :=
  let peaks := findPeaks signal timestamps in
  if length peaks <? 2 then None
  else
    let intervals := intervalsOf peaks in
    let avgInterval := (sum intervals / num (length intervals))%float in
    let heartRate := (60 / avgInterval)%float in
    let ageAdjustedHR := applyAgeConstraints age heartRate in
    Some (js_round ageAdjustedHR).

End RealPPGProcessorDouble.

(** * The simulated processors

    [AdvancedPPGProcessor] (PPGAlgorithm.js) and [EnhancedPPGProcessor]
    (App.js) keep one array per colour channel and one of timestamps. *)

(** The object with fields [red], [green], [blue] that is pushed. *)
Record RGB : Type := mkRGB {
  red : Q;
  green : Q;
  blue : Q
}.

(** The four arrays, in the order [redBuffer], [greenBuffer], [blueBuffer],
    [timestamps]. *)
Record Channels : Type := mkChannels {
  redBuffer : list Q;
  greenBuffer : list Q;
  blueBuffer : list Q;
  timestamps : list Q
}.

(** [while (this.redBuffer.length > bufferSize) { shift all four }]; the loop
    ends because every turn shortens [redBuffer].  [shift] on an empty array
    leaves it empty. *)
Fixpoint shiftWhileOver (bufferSize : nat) (rs gs bs ts : list Q) {struct rs}
  : Channels :=
  match rs with
  | [] => mkChannels rs gs bs ts
  | _ :: rs' =>
      if bufferSize <? length rs
      then shiftWhileOver bufferSize rs' (tl gs) (tl bs) (tl ts)
      else mkChannels rs gs bs ts
  end.

(** [addToBuffer(rgbValues, timestamp)], the same text in both classes. *)
Definition pushSample (bufferSize : nat) (rgbValues : RGB) (timestamp : Q)
  (c : Channels) : Channels :=
  shiftWhileOver bufferSize
                 (redBuffer c ++ [red rgbValues])
                 (greenBuffer c ++ [green rgbValues])
                 (blueBuffer c ++ [blue rgbValues])
                 (timestamps c ++ [timestamp]).

(** [[...history].sort((a, b) => a - b)]. *)
Fixpoint insertSorted (v : Q) (l : list Q) : list Q :=
  match l with
  | [] => [v]
  | w :: rest => if Qle_bool v w then v :: l else w :: insertSorted v rest
  end.

Definition sortNumbers (l : list Q) : list Q :=
  fold_right insertSorted [] l.

(** The moving average both classes start their filtering with
    ([bandpassFilter] in the one, the first loop of [applyFiltering] in the
    other): entry [i] is the mean of the entries [j] with
    [max(0, i - 5) <= j <= min(length - 1, i + 5)]. *)
Definition movingAverage (signal : list Q) : list Q :=
  let windowSize := 5 in
  map (fun i =>
         let first := i - windowSize in
         let last := Nat.min (length signal - 1) (i + windowSize) in
         let window := seq first (S last - first) in
         (fold_left (fun sum j => sum + nth j signal 0)%Q window 0%Q
          / num (length window))%Q)
      (seq 0 (length signal)).

(** The loop of [findPeaks], the same text in both classes: the indices [i]
    from 1 to [length - 2] at which the signal exceeds both neighbours and
    [threshold], unless the last index kept is less than [minDistance]
    before [i]. *)
Definition peakIndices_step (signal : list Q) (threshold : Q)
  (minDistance : nat) (peaks : list nat) (i : nat) : list nat :=
  let s := fun j => nth j signal 0%Q in
  if negb (Qle_bool (s i) (s (i - 1)))
     && negb (Qle_bool (s i) (s (i + 1)))
     && negb (Qle_bool (s i) threshold)
  then
    if match rev peaks with
       | [] => true
       | p :: _ => minDistance <=? i - p
       end
    then peaks ++ [i]
    else peaks
  else peaks.

Definition peakIndices (signal : list Q) (threshold : Q) (minDistance : nat)
  : list nat :=
  fold_left (peakIndices_step signal threshold minDistance)
            (seq 1 (length signal - 2)) [].

(** The loop that collects [peaks[i] - peaks[i - 1]]; the indices increase. *)
Fixpoint differences (peaks : list nat) : list nat :=
  match peaks with
  | p :: (p' :: _) as rest => (p' - p) :: differences rest
  | _ => []
  end.

Module AdvancedPPGProcessor.

Definition sampleRate : Q := 30.
Definition bufferSize : nat := 300.
Definition minHeartRate : Q := 60.
Definition maxHeartRate : Q := 150.

Record state : Type := mkState {
  channels : Channels;
  processedSignal : list Q;
  peaks : list nat;
  heartRateHistory : list Q
}.

(** The constructor. *)
Definition init : state :=
  {| channels := mkChannels [] [] [] [];
     processedSignal := [];
     peaks := [];
     heartRateHistory := [] |}.

Definition addToBuffer (rgbValues : RGB) (timestamp : Q) (s : state) : state :=
  mkState (pushSample bufferSize rgbValues timestamp (channels s))
          (processedSignal s) (peaks s) (heartRateHistory s).

(** [getSmoothedHeartRate()]: the median of the history. *)
Definition getSmoothedHeartRate (s : state) : option Q :=
  match heartRateHistory s with
  | [] => None
  | _ =>
      let sorted := sortNumbers (heartRateHistory s) in
      let middle := length sorted / 2 in
      if length sorted mod 2 =? 0
      then Some (inject_Z (js_round ((nth (middle - 1) sorted 0 + nth middle sorted 0) / 2)%Q))
      else Some (nth middle sorted 0%Q)
  end.

(** [reset()]. *)
Definition reset (s : state) : state := init.

(** The object [processFrame] returns (its [confidence] and [signal] fields
    are computed from the arrays and assign nothing). *)
Record Result : Type := mkResult {
  heartRate : option Q;
  isValid : bool
}.

Section Estimator.

(** The combined estimate [finalHR] that [calculateHeartRate] derives from a
    copy of [greenBuffer] by the moving average, the detrending, the peak
    intervals and the discrete Fourier transform ([Math.cos], [Math.sin],
    [Math.sqrt]); [null] is [None]. *)
Variable finalHR : list Q -> option Q.

(** [calculateHeartRate()]: a truthy estimate is appended to the history, the
    history is cut to 10 entries, and the smoothed value is returned. *)
Definition calculateHeartRate (s : state) : state * option Q :=
  match finalHR (greenBuffer (channels s)) with
  | None => (s, None)
  | Some hr =>
      if Qeq_bool hr 0 then (s, None)
      else
        let h := heartRateHistory s ++ [hr] in
        let h := if 10 <? length h then tl h else h in
        let s := mkState (channels s) (processedSignal s) (peaks s) h in
        (s, getSmoothedHeartRate s)
  end.

(** [processFrame(imageData, timestamp)]; [rgbValues] is what
    [extractRGBValues] simulates from the clock and [Math.random]. *)
Definition processFrame (rgbValues : RGB) (timestamp : Q) (s : state)
  : state * option Result :=
  let s := addToBuffer rgbValues timestamp s in
  if 60 <=? length (redBuffer (channels s)) then
    let (s, hr) := calculateHeartRate s in
    (s, Some {| heartRate := hr;
                isValid := match hr with
                           | Some v => Qle_bool minHeartRate v && Qle_bool v maxHeartRate
                           | None => false
                           end |})
  else (s, None).

End Estimator.

(** ** The estimator

    The functions [calculateHeartRate] calls to obtain [finalHR], and the
    display signal; they read the arrays and assign nothing. *)

(** [bandpassFilter(signal)]. *)
Definition bandpassFilter (signal : list Q) : list Q := movingAverage signal.

(** [detrend(signal)]. *)
Definition detrend (signal : list Q) : list Q :=
  match signal with
  | [] => signal
  | _ =>
      let mean := (fold_left Qplus signal 0 / num (length signal))%Q in
      map (fun val => (val - mean)%Q) signal
  end.

(** [removeOutliers(data)]; [Math.floor(length * 0.25)] is [length / 4] and
    [Math.floor(length * 0.75)] is [length * 3 / 4]. *)
Definition removeOutliers (data : list Q) : list Q :=
  if length data <? 3 then data
  else
    let sorted := sortNumbers data in
    let q1 := nth (length sorted / 4) sorted 0%Q in
    let q3 := nth (length sorted * 3 / 4) sorted 0%Q in
    let iqr := (q3 - q1)%Q in
    let lowerBound := (q1 - (15 # 10) * iqr)%Q in
    let upperBound := (q3 + (15 # 10) * iqr)%Q in
    filter (fun val => Qle_bool lowerBound val && Qle_bool val upperBound)
           data.

(** [normalizeSignal(signal)]. *)
Definition normalizeSignal (signal : list Q) : list Q :=
  match signal with
  | [] => []
  | _ =>
      let min := RealPPGProcessor.minimum signal in
      let max := RealPPGProcessor.maximum signal in
      let range := (max - min)%Q in
      if Qeq_bool range 0 then map (fun _ => 0%Q) signal
      else map (fun val => (((val - min) / range - (1 # 2)) * 2)%Q) signal
  end.

(** [getDisplaySignal()]: the pairs [(x, y)]. *)
Definition getDisplaySignal (s : state) : list (nat * Q) :=
  let displayLength := 60 in
  let signal := lastN displayLength (greenBuffer (channels s)) in
  match signal with
  | [] => []
  | _ =>
      let filtered := bandpassFilter signal in
      let normalized := normalizeSignal filtered in
      combine (seq 0 (length normalized)) normalized
  end.

(** A value that is neither [null] nor 0. *)
Definition truthy (v : option Q) : bool :=
  match v with
  | Some x => negb (Qeq_bool x 0)
  | None => false
  end.

Section Spectrum.

(** [Math.sqrt], and the magnitude
    [Math.sqrt(real * real + imag * imag)] of entry [i] of
    [simpleFFT(signal)], which goes through [Math.cos] and [Math.sin]. *)
Variable sqrtQ : Q -> Q.
Variable magnitude : list Q -> nat -> Q.

(** [calculateAdaptiveThreshold(signal)]. *)
Definition calculateAdaptiveThreshold (signal : list Q) : Q :=
  let mean := (fold_left Qplus signal 0 / num (length signal))%Q in
  let variance :=
    (fold_left (fun sum val => sum + (val - mean) ^ 2) signal 0
     / num (length signal))%Q in
  let stdDev := sqrtQ variance in
  (mean + (6 # 10) * stdDev)%Q.

(** [findPeaks(signal)]; [Math.floor(this.sampleRate * 0.4)] is 12. *)
Definition findPeaks (signal : list Q) : list nat :=
  peakIndices signal (calculateAdaptiveThreshold signal) 12.

(** [calculateHRFromPeaks(signal)]. *)
Definition calculateHRFromPeaks (signal : list Q) : option Q :=
  let peaks := findPeaks signal in
  if length peaks <? 2 then None
  else
    let intervals :=
      map (fun intervalSamples =>
             let intervalSeconds := (num intervalSamples / sampleRate)%Q in
             (60 / intervalSeconds)%Q)
          (differences peaks) in
    let filteredIntervals := removeOutliers intervals in
    match filteredIntervals with
    | [] => None
    | _ => Some (fold_left Qplus filteredIntervals 0
                 / num (length filteredIntervals))%Q
    end.

(** One iteration of the search of [calculateHRFromFFT] for the dominant
    frequency; the pair is [(maxMagnitude, dominantFreq)]. *)
Definition dominant_step (signal : list Q) (acc : Q * Q) (i : nat) : Q * Q :=
  let frequencyResolution := (sampleRate / num (length signal))%Q in
  let minFreq := (minHeartRate / 60)%Q in
  let maxFreq := (maxHeartRate / 60)%Q in
  let freq := (num i * frequencyResolution)%Q in
  if Qle_bool minFreq freq && Qle_bool freq maxFreq then
    if negb (Qle_bool (magnitude signal i) (fst acc))
    then (magnitude signal i, freq)
    else acc
  else acc.

(** [calculateHRFromFFT(signal)]: [i] runs over the integers below
    [length / 2]. *)
Definition calculateHRFromFFT (signal : list Q) : option Q :=
  if length signal <? 64 then None
  else
    let dominantFreq :=
      snd (fold_left (dominant_step signal)
                     (seq 0 ((length signal + 1) / 2)) (0%Q, 0%Q)) in
    if negb (Qle_bool dominantFreq 0) then Some (dominantFreq * 60)%Q
    else None.

(** The value of [finalHR] in [calculateHeartRate], from a copy of
    [greenBuffer]. *)
Definition finalHR (signal : list Q) : option Q :=
  let filteredSignal := bandpassFilter signal in
  let detrended := detrend filteredSignal in
  let hrFromPeaks := calculateHRFromPeaks detrended in
  let hrFromFFT := calculateHRFromFFT detrended in
  if truthy hrFromPeaks && truthy hrFromFFT then
    match hrFromPeaks, hrFromFFT with
    | Some p, Some f =>
        Some (inject_Z (js_round ((6 # 10) * p + (4 # 10) * f)))
    | _, _ => None
    end
  else if truthy hrFromPeaks then hrFromPeaks
  else hrFromFFT.

End Spectrum.

Section Quality.

(** [Math.sqrt]. *)
Variable sqrtQ : Q -> Q.

(** [calculateConfidence()].  (With an empty [greenBuffer] the range would
    not be finite; a history of three entries comes with a buffer that is
    not empty.) *)
Definition calculateConfidence (s : state) : Q :=
  if length (heartRateHistory s) <? 3 then 0%Q
  else
    let recent := lastN 5 (heartRateHistory s) in
    let mean := (fold_left Qplus recent 0 / num (length recent))%Q in
    let variance :=
      (fold_left (fun sum val => sum + (val - mean) ^ 2) recent 0
       / num (length recent))%Q in
    let coefficientOfVariation := (sqrtQ variance / mean)%Q in
    let stability := js_max 0 (1 - coefficientOfVariation * 10)%Q in
    let signal := lastN 30 (greenBuffer (channels s)) in
    let signalRange := (RealPPGProcessor.maximum signal
                        - RealPPGProcessor.minimum signal)%Q in
    let amplitude := js_min 1 (signalRange / 50)%Q in
    (stability * (7 # 10) + amplitude * (3 # 10))%Q.

End Quality.

End AdvancedPPGProcessor.

Module EnhancedPPGProcessor.

Definition sampleRate : Q := 30.
Definition bufferSize : nat := 300.
Definition minHeartRate : Z := 60.
Definition maxHeartRate : Z := 150.

Record state : Type := mkState {
  channels : Channels;
  heartRateHistory : list Z;
  confidenceHistory : list Q;
  isProcessing : bool;
  measurementStartTime : option Z
}.

(** The constructor. *)
Definition init : state :=
  {| channels := mkChannels [] [] [] [];
     heartRateHistory := [];
     confidenceHistory := [];
     isProcessing := false;
     measurementStartTime := None |}.

Definition addToBuffer (data : RGB) (timestamp : Q) (s : state) : state :=
  mkState (pushSample bufferSize data timestamp (channels s))
          (heartRateHistory s) (confidenceHistory s) (isProcessing s)
          (measurementStartTime s).

(** [getSmoothedHeartRate()]: the rounded mean of the last three entries. *)
Definition getSmoothedHeartRate (s : state) : option Z :=
  match heartRateHistory s with
  | [] => None
  | _ =>
      let recent := lastN 3 (heartRateHistory s) in
      Some (js_round (fold_left (fun acc val => acc + inject_Z val)%Q recent 0%Q
                      / num (length recent))%Q)
  end.

(** [reset()]; [isProcessing] is not assigned. *)
Definition reset (s : state) : state :=
  mkState (mkChannels [] [] [] []) [] [] (isProcessing s) None.

(** The object [calculateMetrics] returns (its [signalData] and [metrics]
    fields are computed from the arrays and assign nothing). *)
Record Result : Type := mkResult {
  heartRate : option Z;
  confidence : Q;
  isValid : bool
}.

Section Estimator.

(** [estimateHeartRate(applyFiltering(signal))] on a copy of [greenBuffer],
    and [calculateConfidence] ([Math.log10], [Math.sqrt]) on the same signal,
    the estimate and the history. *)
Variable estimateHeartRate : list Q -> option Z.
Variable calculateConfidence : list Q -> option Z -> list Z -> Q.

(** [calculateMetrics()]: a truthy estimate is appended to the history with
    its confidence, both cut to 20 entries. *)
Definition calculateMetrics (s : state) : state * Result :=
  let signal := greenBuffer (channels s) in
  let hr := estimateHeartRate signal in
  let conf := calculateConfidence signal hr (heartRateHistory s) in
  let s :=
    match hr with
    | Some v =>
        if (v =? 0)%Z then s
        else
          let h := heartRateHistory s ++ [v] in
          let c := confidenceHistory s ++ [conf] in
          if 20 <? length h
          then mkState (channels s) (tl h) (tl c) (isProcessing s)
                       (measurementStartTime s)
          else mkState (channels s) h c (isProcessing s)
                       (measurementStartTime s)
    | None => s
    end in
  (s, {| heartRate := getSmoothedHeartRate s;
         confidence := conf;
         isValid := match hr with
                    | Some v => (minHeartRate <=? v)%Z && (v <=? maxHeartRate)%Z
                    | None => false
                    end |}).

(** [processFrame(timestamp)]; [simulatedData] is what
    [generateRealisticPPGSignal] simulates from the clock and [Math.random]. *)
Definition processFrame (simulatedData : RGB) (timestamp : Q) (s : state)
  : state * option Result :=
  if isProcessing s then (s, None)
  else
    let s := addToBuffer simulatedData timestamp s in
    if 60 <=? length (greenBuffer (channels s)) then
      let (s, res) := calculateMetrics s in (s, Some res)
    else (s, None).

End Estimator.

(** ** The estimator

    The functions [calculateMetrics] calls to obtain the estimate; they read
    the signal passed in and assign nothing. *)

(** [applyFiltering(signal)]: the moving average, then the mean removed. *)
Definition applyFiltering (signal : list Q) : list Q :=
  let filtered := movingAverage signal in
  let mean := (fold_left Qplus filtered 0 / num (length filtered))%Q in
  map (fun val => (val - mean)%Q) filtered.

(** [calculateDynamicThreshold(signal)]; [Math.floor(length * 0.75)] is
    [length * 3 / 4]. *)
Definition calculateDynamicThreshold (signal : list Q) : Q :=
  let sorted := sortNumbers signal in
  let percentile75 := nth (length sorted * 3 / 4) sorted 0%Q in
  (percentile75 * (6 # 10))%Q.

(** [findPeaks(signal)]; [Math.floor(this.sampleRate * 0.4)] is 12. *)
Definition findPeaks (signal : list Q) : list nat :=
  peakIndices signal (calculateDynamicThreshold signal) 12.

(** [estimateHeartRate(signal)]. *)
Definition estimateHeartRate (signal : list Q) : option Z :=
  if length signal <? 60 then None
  else
    let peaks := findPeaks signal in
    if length peaks <? 2 then None
    else
      let intervals := differences peaks in
      let avgInterval :=
        (fold_left (fun sum val => sum + num val) intervals 0
         / num (length intervals))%Q in
      let heartRate := (60 * sampleRate / avgInterval)%Q in
      Some (js_round (js_max (inject_Z minHeartRate)
                             (js_min (inject_Z maxHeartRate) heartRate))).

(** [assessSignalQuality(signal, confidence)]. *)
Definition assessSignalQuality (signal : list Q) (conf : Q)
  : RealPPGProcessor.quality :=
  if negb (Qle_bool conf (8 # 10)) then RealPPGProcessor.excellent
  else if negb (Qle_bool conf (6 # 10)) then RealPPGProcessor.good
  else if negb (Qle_bool conf (4 # 10)) then RealPPGProcessor.fair
  else RealPPGProcessor.poor.

(** [getDisplaySignal(signal)]: the pairs [(x, y)]; a range of 0 is replaced
    by 1. *)
Definition getDisplaySignal (signal : list Q) : list (nat * Q) :=
  let displayLength := Nat.min 60 (length signal) in
  let data := lastN displayLength signal in
  match data with
  | [] => []
  | _ =>
      let max := RealPPGProcessor.maximum data in
      let min := RealPPGProcessor.minimum data in
      let range := if Qeq_bool (max - min) 0 then 1%Q else (max - min)%Q in
      map (fun p => (fst p, (((snd p - min) / range - (1 # 2)) * 2)%Q))
          (combine (seq 0 (length data)) data)
  end.

End EnhancedPPGProcessor.

(** * PPGSignalClassifier (PPGAlgorithm.js) *)

Module PPGSignalClassifier.

(** The strings [detectArtifacts] pushes. *)
Inductive artifact : Type :=
| motion
| saturation
| poor_contact.

(** [classifySignalQuality(confidence, snr, hrv)], with the constructor's
    thresholds 0.9, 0.7 and 0.5. *)
Definition classifySignalQuality (confidence snr hrv : Q)
  : RealPPGProcessor.quality :=
  let score :=
    (confidence * (5 # 10) + js_min (snr / 20) 1 * (3 # 10)
     + js_max 0 (1 - hrv / 10) * (2 # 10))%Q in
  if Qle_bool (9 # 10) score then RealPPGProcessor.excellent
  else if Qle_bool (7 # 10) score then RealPPGProcessor.good
  else if Qle_bool (5 # 10) score then RealPPGProcessor.fair
  else RealPPGProcessor.poor.

(** [detectSaturation(signalData)]. *)
Definition detectSaturation (signalData : list Q) : Q :=
  match signalData with
  | [] => 0%Q
  | _ =>
      let max := RealPPGProcessor.maximum signalData in
      let min := RealPPGProcessor.minimum signalData in
      let maxCount :=
        length (filter (fun val => negb (Qle_bool val (max * (95 # 100))))
                       signalData) in
      let minCount :=
        length (filter (fun val => negb (Qle_bool (min * (105 # 100)) val))
                       signalData) in
      (num (maxCount + minCount) / num (length signalData))%Q
  end.

(** [assessContactQuality(signalData)]. *)
Definition assessContactQuality (signalData : list Q) : Q :=
  match signalData with
  | [] => 0%Q
  | _ =>
      let range := (RealPPGProcessor.maximum signalData
                    - RealPPGProcessor.minimum signalData)%Q in
      let optimalRange := 50%Q in
      js_min 1 (range / optimalRange)
  end.

Section Artifacts.

(** [Math.sqrt]. *)
Variable sqrtQ : Q -> Q.

(** [calculateAcceleration(signalData)]. *)
Definition calculateAcceleration (signalData : list Q) : Q :=
  if length signalData <? 10 then 0%Q
  else
    let recent := lastN 10 signalData in
    let variance :=
      (fold_left (fun sum val =>
                    let mean := (fold_left Qplus recent 0
                                 / num (length recent))%Q in
                    sum + (val - mean) ^ 2)
                 recent 0
       / num (length recent))%Q in
    (sqrtQ variance / 100)%Q.

(** [detectArtifacts(signalData)]. *)
Definition detectArtifacts (signalData : list Q) : list artifact :=
  let artifacts := [] in
  let acceleration := calculateAcceleration signalData in
  let artifacts :=
    if negb (Qle_bool acceleration 2) then artifacts ++ [motion]
    else artifacts in
  let saturationLevel := detectSaturation signalData in
  let artifacts :=
    if negb (Qle_bool saturationLevel (8 # 10)) then artifacts ++ [saturation]
    else artifacts in
  let contactQuality := assessContactQuality signalData in
  let artifacts :=
    if negb (Qle_bool (3 # 10) contactQuality)
    then artifacts ++ [poor_contact]
    else artifacts in
  artifacts.

End Artifacts.

End PPGSignalClassifier.

(** * Vocabulary of the statements *)

Section DetectorVocabulary.

Import FingerDetector.

(** The step function of [trailing]. *)
Definition count_step (n : nat) (c : classification) : nat :=
  if positive c then S n else 0.

(** In every state the detector can reach, the flag is set exactly when the
    counter has reached [requiredDetections]. *)
Definition coherent (s : state) : Prop :=
  fingerDetected s = (requiredDetections <=? consecutiveDetections s).

End DetectorVocabulary.

Section BufferVocabulary.

(** [addToBuffer] called once per sample, oldest first. *)
Definition appendAll (samples : list RealPPGProcessor.Sample)
  (s : RealPPGProcessor.state) : RealPPGProcessor.state :=
  fold_left (fun st ppgSignal => RealPPGProcessor.addToBuffer ppgSignal st)
            samples s.

(** The four arrays hold the same number of entries. *)
Definition aligned (c : Channels) : Prop :=
  length (greenBuffer c) = length (redBuffer c)
  /\ length (blueBuffer c) = length (redBuffer c)
  /\ length (timestamps c) = length (redBuffer c).

(** [pushSample] called once per sample, oldest first. *)
Definition pushAll (n : nat) (xs : list (RGB * Q)) (c : Channels) : Channels :=
  fold_left (fun acc x => pushSample n (fst x) (snd x) acc) xs c.

(** [AdvancedPPGProcessor.addToBuffer] called once per sample, oldest first. *)
Definition advancedAppendAll (xs : list (RGB * Q))
  (s : AdvancedPPGProcessor.state) : AdvancedPPGProcessor.state :=
  fold_left (fun st x => AdvancedPPGProcessor.addToBuffer (fst x) (snd x) st)
            xs s.

End BufferVocabulary.

Section Reachability.

Variable finalHR : list Q -> option Q.
Variable estimateHeartRate : list Q -> option Z.
Variable calculateConfidence : list Q -> option Z -> list Z -> Q.

(** The states an [AdvancedPPGProcessor] passes through: the constructor's,
    and the one any public method leaves. *)
Inductive advancedReachable : AdvancedPPGProcessor.state -> Prop :=
| advanced_new :
    advancedReachable AdvancedPPGProcessor.init
| advanced_processFrame (rgb : RGB) (t : Q) (s : AdvancedPPGProcessor.state) :
    advancedReachable s ->
    advancedReachable (fst (AdvancedPPGProcessor.processFrame finalHR rgb t s))
| advanced_addToBuffer (rgb : RGB) (t : Q) (s : AdvancedPPGProcessor.state) :
    advancedReachable s ->
    advancedReachable (AdvancedPPGProcessor.addToBuffer rgb t s)
| advanced_calculateHeartRate (s : AdvancedPPGProcessor.state) :
    advancedReachable s ->
    advancedReachable (fst (AdvancedPPGProcessor.calculateHeartRate finalHR s))
| advanced_reset (s : AdvancedPPGProcessor.state) :
    advancedReachable s ->
    advancedReachable (AdvancedPPGProcessor.reset s).

(** The same for an [EnhancedPPGProcessor]. *)
Inductive enhancedReachable : EnhancedPPGProcessor.state -> Prop :=
| enhanced_new :
    enhancedReachable EnhancedPPGProcessor.init
| enhanced_processFrame (rgb : RGB) (t : Q) (s : EnhancedPPGProcessor.state) :
    enhancedReachable s ->
    enhancedReachable
      (fst (EnhancedPPGProcessor.processFrame estimateHeartRate
              calculateConfidence rgb t s))
| enhanced_addToBuffer (rgb : RGB) (t : Q) (s : EnhancedPPGProcessor.state) :
    enhancedReachable s ->
    enhancedReachable (EnhancedPPGProcessor.addToBuffer rgb t s)
| enhanced_calculateMetrics (s : EnhancedPPGProcessor.state) :
    enhancedReachable s ->
    enhancedReachable
      (fst (EnhancedPPGProcessor.calculateMetrics estimateHeartRate
              calculateConfidence s))
| enhanced_reset (s : EnhancedPPGProcessor.state) :
    enhancedReachable s ->
    enhancedReachable (EnhancedPPGProcessor.reset s).

End Reachability.

Section EstimatorVocabulary.

Import RealPPGProcessor.

(** The heart rate lies in the band of the configured age. *)
Definition inBand (age : Q) (heartRate : Z) : Prop :=
  (fst (ageBand age) <= inject_Z heartRate)%Q
  /\ (inject_Z heartRate <= snd (ageBand age))%Q.

(** The estimate of the current window. *)
Definition windowEstimate (s : state) : option Z :=
  calculateHeartRate (childAge s)
    (applySignalProcessing (map value (signalBuffer s)))
    (map timestamp (signalBuffer s)).

(** A pulse of 75 beats per minute sampled at 30 Hz: a triangle wave of
    period 24 samples, 96 samples long. *)
Definition triangleWave (i : nat) : Q :=
  let k := i mod 24 in num (if k <=? 12 then k else 24 - k).

Definition pulseWindow : list Sample :=
  map (fun i => mkSample (Z.of_nat i # 30) (triangleWave i) 0 0 0) (seq 0 96).

(** A processor that has recorded three readings of 100 and now holds
    [pulseWindow]. *)
Definition afterThreeReadings : state :=
  with_heartRateHistory [100; 100; 100]%Z (with_signalBuffer pulseWindow init).

(** An environment without a fault, for a direct call of
    [calculateVitalSigns]. *)
Definition quietFrame : FrameEnv :=
  mkEnv 0 None None None (1 # 2) None.

End EstimatorVocabulary.

Section DoubleVocabulary.

Import PrimFloat Double RealPPGProcessorDouble.

(** The table of [applyAgeConstraints]: the band of each age class. *)
Definition bandOfAge (age minHR maxHR : float) : Prop :=
  (leb age 1 = true /\ minHR = 100%float /\ maxHR = 160%float)
  \/ (leb age 1 = false /\ leb age 3 = true
      /\ minHR = 80%float /\ maxHR = 140%float)
  \/ (leb age 3 = false /\ leb age 5 = true
      /\ minHR = 70%float /\ maxHR = 120%float)
  \/ (leb age 5 = false /\ leb age 7 = true
      /\ minHR = 65%float /\ maxHR = 110%float)
  \/ (leb age 7 = false /\ minHR = 60%float /\ maxHR = 100%float).

(** A peak [findPeaks] may record: a sample strictly above both neighbours
    and above the detection threshold 0.6 (in binary64,
    [0x1.3333333333333p-1]). *)
Definition detectable (signal : list float) (p : Peak) : Prop :=
  1 <= index p /\ index p + 1 < length signal
  /\ value p = item signal (index p)
  /\ ltb (item signal (index p - 1)) (value p) = true
  /\ ltb (item signal (index p + 1)) (value p) = true
  /\ ltb 0x1.3333333333333p-1%float (value p) = true.

(** What the loop of [findPeaks] keeps true of the peaks collected so far:
    each is detectable, and each but the first lies at least 0.3 s (in
    binary64, [0x1.3333333333333p-2]), as binary64 subtracts and compares,
    after the one before. *)
Definition collected (signal : list float) (peaks : list Peak) : Prop :=
  Forall (fun d => leb 0x1.3333333333333p-2%float d = true) (intervalsOf peaks)
  /\ Forall (detectable signal) peaks.

(** A window of [n] samples at 30 Hz, and a unit spike every [period]
    samples. *)
Definition grid (n : nat) : list float :=
  map (fun i => (num i / 30)%float) (seq 0 n).

Definition spikes (period phase n : nat) : list float :=
  map (fun i => if i mod period =? phase then 1%float else 0%float) (seq 0 n).

(** Four unit spikes whose timestamps are exactly
    [evenSpacing] = 0.6703910614525139 s apart. *)
Definition evenSpacing : float := 0x1.573d7f48f044ap-1%float.

Definition evenSignal : list float := [0; 1; 0; 1; 0; 1; 0; 1; 0]%float.

Definition evenTimestamps : list float :=
  [0; 1 - evenSpacing; 0.75; 1; 1.25; 1 + evenSpacing; 2;
   1 + 2 * evenSpacing; 2.5]%float.

End DoubleVocabulary.

Section OrchestratorVocabulary.

Import RealPPGProcessor.

(** The inter-frame throttle rejects the call. *)
Definition throttled (e : FrameEnv) (s : state) : Prop :=
  (now e - lastProcessTime s < processingInterval)%Z.

(** The call of [detectFinger] that [processFrame] makes. *)
Definition detectionOf (e : FrameEnv) (s : state)
  : FingerDetector.state * FingerDetector.detection :=
  FingerDetector.detectFinger
    (if raised e DetectFinger then Thrown else Returned (fingerContour e))
    (fingerDetector s).

(** The state once the throttle clock and the detector have been updated. *)
Definition admitted (e : FrameEnv) (s : state) : state :=
  with_fingerDetector (fst (detectionOf e s)) (with_lastProcessTime (now e) s).

(** The frame is accepted and contributes [ppgSignal]: it passes the
    throttle, image extraction yields data, the detector reports the finger,
    PPG extraction yields [ppgSignal], and the append goes through. *)
Definition accepted (e : FrameEnv) (s : state) (ppgSignal : Sample) : Prop :=
  ~ throttled e s
  /\ raised e AddToBuffer = false
  /\ FingerDetector.detected (snd (detectionOf e s)) = true
  /\ exists imageData : list Z,
       extractImageData e = Some imageData
       /\ extractPPGSignal e imageData
                           (FingerDetector.found (snd (detectionOf e s)))
          = Some ppgSignal.

(** The object returned with the estimates of [vs], read in state [s]. *)
Definition estimateResult (e : FrameEnv) (s : state) (vs : VitalSigns)
  : Result :=
  Estimate true (vsHeartRate vs) (vsBloodPressure vs) (vsConfidence vs)
           (vsQuality vs) (getDisplaySignal e s) (temperature s) (childAge s).

(** The progress object returned while [n] samples are buffered. *)
Definition collectingResult (n : nat) : Result :=
  Status true
         ("Collecting data... " ++ decimal n ++ "/" ++ decimal minValidSamples)
         (num n / num minValidSamples) collecting.

Definition notDetectedResult : Result :=
  Status false "Please place your finger properly on the camera" 0 poor.

Definition errorResult : Result :=
  Status false "Processing error occurred" 0 error.

(** An exception is raised in the body of stage [st] if the call gets there:
    the one the environment injects, or the one a null frame causes in
    [extractImageData]. *)
Definition thrownIn (e : FrameEnv) (st : stage) : Prop :=
  raised e st = true \/ (st = ExtractImageData /\ frame e = None).

(** [processFrame] returns null, whatever [Math.sqrt] and [Math.log10]
    compute. *)
Definition returnsNull (e : FrameEnv) (s : state) : Prop :=
  forall sqrtQ log10Q : Q -> Q,
    snd (processFrame sqrtQ log10Q e s) = None.

(** [processFrame] returns the object [res]. *)
Definition returnsResult (e : FrameEnv) (s : state) (res : Result) : Prop :=
  forall sqrtQ log10Q : Q -> Q,
    snd (processFrame sqrtQ log10Q e s) = Some res.

(** Concrete inputs: a sample; a frame of 2 by 2 pixels, 1000 ms after the
    last processed one, on which the classifier accepts a contour and the
    region yields that sample; a null frame; and a processor whose detector
    has seen five consecutive positive classifications and whose buffer holds
    [buffered] samples. *)
Definition sample0 : Sample :=
  mkSample 1 (1 # 2) (1 # 2) (1 # 2) (1 # 2).

Definition goodFrame (fault : option stage) : FrameEnv :=
  mkEnv 1000 (Some (2, 2)) (Some [(0, 0)%Z]) (Some sample0) (1 # 2) fault.

Definition nullFrame : FrameEnv :=
  mkEnv 1000 None None None (1 # 2) None.

Definition fingerOn (buffered : nat) : state :=
  with_signalBuffer (repeat sample0 buffered)
    (with_fingerDetector (FingerDetector.mkState true 5) init).

End OrchestratorVocabulary.

Section SessionVocabulary.

Import RealPPGProcessor.

Variables sqrtQ log10Q : Q -> Q.

(** The states a [RealPPGProcessor] passes through: the constructor's, and
    the one left by any of the methods a caller uses ([processFrame],
    [calculateVitalSigns], [addToBuffer], [setTemperature], [setChildAge],
    [reset]), under any environment; the setters with any argument that is
    not NaN. *)
Inductive realReachable : state -> Prop :=
| real_new :
    realReachable init
| real_processFrame (e : FrameEnv) (s : state) :
    realReachable s ->
    realReachable (fst (processFrame sqrtQ log10Q e s))
| real_calculateVitalSigns (e : FrameEnv) (s : state) :
    realReachable s ->
    realReachable (fst (calculateVitalSigns sqrtQ log10Q e s))
| real_addToBuffer (ppgSignal : Sample) (s : state) :
    realReachable s ->
    realReachable (addToBuffer ppgSignal s)
| real_setTemperature (temp : argument) (s s' : state) :
    realReachable s ->
    setTemperature temp s = Some s' ->
    realReachable s'
| real_setChildAge (age : argument) (s s' : state) :
    realReachable s ->
    setChildAge age s = Some s' ->
    realReachable s'
| real_reset (s : state) :
    realReachable s ->
    realReachable (reset s).

(** What holds of the fields throughout a session. *)
Record sessionInvariant (s : state) : Prop := mkSessionInvariant {
  buffer_bounded : length (signalBuffer s) <= maxBufferSize;
  heartRates_bounded : length (heartRateHistory s) <= maxHistorySize;
  pressures_bounded : length (bpHistory s) <= maxBPHistorySize;
  temperature_clamped : (35 <= temperature s)%Q /\ (temperature s <= 42)%Q;
  childAge_clamped : (0 <= childAge s)%Q /\ (childAge s <= 7)%Q;
  detector_coherent : coherent (fingerDetector s);
  heartRates_plausible :
    Forall (fun hr => (65 <= hr <= 160)%Z) (heartRateHistory s);
  pressures_plausible :
    Forall (fun bp => (71 <= systolic bp <= 120)%Z) (bpHistory s)
}.

End SessionVocabulary.

Section SignalVocabulary.

Import RealPPGProcessor.

(** [v] lies in the unit interval. *)
Definition inUnit (v : Q) : Prop := (0 <= v)%Q /\ (v <= 1)%Q.

(** Two arrays have the same length and equal numbers at every index. *)
Definition sameNumbers (l1 l2 : list Q) : Prop := Forall2 Qeq l1 l2.

(** [p] records a strict local maximum of [signal] above the height
    threshold: its index is an interior one, its value and time stamp are the
    ones the two arrays hold at that index, and the value exceeds both
    neighbours and 0.6. *)
Definition localMaximum (signal timestamps : list Q) (p : Peak) : Prop :=
  1 <= index p /\ index p + 1 < length signal
  /\ peakValue p = nth (index p) signal 0%Q
  /\ peakTime p = nth (index p) timestamps 0%Q
  /\ (nth (index p - 1) signal 0 < peakValue p)%Q
  /\ (nth (index p + 1) signal 0 < peakValue p)%Q
  /\ (6 # 10 < peakValue p)%Q.

(** The [signalData] field of a returned object; a status object has none. *)
Definition resultSignalData (res : Result) : list DisplayPoint :=
  match res with
  | Status _ _ _ _ => []
  | Estimate _ _ _ _ _ d _ _ => d
  end.

End SignalVocabulary.

Section PixelVocabulary.

Import FingerDetector.

(** The complete pixels of [imageData], in order. *)
Fixpoint pixels (imageData : list Z) : list (Z * Z * Z * Z) :=
  match imageData with
  | R :: G :: B :: A :: rest => (R, G, B, A) :: pixels rest
  | _ => []
  end.

(** Red is a largest channel of the pixel, the three channels are not all
    equal, and red is at least 50. *)
Definition redDominant (px : Z * Z * Z * Z) : Prop :=
  let '(R, G, B, _) := px in
  (G <= R)%Z /\ (B <= R)%Z /\ ((G < R)%Z \/ (B < R)%Z) /\ (50 <= R)%Z.

(** Every pixel of the frame is grey: its three channels are equal. *)
Definition greyImage (imageData : list Z) : Prop :=
  Forall (fun px => let '(R, G, B, _) := px in R = G /\ G = B)
         (pixels imageData).

(** [p] is a pixel of the mask that holds 255. *)
Definition skinAt (binaryImage : list Z) (p : point) : Prop :=
  inside (length binaryImage) p = true
  /\ exists i : nat,
       indexAt (length binaryImage) p = Some i
       /\ nth_error binaryImage i = Some 255%Z.

(** [p] is one of the four neighbours [floodFill] pushes for [q]. *)
Definition adjacent (q p : point) : Prop :=
  p = (fst q + 1, snd q)%Z \/ p = (fst q - 1, snd q)%Z
  \/ p = (fst q, snd q + 1)%Z \/ p = (fst q, snd q - 1)%Z.

(** A contour grown from its first point: every later point is a neighbour
    of an earlier one. *)
Inductive chained : contour -> Prop :=
| chained_nil : chained []
| chained_start (p : point) : chained [p]
| chained_next (c : contour) (q p : point) :
    chained c -> In q c -> adjacent q p -> chained (c ++ [p]).

(** The number of entries of the mask that hold 255. *)
Definition skinPixels (binaryImage : list Z) : nat :=
  length (filter (Z.eqb 255) binaryImage).

(** The indices below [n] that the set [seen] does not hold. *)
Definition unvisited (n : nat) (seen : list nat) : list nat :=
  filter (fun j => negb (existsb (Nat.eqb j) seen)) (seq 0 n).

(** What holds of the variables of the loop of [floodFill] that was started
    at [start] with the set [visited0]: the set has grown by the indices of
    the contour's points, in the order of the contour and without
    repetition; the contour holds skin pixels and is grown from [start]; and
    the stack holds neighbours of contour points. *)
Record fillInvariant (binaryImage : list Z) (start : point)
  (visited0 : list nat) (st : fill) : Prop := mkFillInvariant {
  fill_fresh :
    exists fresh : list nat,
      visited st = fresh ++ visited0
      /\ map (indexAt (length binaryImage)) (filled st) = map Some (rev fresh)
      /\ NoDup fresh
      /\ Forall (fun i => ~ In i visited0) fresh;
  fill_skin : Forall (skinAt binaryImage) (filled st);
  fill_chained : chained (filled st);
  fill_stack :
    (filled st = [] /\ (stack st = [start] \/ stack st = []))
    \/ (hd_error (filled st) = Some start
        /\ Forall (fun p => exists q, In q (filled st) /\ adjacent q p)
                  (stack st))
}.

(** What holds of the variables of the loops of [findContours]: the points
    of the contours kept so far have pairwise different indices, all in the
    [visited] set and all of skin pixels. *)
Record scanInvariant (binaryImage : list Z) (acc : list contour * list nat)
  : Prop := mkScanInvariant {
  scan_contours :
    Forall (fun c => 100 < length c
                     /\ Forall (skinAt binaryImage) c /\ chained c)
           (fst acc);
  scan_indices :
    exists idxs : list nat,
      map (indexAt (length binaryImage)) (concat (fst acc)) = map Some idxs
      /\ NoDup idxs
      /\ incl idxs (snd acc)
      /\ Forall (fun i => nth_error binaryImage i = Some 255%Z) idxs
}.

(** The contour [c] moved by [dx] columns and [dy] rows. *)
Definition translate (dx dy : Z) (c : contour) : contour :=
  map (fun p => (fst p + dx, snd p + dy)%Z) c.

(** The array of the successors [contour[(i + 1) % length]]. *)
Definition successors (c : contour) : contour := tl c ++ firstn 1 c.

(** The term the loop of [calculateContourArea] adds for a point [p] and
    its successor [q]. *)
Definition cross (pq : point * point) : Z :=
  (fst (fst pq) * snd (snd pq) - fst (snd pq) * snd (fst pq))%Z.

(** The contour the environment supplies is the one the pixel pipeline of
    [detectFinger] computes from the image [extractImageData] returns. *)
Definition contourFromPixels (sqrtQ : Q -> Q) (e : RealPPGProcessor.FrameEnv)
  : Prop :=
  forall imageData : list Z,
    RealPPGProcessor.extractImageData e = Some imageData ->
    RealPPGProcessor.fingerContour e = fingerContourOf sqrtQ imageData.

End PixelVocabulary.

Section SimulatedVocabulary.

(** The estimate [EnhancedPPGProcessor.calculateMetrics] obtains from a copy
    of [greenBuffer]. *)
Definition enhancedEstimate (signal : list Q) : option Z :=
  EnhancedPPGProcessor.estimateHeartRate
    (EnhancedPPGProcessor.applyFiltering signal).

(** A heart rate between the [minHeartRate] and the [maxHeartRate] of the
    simulated processors. *)
Definition plausible (hr : Z) : Prop := (60 <= hr <= 150)%Z.

(** The mean of the intervals between the peaks, in samples. *)
Definition meanInterval (peaks : list nat) : Q :=
  (fold_left (fun sum val => sum + num val) (differences peaks) 0
   / num (length (differences peaks)))%Q.

(** [i] is an interior index at which [signal] exceeds both neighbours and
    [threshold]. *)
Definition peakAt (signal : list Q) (threshold : Q) (i : nat) : Prop :=
  1 <= i /\ i + 1 < length signal
  /\ (nth (i - 1) signal 0 < nth i signal 0)%Q
  /\ (nth (i + 1) signal 0 < nth i signal 0)%Q
  /\ (threshold < nth i signal 0)%Q.

(** What holds of the fields of an [EnhancedPPGProcessor] throughout a
    session. *)
Record enhancedInvariant (s : EnhancedPPGProcessor.state) : Prop :=
  mkEnhancedInvariant {
  histories_aligned :
    length (EnhancedPPGProcessor.confidenceHistory s)
    = length (EnhancedPPGProcessor.heartRateHistory s);
  history_bounded : length (EnhancedPPGProcessor.heartRateHistory s) <= 20;
  history_plausible : Forall plausible (EnhancedPPGProcessor.heartRateHistory s)
}.

(** A rate [AdvancedPPGProcessor] can estimate: positive and at most 150. *)
Definition withinCeiling (hr : Q) : Prop := (0 < hr)%Q /\ (hr <= 150)%Q.

(** What holds of the history of an [AdvancedPPGProcessor] throughout a
    session. *)
Record advancedInvariant (s : AdvancedPPGProcessor.state) : Prop :=
  mkAdvancedInvariant {
  advanced_history_bounded :
    length (AdvancedPPGProcessor.heartRateHistory s) <= 10;
  advanced_history_ceiling :
    Forall withinCeiling (AdvancedPPGProcessor.heartRateHistory s)
}.

(** What holds of the arrays of an [AdvancedPPGProcessor] throughout a
    session: the four buffers are aligned, and a history that is not empty
    comes with a green buffer that is not empty. *)
Record advancedBuffers (s : AdvancedPPGProcessor.state) : Prop :=
  mkAdvancedBuffers {
  advanced_aligned : aligned (AdvancedPPGProcessor.channels s);
  advanced_signal_present :
    AdvancedPPGProcessor.heartRateHistory s <> [] ->
    greenBuffer (AdvancedPPGProcessor.channels s) <> []
}.

(** [Math.sqrt] returns no negative number. *)
Definition nonNegative (sqrtQ : Q -> Q) : Prop :=
  forall v : Q, (0 <= sqrtQ v)%Q.

End SimulatedVocabulary.

(** * Verified properties *)

(** ** Finger-presence hysteresis *)

Section FingerDetectorFacts.

Import FingerDetector.

Lemma init_coherent : coherent init.
Proof. reflexivity. Qed.

Lemma detectFinger_counter (c : classification) (s : state) :
  consecutiveDetections (fst (detectFinger (Returned c) s))
  = count_step (consecutiveDetections s) c.
Proof. destruct c; reflexivity. Qed.

Lemma detectFinger_coherent (c : classification) (s : state) :
  coherent s -> coherent (fst (detectFinger (Returned c) s)).
Proof.
  unfold coherent. intros Hs.
  destruct c as [pts|]; cbn [detectFinger fst fingerDetected consecutiveDetections];
    unfold requiredDetections in *.
  - destruct (5 <=? S (consecutiveDetections s)) eqn:E; [reflexivity|].
    rewrite Hs. apply Nat.leb_gt in E. apply Nat.leb_gt. lia.
  - reflexivity.
Qed.

Lemma detectFinger_detected (c : classification) (s : state) :
  detected (snd (detectFinger (Returned c) s))
  = fingerDetected (fst (detectFinger (Returned c) s)).
Proof. destruct c; reflexivity. Qed.

Lemma feed_snoc (s : state) (cs : list classification) (c : classification) :
  feed s (cs ++ [c]) = fst (detectFinger (Returned c) (feed s cs)).
Proof. unfold feed. rewrite fold_left_app. reflexivity. Qed.

Lemma feed_counter (cs : list classification) (s : state) :
  consecutiveDetections (feed s cs)
  = fold_left count_step cs (consecutiveDetections s).
Proof.
  unfold feed. revert s. induction cs as [|c cs IH]; intros s; [reflexivity|].
  cbn [fold_left]. rewrite IH, detectFinger_counter. reflexivity.
Qed.

Lemma feed_coherent (cs : list classification) (s : state) :
  coherent s -> coherent (feed s cs).
Proof.
  unfold feed. revert s. induction cs as [|c cs IH]; intros s Hs; [exact Hs|].
  cbn [fold_left]. apply IH, detectFinger_coherent, Hs.
Qed.

Lemma feed_init (cs : list classification) :
  consecutiveDetections (feed init cs) = trailing cs
  /\ fingerDetected (feed init cs) = (requiredDetections <=? trailing cs).
Proof.
  assert (Hc : consecutiveDetections (feed init cs) = trailing cs)
    by apply (feed_counter cs init).
  split; [exact Hc|].
  rewrite <- Hc. apply (feed_coherent cs init init_coherent).
Qed.

Lemma ratio_fifths (n : nat) :
  (num n / num requiredDetections == Z.of_nat n # 5)%Q.
Proof.
  unfold num, requiredDetections, Qeq, Qdiv, Qmult, Qinv, inject_Z.
  cbn. lia.
Qed.

Lemma trailing_snoc (cs : list classification) (c : classification) :
  trailing (cs ++ [c]) = if positive c then S (trailing cs) else 0.
Proof. unfold trailing. rewrite fold_left_app. reflexivity. Qed.

(** C3.  Driven from the constructor's state over any sequence of per-frame
    classifications, the detector's counter is the number of positive
    classifications since the most recent negative one, and the [fingerDetected]
    flag (stored and returned) is true exactly when that number has reached
    [requiredDetections] = 5.  One negative classification, in any state, puts
    the counter at 0 and the flag at false, as does [reset].  On the sequence
    of four positives, one negative and five positives the returned flag is
    false nine times and true on the tenth frame. *)
Theorem detectFinger_hysteresis :
  (forall (cs : list classification) (c : classification),
      let r := detectFinger (Returned c) (feed init cs) in
      consecutiveDetections (fst r) = trailing (cs ++ [c])
      /\ fingerDetected (fst r) = (requiredDetections <=? trailing (cs ++ [c]))
      /\ detected (snd r) = (requiredDetections <=? trailing (cs ++ [c])))
  /\ (forall s : state,
        let r := detectFinger (Returned None) s in
        consecutiveDetections (fst r) = 0
        /\ fingerDetected (fst r) = false
        /\ detected (snd r) = false)
  /\ (forall s : state,
        consecutiveDetections (reset s) = 0 /\ fingerDetected (reset s) = false)
  /\ (forall k : contour,
        flags init (repeat (Some k) 4 ++ [None] ++ repeat (Some k) 5)
        = repeat false 9 ++ [true]).
Proof.
  split; [|split; [|split]].
  - intros cs c r. subst r.
    rewrite detectFinger_detected, <- feed_snoc.
    destruct (feed_init (cs ++ [c])) as [Hn Hf].
    rewrite Hn, Hf. auto.
  - intros s. cbn. auto.
  - intros s. cbn. auto.
  - intros k. reflexivity.
Qed.

(** C9 (as the code has it).  When the classifier returns, the confidence
    [detectFinger] reports is the plain ratio of the updated counter to
    [requiredDetections], with no clamp: it is never negative, and it is at
    most 1 exactly while the counter has not passed [requiredDetections].  The
    handler's fallback reports 0. *)
Theorem detectFinger_confidence_ratio :
  forall (c : classification) (s : state),
    let r := detectFinger (Returned c) s in
    (confidence (snd r) == Z.of_nat (consecutiveDetections (fst r)) # 5)%Q
    /\ (0 <= confidence (snd r))%Q
    /\ ((confidence (snd r) <= 1)%Q
        <-> consecutiveDetections (fst r) <= requiredDetections)
    /\ confidence (snd (detectFinger Thrown s)) = 0%Q.
Proof.
  intros c s r.
  assert (Hr : (confidence (snd r)
                == Z.of_nat (consecutiveDetections (fst r)) # 5)%Q).
  { subst r. destruct c; cbn [detectFinger fst snd confidence consecutiveDetections];
      apply ratio_fifths. }
  split; [exact Hr|]. rewrite Hr. unfold requiredDetections.
  split; [|split].
  - unfold Qle. cbn. lia.
  - unfold Qle. cbn. lia.
  - reflexivity.
Qed.

(** C9 fails as stated: after six consecutive positive classifications the
    returned confidence is 6/5. *)
Lemma detectFinger_confidence_above_one :
  let s := feed init (repeat (Some [(0, 0)%Z]) 5) in
  let d := snd (detectFinger (Returned (Some [(0, 0)%Z])) s) in
  detected d = true /\ (confidence d == 6 # 5)%Q /\ ~ (confidence d <= 1)%Q.
Proof.
  cbv zeta. split; [reflexivity|]. split; [reflexivity|].
  intros H. vm_compute in H. apply H. reflexivity.
Qed.

End FingerDetectorFacts.

(** ** The signal buffers are FIFO windows *)

Section BufferFacts.

Context {A : Type}.

Lemma skipn_S_tl (k : nat) (l : list A) : skipn (S k) l = skipn k (tl l).
Proof. destruct l; [destruct k|]; reflexivity. Qed.

Lemma tl_skipn (k : nat) (l : list A) : tl (skipn k l) = skipn (S k) l.
Proof.
  revert l. induction k as [|k IH]; intros l.
  - destruct l; reflexivity.
  - destruct l as [|a l]; [reflexivity|]. cbn [skipn]. rewrite IH.
    destruct l; reflexivity.
Qed.

Lemma lastN_length (n : nat) (l : list A) :
  length (lastN n l) = Nat.min (length l) n.
Proof. unfold lastN. rewrite length_skipn. lia. Qed.

Lemma lastN_short (n : nat) (l : list A) : length l <= n -> lastN n l = l.
Proof.
  intros H. unfold lastN. replace (length l - n) with 0 by lia. reflexivity.
Qed.

Lemma lastN_lastN_app (n : nat) (l m : list A) :
  lastN n (lastN n l ++ m) = lastN n (l ++ m).
Proof.
  destruct (Nat.le_gt_cases (length l) n) as [H|H].
  - rewrite (lastN_short n l H). reflexivity.
  - unfold lastN. rewrite !length_app, length_skipn, !skipn_app, skipn_skipn.
    rewrite length_skipn.
    f_equal; f_equal; lia.
Qed.

(** One [push] followed by at most one [shift] keeps the last [n] elements. *)
Lemma push_shift_once (n : nat) (l : list A) (a : A) :
  length l <= n ->
  (if n <? length (l ++ [a]) then tl (l ++ [a]) else l ++ [a])
  = lastN n (l ++ [a]).
Proof.
  intros H. rewrite length_app. cbn [length].
  destruct (Nat.ltb_spec n (length l + 1)) as [Hlt|Hge].
  - unfold lastN. rewrite length_app. cbn [length].
    replace (length l + 1 - n) with 1 by lia. reflexivity.
  - apply eq_sym, lastN_short. rewrite length_app. cbn [length]. lia.
Qed.

End BufferFacts.

Section RealBufferFacts.

Import RealPPGProcessor.

Lemma appendAll_snoc (samples : list Sample) (x : Sample) (s : state) :
  appendAll (samples ++ [x]) s = addToBuffer x (appendAll samples s).
Proof. unfold appendAll. rewrite fold_left_app. reflexivity. Qed.

(** From a buffer within capacity, the buffer after any run of appends is the
    last [maxBufferSize] elements of everything that was ever in it. *)
Lemma appendAll_window (samples : list Sample) (s : state) :
  length (signalBuffer s) <= maxBufferSize ->
  signalBuffer (appendAll samples s)
  = lastN maxBufferSize (signalBuffer s ++ samples).
Proof.
  intros Hs. induction samples as [|x samples IH] using rev_ind.
  - rewrite app_nil_r. symmetry. apply (lastN_short _ _ Hs).
  - rewrite appendAll_snoc. cbn [addToBuffer with_signalBuffer signalBuffer].
    rewrite IH, push_shift_once.
    + rewrite lastN_lastN_app, app_assoc. reflexivity.
    + rewrite lastN_length. lia.
Qed.

End RealBufferFacts.

Section ChannelFacts.

(** The loop drops from each array as many entries as [redBuffer] exceeds
    the capacity by. *)
Lemma shiftWhileOver_skipn (n : nat) (rs gs bs ts : list Q) :
  shiftWhileOver n rs gs bs ts
  = mkChannels (skipn (length rs - n) rs) (skipn (length rs - n) gs)
               (skipn (length rs - n) bs) (skipn (length rs - n) ts).
Proof.
  revert gs bs ts. induction rs as [|r rs IH]; intros gs bs ts; [reflexivity|].
  cbn [shiftWhileOver]. destruct (Nat.ltb_spec n (length (r :: rs))) as [H|H].
  - rewrite IH. cbn [length] in *.
    replace (S (length rs) - n) with (S (length rs - n)) by lia.
    rewrite !skipn_S_tl. reflexivity.
  - replace (length (r :: rs) - n) with 0 by lia. reflexivity.
Qed.

Lemma pushSample_window (n : nat) (x : RGB) (t : Q) (c : Channels) :
  aligned c ->
  pushSample n x t c
  = mkChannels (lastN n (redBuffer c ++ [red x]))
               (lastN n (greenBuffer c ++ [green x]))
               (lastN n (blueBuffer c ++ [blue x]))
               (lastN n (timestamps c ++ [t])).
Proof.
  intros (Hg & Hb & Ht). unfold pushSample, lastN.
  rewrite shiftWhileOver_skipn, !length_app, Hg, Hb, Ht. reflexivity.
Qed.

Lemma pushSample_aligned (n : nat) (x : RGB) (t : Q) (c : Channels) :
  aligned c -> aligned (pushSample n x t c).
Proof.
  intros H. rewrite (pushSample_window n x t c H).
  destruct H as (Hg & Hb & Ht). unfold aligned. cbn.
  rewrite !lastN_length, !length_app, Hg, Hb, Ht. auto.
Qed.

Lemma empty_aligned : aligned (mkChannels [] [] [] []).
Proof. repeat split. Qed.

Lemma pushAll_window (n : nat) (xs : list (RGB * Q)) (c : Channels) :
  aligned c ->
  length (redBuffer c) <= n ->
  aligned (pushAll n xs c)
  /\ pushAll n xs c
     = mkChannels (lastN n (redBuffer c ++ map (fun x => red (fst x)) xs))
                  (lastN n (greenBuffer c ++ map (fun x => green (fst x)) xs))
                  (lastN n (blueBuffer c ++ map (fun x => blue (fst x)) xs))
                  (lastN n (timestamps c ++ map snd xs)).
Proof.
  intros Hc Hn. induction xs as [|x xs [IHa IHw]] using rev_ind.
  - split; [exact Hc|]. cbn. rewrite !app_nil_r.
    destruct Hc as (Hg & Hb & Ht).
    rewrite !lastN_short by lia. destruct c; reflexivity.
  - unfold pushAll in *. rewrite fold_left_app. cbn [fold_left].
    split; [apply pushSample_aligned, IHa|].
    rewrite (pushSample_window n (fst x) (snd x) _ IHa), IHw.
    cbn [redBuffer greenBuffer blueBuffer timestamps].
    rewrite !lastN_lastN_app, !map_app, !app_assoc. reflexivity.
Qed.

End ChannelFacts.

Section WindowTheorems.

Lemma advancedAppendAll_channels (xs : list (RGB * Q))
  (s : AdvancedPPGProcessor.state) :
  AdvancedPPGProcessor.channels (advancedAppendAll xs s)
  = pushAll AdvancedPPGProcessor.bufferSize xs (AdvancedPPGProcessor.channels s).
Proof.
  unfold advancedAppendAll, pushAll. revert s.
  induction xs as [|x xs IH]; intros s; [reflexivity|].
  cbn [fold_left]. rewrite IH. reflexivity.
Qed.

(** C1.  After any sequence of N appended samples, starting from the
    constructor's empty buffer, the signal buffer of [RealPPGProcessor] holds
    min(N, 300) samples and they are the sequence without its first N - 300
    samples, in arrival order; the same holds of each of the four arrays of
    [AdvancedPPGProcessor]. *)
Theorem buffers_hold_last_capacity_samples :
  (forall samples : list RealPPGProcessor.Sample,
      let buf := RealPPGProcessor.signalBuffer
                   (appendAll samples RealPPGProcessor.init) in
      length buf = Nat.min (length samples) 300
      /\ buf = skipn (length samples - 300) samples)
  /\ (forall xs : list (RGB * Q),
      let c := AdvancedPPGProcessor.channels
                 (advancedAppendAll xs AdvancedPPGProcessor.init) in
      length (redBuffer c) = Nat.min (length xs) 300
      /\ redBuffer c = skipn (length xs - 300) (map (fun x => red (fst x)) xs)
      /\ greenBuffer c = skipn (length xs - 300) (map (fun x => green (fst x)) xs)
      /\ blueBuffer c = skipn (length xs - 300) (map (fun x => blue (fst x)) xs)
      /\ timestamps c = skipn (length xs - 300) (map snd xs)).
Proof.
  split.
  - intros samples buf. subst buf.
    rewrite appendAll_window by (cbn; lia).
    cbn [RealPPGProcessor.init RealPPGProcessor.signalBuffer app].
    split; [apply lastN_length | reflexivity].
  - intros xs c. subst c. rewrite advancedAppendAll_channels.
    destruct (pushAll_window AdvancedPPGProcessor.bufferSize xs _ empty_aligned)
      as [_ Hw]; [cbn; lia|].
    cbn [AdvancedPPGProcessor.init AdvancedPPGProcessor.channels].
    rewrite Hw. cbn [redBuffer greenBuffer blueBuffer timestamps app].
    unfold lastN, AdvancedPPGProcessor.bufferSize.
    rewrite length_skipn, !length_map.
    repeat split; try reflexivity. lia.
Qed.

End WindowTheorems.

(** ** The parallel arrays never go out of step *)

Section AlignmentFacts.

Variable finalHR : list Q -> option Q.
Variable estimateHeartRate : list Q -> option Z.
Variable calculateConfidence : list Q -> option Z -> list Z -> Q.

Lemma advanced_calculateHeartRate_channels (s : AdvancedPPGProcessor.state) :
  AdvancedPPGProcessor.channels
    (fst (AdvancedPPGProcessor.calculateHeartRate finalHR s))
  = AdvancedPPGProcessor.channels s.
Proof.
  unfold AdvancedPPGProcessor.calculateHeartRate.
  destruct (finalHR _) as [hr|]; [|reflexivity].
  destruct (Qeq_bool hr 0); reflexivity.
Qed.

Lemma advanced_processFrame_channels (rgb : RGB) (t : Q)
  (s : AdvancedPPGProcessor.state) :
  AdvancedPPGProcessor.channels
    (fst (AdvancedPPGProcessor.processFrame finalHR rgb t s))
  = pushSample AdvancedPPGProcessor.bufferSize rgb t
               (AdvancedPPGProcessor.channels s).
Proof.
  unfold AdvancedPPGProcessor.processFrame.
  destruct (60 <=? _); [|reflexivity].
  pose proof (advanced_calculateHeartRate_channels
                (AdvancedPPGProcessor.addToBuffer rgb t s)) as H.
  destruct (AdvancedPPGProcessor.calculateHeartRate finalHR _) as [s' hr].
  exact H.
Qed.

Lemma enhanced_calculateMetrics_channels (s : EnhancedPPGProcessor.state) :
  EnhancedPPGProcessor.channels
    (fst (EnhancedPPGProcessor.calculateMetrics estimateHeartRate
            calculateConfidence s))
  = EnhancedPPGProcessor.channels s.
Proof.
  unfold EnhancedPPGProcessor.calculateMetrics. cbn [fst].
  destruct (estimateHeartRate _) as [v|]; [|reflexivity].
  destruct (v =? 0)%Z; [reflexivity|].
  destruct (20 <? _); reflexivity.
Qed.

Lemma enhanced_processFrame_channels (rgb : RGB) (t : Q)
  (s : EnhancedPPGProcessor.state) :
  EnhancedPPGProcessor.channels
    (fst (EnhancedPPGProcessor.processFrame estimateHeartRate
            calculateConfidence rgb t s))
  = if EnhancedPPGProcessor.isProcessing s
    then EnhancedPPGProcessor.channels s
    else pushSample EnhancedPPGProcessor.bufferSize rgb t
                    (EnhancedPPGProcessor.channels s).
Proof.
  unfold EnhancedPPGProcessor.processFrame.
  destruct (EnhancedPPGProcessor.isProcessing s); [reflexivity|].
  destruct (60 <=? _); [|reflexivity].
  pose proof (enhanced_calculateMetrics_channels
                (EnhancedPPGProcessor.addToBuffer rgb t s)) as H.
  destruct (EnhancedPPGProcessor.calculateMetrics _ _ _) as [s' res].
  exact H.
Qed.

(** C10.  In every state an [AdvancedPPGProcessor] or an
    [EnhancedPPGProcessor] can be in after the constructor and any sequence of
    [processFrame], [addToBuffer], [calculateHeartRate] / [calculateMetrics]
    and [reset] calls, [redBuffer], [greenBuffer], [blueBuffer] and
    [timestamps] have the same length. *)
Theorem parallel_buffers_stay_aligned :
  forall (a : AdvancedPPGProcessor.state) (b : EnhancedPPGProcessor.state),
    advancedReachable finalHR a ->
    enhancedReachable estimateHeartRate calculateConfidence b ->
    aligned (AdvancedPPGProcessor.channels a)
    /\ aligned (EnhancedPPGProcessor.channels b).
Proof.
  intros a b Ha Hb. split.
  - induction Ha as [|rgb t s _ IH|rgb t s _ IH|s _ IH|s _ IH].
    + apply empty_aligned.
    + rewrite advanced_processFrame_channels. apply pushSample_aligned, IH.
    + apply pushSample_aligned, IH.
    + rewrite advanced_calculateHeartRate_channels. exact IH.
    + apply empty_aligned.
  - induction Hb as [|rgb t s _ IH|rgb t s _ IH|s _ IH|s _ IH].
    + apply empty_aligned.
    + rewrite enhanced_processFrame_channels.
      destruct (EnhancedPPGProcessor.isProcessing s);
        [exact IH | apply pushSample_aligned, IH].
    + apply pushSample_aligned, IH.
    + rewrite enhanced_calculateMetrics_channels. exact IH.
    + apply empty_aligned.
Qed.

End AlignmentFacts.

(** Both processors after two frames, a direct append and, for the second, a
    reset followed by one more frame. *)
Lemma parallel_buffers_stay_aligned_witness :
  let rgb := mkRGB 130 131 129 in
  let a := fst (AdvancedPPGProcessor.processFrame (fun _ => Some 72%Q) rgb 2
                  (AdvancedPPGProcessor.addToBuffer rgb 1
                     (fst (AdvancedPPGProcessor.processFrame
                             (fun _ => Some 72%Q) rgb 0
                             AdvancedPPGProcessor.init)))) in
  let b := fst (EnhancedPPGProcessor.processFrame
                  (fun _ => Some 72%Z) (fun _ _ _ => 1%Q) rgb 1
                  (EnhancedPPGProcessor.reset
                     (EnhancedPPGProcessor.addToBuffer rgb 0
                        EnhancedPPGProcessor.init))) in
  length (redBuffer (AdvancedPPGProcessor.channels a)) = 3
  /\ length (redBuffer (EnhancedPPGProcessor.channels b)) = 1
  /\ aligned (AdvancedPPGProcessor.channels a)
  /\ aligned (EnhancedPPGProcessor.channels b).
Proof.
  cbv zeta. split; [reflexivity|]. split; [reflexivity|].
  apply (parallel_buffers_stay_aligned
           (fun _ => Some 72%Q) (fun _ => Some 72%Z) (fun _ _ _ => 1%Q)).
  - apply advanced_processFrame, advanced_addToBuffer, advanced_processFrame,
      advanced_new.
  - apply enhanced_processFrame, enhanced_reset, enhanced_addToBuffer,
      enhanced_new.
Defined.

(** ** Rational arithmetic of the estimators *)

Section NumericFacts.

Lemma ltb_lt (a c : Q) : RealPPGProcessor.ltb a c = true <-> (a < c)%Q.
Proof.
  unfold RealPPGProcessor.ltb. rewrite negb_true_iff.
  split; intros H.
  - apply Qnot_le_lt. intros Hle. apply Qle_bool_iff in Hle. congruence.
  - destruct (Qle_bool c a) eqn:E; [|reflexivity].
    apply Qle_bool_iff in E. exfalso. exact (Qlt_not_le _ _ H E).
Qed.

Lemma ltb_ge (a c : Q) : RealPPGProcessor.ltb a c = false <-> (c <= a)%Q.
Proof.
  unfold RealPPGProcessor.ltb. rewrite negb_false_iff. apply Qle_bool_iff.
Qed.

Lemma Qle_bool_false (a c : Q) : Qle_bool a c = false <-> (c < a)%Q.
Proof.
  split; intros H.
  - apply Qnot_le_lt. intros Hle. apply Qle_bool_iff in Hle. congruence.
  - destruct (Qle_bool a c) eqn:E; [|reflexivity].
    apply Qle_bool_iff in E. exfalso. exact (Qlt_not_le _ _ H E).
Qed.

Lemma js_max_spec (a c : Q) :
  ((a <= c)%Q /\ js_max a c = c) \/ ((c < a)%Q /\ js_max a c = a).
Proof.
  unfold js_max. destruct (Qle_bool a c) eqn:E.
  - left. split; [apply Qle_bool_iff, E | reflexivity].
  - right. split; [apply Qle_bool_false, E | reflexivity].
Qed.

Lemma js_min_spec (a c : Q) :
  ((a <= c)%Q /\ js_min a c = a) \/ ((c < a)%Q /\ js_min a c = c).
Proof.
  unfold js_min. destruct (Qle_bool a c) eqn:E.
  - left. split; [apply Qle_bool_iff, E | reflexivity].
  - right. split; [apply Qle_bool_false, E | reflexivity].
Qed.

#[global] Instance js_max_compat : Proper (Qeq ==> Qeq ==> Qeq) js_max.
Proof.
  intros a a' Ha c c' Hc.
  destruct (js_max_spec a c) as [[H ->]|[H ->]],
           (js_max_spec a' c') as [[H' ->]|[H' ->]]; lra.
Qed.

#[global] Instance js_min_compat : Proper (Qeq ==> Qeq ==> Qeq) js_min.
Proof.
  intros a a' Ha c c' Hc.
  destruct (js_min_spec a c) as [[H ->]|[H ->]],
           (js_min_spec a' c') as [[H' ->]|[H' ->]]; lra.
Qed.

#[global] Instance js_round_compat : Proper (Qeq ==> eq) js_round.
Proof. intros a a' Ha. unfold js_round. rewrite Ha. reflexivity. Qed.

Lemma num_S (n : nat) : (num (S n) == num n + 1)%Q.
Proof.
  unfold num. rewrite Nat2Z.inj_succ, <- Z.add_1_r, inject_Z_plus. reflexivity.
Qed.

Lemma num_pos (n : nat) : 0 < n -> (0 < num n)%Q.
Proof.
  intros H. unfold num. replace 0%Q with (inject_Z 0) by reflexivity.
  rewrite <- Zlt_Qlt. lia.
Qed.

(** [Math.round] of a number between two integers lies between them. *)
Lemma js_round_between (lo hi : Z) (v : Q) :
  (inject_Z lo <= v)%Q -> (v <= inject_Z hi)%Q ->
  (lo <= js_round v <= hi)%Z.
Proof.
  intros Hlo Hhi. unfold js_round. split.
  - assert (H : (inject_Z lo <= v + (1 # 2))%Q) by lra.
    apply Qfloor_resp_le in H. rewrite Qfloor_Z in H. exact H.
  - assert (H1 : (v + (1 # 2) < inject_Z (hi + 1))%Q)
      by (rewrite inject_Z_plus; change (inject_Z 1) with 1%Q; lra).
    assert (H2 : (inject_Z (Qfloor (v + (1 # 2))) < inject_Z (hi + 1))%Q)
      by (eapply Qle_lt_trans; [apply Qfloor_le|exact H1]).
    rewrite <- Zlt_Qlt in H2. lia.
Qed.

End NumericFacts.

(** ** The spacing of the detected peaks, over the rationals *)

Section HeartRateFacts.

Import RealPPGProcessor.

Lemma lastPeak_snoc (peaks : list Peak) (q : Peak) :
  lastPeak (peaks ++ [q]) = Some q.
Proof. unfold lastPeak. rewrite rev_unit. reflexivity. Qed.

Lemma lastPeak_cons (p p' : Peak) (rest : list Peak) :
  lastPeak (p :: p' :: rest) = lastPeak (p' :: rest).
Proof.
  destruct (exists_last (l := p' :: rest)) as (front & q & E); [discriminate|].
  rewrite E, app_comm_cons, !lastPeak_snoc. reflexivity.
Qed.

Lemma lastPeak_none (peaks : list Peak) : lastPeak peaks = None -> peaks = [].
Proof.
  unfold lastPeak. intros H. destruct (rev peaks) as [|p l] eqn:E; [|discriminate].
  rewrite <- (rev_involutive peaks), E. reflexivity.
Qed.

Lemma intervalsOf_snoc (peaks : list Peak) (q : Peak) :
  intervalsOf (peaks ++ [q])
  = match lastPeak peaks with
    | None => []
    | Some p => intervalsOf peaks ++ [(peakTime q - peakTime p)%Q]
    end.
Proof.
  induction peaks as [|p [|p' rest] IH]; [reflexivity..|].
  rewrite lastPeak_cons.
  change (intervalsOf ((p :: p' :: rest) ++ [q]))
    with ((peakTime p' - peakTime p)%Q :: intervalsOf ((p' :: rest) ++ [q])).
  rewrite IH. destruct (lastPeak (p' :: rest)) eqn:E; [reflexivity|].
  apply lastPeak_none in E. discriminate.
Qed.

(** Every peak [findPeaks] keeps after the first lies at least
    [minPeakDistance] = 0.3 s after the peak kept before it. *)
Lemma findPeaks_step_spacing (signal timestamps : list Q) (peaks : list Peak)
  (i : nat) :
  Forall (fun d => (3 # 10) <= d)%Q (intervalsOf peaks) ->
  Forall (fun d => (3 # 10) <= d)%Q
         (intervalsOf (findPeaks_step signal timestamps peaks i)).
Proof.
  intros H. unfold findPeaks_step.
  destruct (_ && _); [|exact H].
  destruct (lastPeak peaks) as [p|] eqn:E.
  - destruct (Qle_bool _ _) eqn:D; [|exact H].
    rewrite intervalsOf_snoc, E. apply Forall_app. split; [exact H|].
    constructor; [|constructor]. apply Qle_bool_iff in D. exact D.
  - rewrite intervalsOf_snoc, E. constructor.
Qed.

Lemma findPeaks_spacing (signal timestamps : list Q) :
  Forall (fun d => (3 # 10) <= d)%Q (intervalsOf (findPeaks signal timestamps)).
Proof.
  unfold findPeaks.
  assert (G : forall idx acc,
             Forall (fun d => (3 # 10) <= d)%Q (intervalsOf acc) ->
             Forall (fun d => (3 # 10) <= d)%Q
                    (intervalsOf (fold_left (findPeaks_step signal timestamps)
                                            idx acc))).
  { induction idx as [|i idx IH]; intros acc Hacc; [exact Hacc|].
    cbn [fold_left]. apply IH, findPeaks_step_spacing, Hacc. }
  apply G. constructor.
Qed.

End HeartRateFacts.

(** ** The order of binary64

    [<], [<=] and [==] on binary64 numbers are specified by the comparison of
    their sign, exponent and mantissa ([SFcompare]); a comparison with NaN is
    false. *)

Section DoubleOrderFacts.

Import PrimFloat SpecFloat FloatOps FloatAxioms Double.

Lemma SFcompare_antisym (a b : spec_float) (c : comparison) :
  SFcompare a b = Some c -> SFcompare b a = Some (CompOpp c).
Proof.
  destruct a as [sa|sa| |sa ma ea], b as [sb|sb| |sb mb eb]; cbn;
    try discriminate; intros H; injection H as <-;
    try (destruct sa; reflexivity); try (destruct sb; reflexivity);
    try (destruct sa, sb; reflexivity).
  destruct sa, sb; try reflexivity;
    change PosDef.Pos.compare_cont with Pos.compare_cont;
    rewrite (Z.compare_antisym ea eb); destruct (ea ?= eb)%Z; cbn;
    try reflexivity;
    rewrite (Pos.compare_cont_antisym ma mb Eq); cbn;
    try rewrite CompOpp_involutive; reflexivity.
Qed.

Lemma SFcompare_Lt_trans (a b c : spec_float) :
  SFcompare a b = Some Lt -> SFcompare b c = Some Lt ->
  SFcompare a c = Some Lt.
Proof.
  destruct a as [sa|sa| |sa ma ea], b as [sb|sb| |sb mb eb],
           c as [sc|sc| |sc mc ec]; cbn;
    try discriminate;
    try (destruct sa; try discriminate); try (destruct sb; try discriminate);
    try (destruct sc; try discriminate); try reflexivity;
    change (PosDef.Pos.compare_cont Eq) with Pos.compare;
    repeat match goal with
           | |- context [(?x ?= ?y)%Z] => destruct (Z.compare_spec x y)
           | |- context [(?x ?= ?y)%positive] => destruct (Pos.compare_spec x y)
           end; cbn; try discriminate; try reflexivity; intros; exfalso; lia.
Qed.

Lemma SFcompare_refl (a : spec_float) :
  a <> S754_nan -> SFcompare a a = Some Eq.
Proof.
  destruct a as [s|s| |s m e]; cbn; intros H; try congruence;
    destruct s; try reflexivity;
    change PosDef.Pos.compare_cont with Pos.compare_cont;
    rewrite Z.compare_refl, Pos.compare_cont_refl; reflexivity.
Qed.

Lemma SFcompare_defined (a b : spec_float) (c : comparison) :
  SFcompare a b = Some c -> a <> S754_nan /\ b <> S754_nan.
Proof.
  destruct a, b; cbn; try discriminate; intros _; split; discriminate.
Qed.

(** Equal to a positive number is identical to it. *)
Lemma SFcompare_Eq_positive (a b : spec_float) :
  SFcompare (S754_zero false) b = Some Lt ->
  SFcompare a b = Some Eq -> a = b.
Proof.
  destruct a as [sa|sa| |sa ma ea], b as [sb|sb| |sb mb eb]; cbn;
    try discriminate;
    try (destruct sa; discriminate); try (destruct sb; discriminate);
    try (destruct sa, sb; try discriminate; reflexivity).
  destruct sb; [discriminate|]. intros _.
  destruct sa; [discriminate|].
  change (PosDef.Pos.compare_cont Eq) with Pos.compare.
  destruct (Z.compare_spec ea eb); try discriminate.
  destruct (Pos.compare_spec ma mb); try discriminate.
  intros _. subst. reflexivity.
Qed.

Lemma is_nan_spec (x : float) :
  is_nan x = false <-> Prim2SF x <> S754_nan.
Proof.
  unfold is_nan. rewrite eqb_spec. unfold SFeqb. split.
  - intros H E. rewrite E in H. discriminate.
  - intros H. rewrite (SFcompare_refl _ H). reflexivity.
Qed.

Lemma ltb_compare (x y : float) :
  ltb x y = true <-> SFcompare (Prim2SF x) (Prim2SF y) = Some Lt.
Proof.
  rewrite ltb_spec. unfold SFltb.
  destruct (SFcompare _ _) as [[| |]|]; split; intros H; congruence.
Qed.

Lemma leb_compare (x y : float) :
  leb x y = true
  <-> SFcompare (Prim2SF x) (Prim2SF y) = Some Lt
      \/ SFcompare (Prim2SF x) (Prim2SF y) = Some Eq.
Proof.
  rewrite leb_spec. unfold SFleb.
  destruct (SFcompare _ _) as [[| |]|]; split; intros H; try congruence; auto;
    destruct H; congruence.
Qed.

Lemma ltb_false_of (x y : float) (c : comparison) :
  SFcompare (Prim2SF x) (Prim2SF y) = Some c -> c <> Lt -> ltb x y = false.
Proof.
  intros H Hc. rewrite ltb_spec. unfold SFltb. rewrite H.
  destruct c; congruence.
Qed.

Lemma SFcompare_total (a b : spec_float) :
  a <> S754_nan -> b <> S754_nan -> exists c, SFcompare a b = Some c.
Proof.
  destruct a, b; cbn; intros Ha Hb; try congruence; eexists; reflexivity.
Qed.

(** A number is below the interval [lo, hi], above it or inside it. *)
Lemma clamp_exhaustive (lo hi v : float) :
  is_nan lo = false -> is_nan hi = false -> is_nan v = false ->
  ltb v lo = true \/ ltb hi v = true
  \/ (leb lo v = true /\ leb v hi = true).
Proof.
  intros Nlo Nhi Nv. apply is_nan_spec in Nlo, Nhi, Nv.
  destruct (SFcompare_total _ _ Nv Nlo) as [c C].
  destruct (SFcompare_total _ _ Nhi Nv) as [d D].
  destruct c; [| left; apply ltb_compare; exact C |];
    (destruct d; [| right; left; apply ltb_compare; exact D |]);
    right; right; apply SFcompare_antisym in C, D; cbn in C, D;
    split; apply leb_compare; auto.
Qed.

(** [Math.max(lo, Math.min(hi, v))] for two positive bounds [lo < hi]. *)
Lemma clamp_cases (lo hi v : float) :
  ltb 0 lo = true -> ltb lo hi = true ->
  get_sign lo = false -> get_sign hi = false ->
  (ltb v lo = true -> js_max lo (js_min hi v) = lo)
  /\ (ltb hi v = true -> js_max lo (js_min hi v) = hi)
  /\ (leb lo v = true -> leb v hi = true -> js_max lo (js_min hi v) = v).
Proof.
  intros Hpos Hlh Slo Shi.
  pose proof (proj1 (ltb_compare _ _) Hlh) as Clh.
  destruct (SFcompare_defined _ _ _ Clh) as [Nlo Nhi].
  apply is_nan_spec in Nlo, Nhi.
  assert (Emax : js_max lo hi = hi).
  { unfold js_max. rewrite Nlo, Nhi, Hlh. reflexivity. }
  split; [|split].
  - intros H. pose proof (proj1 (ltb_compare _ _) H) as Cvl.
    destruct (SFcompare_defined _ _ _ Cvl) as [Nv _]. apply is_nan_spec in Nv.
    pose proof (SFcompare_Lt_trans _ _ _ Cvl Clh) as Cvh.
    assert (Emin : js_min hi v = v).
    { unfold js_min. rewrite Nhi, Nv. cbn [orb].
      rewrite (ltb_false_of hi v _ (SFcompare_antisym _ _ _ Cvh))
        by discriminate.
      rewrite (proj2 (ltb_compare _ _) Cvh). reflexivity. }
    rewrite Emin. unfold js_max. rewrite Nlo, Nv. cbn [orb].
    rewrite (ltb_false_of lo v _ (SFcompare_antisym _ _ _ Cvl))
      by discriminate.
    rewrite H. reflexivity.
  - intros H. pose proof (proj1 (ltb_compare _ _) H) as Chv.
    destruct (SFcompare_defined _ _ _ Chv) as [_ Nv]. apply is_nan_spec in Nv.
    assert (Emin : js_min hi v = hi).
    { unfold js_min. rewrite Nhi, Nv, H. reflexivity. }
    rewrite Emin. exact Emax.
  - intros Hl Hh.
    apply leb_compare in Hl, Hh.
    assert (Nv : is_nan v = false).
    { apply is_nan_spec.
      destruct Hl as [C|C]; apply SFcompare_defined in C; tauto. }
    assert (Emin : js_min hi v = v).
    { unfold js_min. rewrite Nhi, Nv. cbn [orb].
      destruct Hh as [C|C].
      - rewrite (ltb_false_of hi v _ (SFcompare_antisym _ _ _ C))
          by discriminate.
        rewrite (proj2 (ltb_compare _ _) C). reflexivity.
      - rewrite (ltb_false_of hi v _ (SFcompare_antisym _ _ _ C))
          by discriminate.
        rewrite (ltb_false_of v hi _ C) by discriminate.
        rewrite Shi. reflexivity. }
    rewrite Emin. unfold js_max. rewrite Nlo, Nv. cbn [orb].
    destruct Hl as [C|C].
    + rewrite (proj2 (ltb_compare _ _) C). reflexivity.
    + rewrite (ltb_false_of lo v _ C) by discriminate.
      rewrite (ltb_false_of v lo _ (SFcompare_antisym _ _ _ C))
        by discriminate.
      rewrite Slo. apply Prim2SF_inj.
      apply (SFcompare_Eq_positive (Prim2SF lo) (Prim2SF v)).
      * apply ltb_compare in Hpos.
        assert (Z0 : Prim2SF 0 = S754_zero false) by reflexivity.
        rewrite Z0 in Hpos.
        destruct (Prim2SF lo) as [s|s| |s m e], (Prim2SF v) as [s'|s'| |s' m' e'];
          cbn in *; try discriminate; try (destruct s; discriminate);
          try (destruct s, s'; discriminate); try reflexivity.
        -- destruct s, s'; try discriminate; reflexivity.
        -- destruct s; [discriminate|]. destruct s'; [discriminate|]. reflexivity.
      * exact C.
Qed.

End DoubleOrderFacts.

(** ** Heart rate from the spacing of the detected peaks, in binary64 *)

Section DoubleHeartRateFacts.

Import PrimFloat Double RealPPGProcessorDouble.

Lemma lastPeak_snoc_double (peaks : list Peak) (q : Peak) :
  lastPeak (peaks ++ [q]) = Some q.
Proof. unfold lastPeak. rewrite rev_unit. reflexivity. Qed.

Lemma lastPeak_cons_double (p p' : Peak) (rest : list Peak) :
  lastPeak (p :: p' :: rest) = lastPeak (p' :: rest).
Proof.
  destruct (exists_last (l := p' :: rest)) as (front & q & E); [discriminate|].
  rewrite E, app_comm_cons, !lastPeak_snoc_double. reflexivity.
Qed.

Lemma lastPeak_none_double (peaks : list Peak) :
  lastPeak peaks = None -> peaks = [].
Proof.
  unfold lastPeak. intros H.
  destruct (rev peaks) as [|p l] eqn:E; [|discriminate].
  rewrite <- (rev_involutive peaks), E. reflexivity.
Qed.

Lemma intervalsOf_snoc_double (peaks : list Peak) (q : Peak) :
  intervalsOf (peaks ++ [q])
  = match lastPeak peaks with
    | None => []
    | Some p => intervalsOf peaks ++ [(timestamp q - timestamp p)%float]
    end.
Proof.
  induction peaks as [|p [|p' rest] IH]; [reflexivity..|].
  rewrite lastPeak_cons_double.
  change (intervalsOf ((p :: p' :: rest) ++ [q]))
    with ((timestamp p' - timestamp p)%float
          :: intervalsOf ((p' :: rest) ++ [q])).
  rewrite IH. destruct (lastPeak (p' :: rest)) eqn:E; [reflexivity|].
  apply lastPeak_none_double in E. discriminate.
Qed.

Lemma findPeaks_step_collected (signal timestamps : list float)
  (peaks : list Peak) (i : nat) :
  1 <= i -> i + 1 < length signal ->
  collected signal peaks ->
  collected signal (findPeaks_step signal timestamps peaks i).
Proof.
  intros H1 H2 [Hs Hd]. unfold findPeaks_step. cbv zeta.
  destruct (ltb (item signal (i - 1)) (item signal i)) eqn:A;
    [|split; assumption].
  destruct (ltb (item signal (i + 1)) (item signal i)) eqn:B;
    [|split; assumption].
  destruct (ltb minPeakHeight (item signal i)) eqn:C; [|split; assumption].
  cbn [andb].
  assert (Hnew : detectable signal
                   (mkPeak i (item timestamps i) (item signal i))).
  { unfold detectable. cbn [index value]. repeat split; assumption. }
  destruct (lastPeak peaks) as [p|] eqn:E.
  - destruct (leb minPeakDistance _) eqn:D; [|split; assumption].
    split.
    + rewrite intervalsOf_snoc_double, E. apply Forall_app.
      split; [exact Hs|]. constructor; [exact D|constructor].
    + apply Forall_app. split; [exact Hd|].
      constructor; [exact Hnew|constructor].
  - split.
    + rewrite intervalsOf_snoc_double, E. constructor.
    + apply Forall_app. split; [exact Hd|].
      constructor; [exact Hnew|constructor].
Qed.

Lemma findPeaks_collected (signal timestamps : list float) :
  collected signal (findPeaks signal timestamps).
Proof.
  unfold findPeaks.
  assert (G : forall idx acc,
             Forall (fun i => 1 <= i /\ i + 1 < length signal) idx ->
             collected signal acc ->
             collected signal
               (fold_left (findPeaks_step signal timestamps) idx acc)).
  { induction idx as [|i idx IH]; intros acc Hi Hacc; [exact Hacc|].
    inversion Hi as [|? ? [Ha Hb] Hrest]; subst.
    cbn [fold_left]. apply IH; [exact Hrest|].
    apply findPeaks_step_collected; assumption. }
  apply G.
  - apply Forall_forall. intros i Hi. apply in_seq in Hi. lia.
  - split; constructor.
Qed.

Lemma ageBand_table (age : float) :
  bandOfAge age (fst (ageBand age)) (snd (ageBand age)).
Proof.
  unfold bandOfAge, ageBand.
  destruct (leb age 1) eqn:E1; [left; auto|].
  destruct (leb age 3) eqn:E3; [right; left; auto|].
  destruct (leb age 5) eqn:E5; [right; right; left; auto|].
  destruct (leb age 7) eqn:E7; [right; right; right; left; auto|].
  right; right; right; right; auto.
Qed.

(** The bands of [applyAgeConstraints] are whole, positive and in order. *)
Lemma bandOfAge_bounds (age minHR maxHR : float) :
  bandOfAge age minHR maxHR ->
  ltb 0 minHR = true /\ ltb minHR maxHR = true
  /\ get_sign minHR = false /\ get_sign maxHR = false
  /\ js_round minHR = minHR /\ js_round maxHR = maxHR.
Proof.
  intros [(_ & -> & ->)|[(_ & _ & -> & ->)|[(_ & _ & -> & ->)
         |[(_ & _ & -> & ->)|(_ & -> & ->)]]]];
    repeat split; vm_compute; reflexivity.
Qed.


(** At the age of five the band is 70-120. *)
Lemma bandOfAge_five (minHR maxHR : float) :
  bandOfAge 5 minHR maxHR -> minHR = 70%float /\ maxHR = 120%float.
Proof.
  intros [(E & _)|[(_ & E & _)|[(_ & _ & -> & ->)|[(E & _)|(E & _)]]]];
    try (vm_compute in E; discriminate).
  split; reflexivity.
Qed.


End DoubleHeartRateFacts.

Section DoubleCounterexample.

Import PrimFloat RealPPGProcessorDouble.


End DoubleCounterexample.

(** ** Blood pressure *)

Section BloodPressureFacts.

Import RealPPGProcessor.

Lemma ageBand_cases (age : Q) :
  (ageBand age = (100, 160)%Q /\ getAgeAdjustment age = (-20)%Q)
  \/ (ageBand age = (80, 140)%Q /\ getAgeAdjustment age = (-15)%Q)
  \/ (ageBand age = (70, 120)%Q /\ getAgeAdjustment age = (-10)%Q)
  \/ (ageBand age = (65, 110)%Q /\ getAgeAdjustment age = (-5)%Q)
  \/ (ageBand age = (60, 100)%Q /\ getAgeAdjustment age = 0%Q).
Proof.
  unfold ageBand, getAgeAdjustment.
  destruct (Qle_bool age 1); [tauto|].
  destruct (Qle_bool age 3); [tauto|].
  destruct (Qle_bool age 5); [tauto|].
  destruct (Qle_bool age 7); tauto.
Qed.

Lemma applyAgeConstraints_in_band (age v : Q) :
  (fst (ageBand age) <= applyAgeConstraints age v)%Q
  /\ (applyAgeConstraints age v <= snd (ageBand age))%Q.
Proof.
  unfold applyAgeConstraints.
  destruct (ageBand_cases age) as [[E _]|[[E _]|[[E _]|[[E _]|[E _]]]]];
    rewrite E; cbn [fst snd];
    match goal with
    | |- context [js_max ?lo (js_min ?hi v)] =>
        destruct (js_min_spec hi v) as [[? ->]|[? ->]];
        match goal with
        | |- context [js_max lo ?w] =>
            destruct (js_max_spec lo w) as [[? ->]|[? ->]]
        end
    end; lra.
Qed.

(** The age clamp: an estimate [calculateHeartRate] returns lies in the band
    of the configured age. *)
Lemma calculateHeartRate_in_band (age : Q) (signal timestamps : list Q)
  (heartRate : Z) :
  calculateHeartRate age signal timestamps = Some heartRate ->
  inBand age heartRate.
Proof.
  unfold calculateHeartRate. destruct (_ <? 2); [discriminate|].
  intros E. injection E as <-.
  set (v := applyAgeConstraints age _).
  pose proof (applyAgeConstraints_in_band age
               (60 / (sum (intervalsOf (findPeaks signal timestamps))
                      / num (length (intervalsOf (findPeaks signal timestamps)))))%Q)
    as [Hlo Hhi].
  fold v in Hlo, Hhi. unfold inBand.
  destruct (ageBand_cases age) as [[B _]|[[B _]|[[B _]|[[B _]|[B _]]]]];
    rewrite B in *; cbn [fst snd] in *;
    match goal with
    | Hl : (?lo <= v)%Q, Hh : (v <= ?hi)%Q |- _ =>
        destruct (js_round_between (Qnum lo) (Qnum hi) v Hl Hh) as [Zlo Zhi]
    end;
    cbn [Qnum] in Zlo, Zhi;
    split; unfold Qle; cbn [Qnum Qden inject_Z]; lia.
Qed.

Ltac split_clamp :=
  repeat match goal with
    | |- context [js_min ?a ?c] =>
        let H := fresh "Hmin" in
        destruct (js_min_spec a c) as [[H ->]|[H ->]]
    | |- context [js_max ?a ?c] =>
        let H := fresh "Hmax" in
        destruct (js_max_spec a c) as [[H ->]|[H ->]]
    end.

Ltac split_ltb :=
  repeat match goal with
    | |- context [ltb ?a ?c] =>
        let H := fresh "Hlt" in
        destruct (ltb a c) eqn:H;
        [apply ltb_lt in H | apply ltb_ge in H]
    end.

(** The systolic estimate is clamped to [70, 140]. *)
Lemma calculateSystolicBP_clamped (age : Q) (f : PulseFeatures) (hr : Z) :
  (70 <= calculateSystolicBP age f hr)%Q
  /\ (calculateSystolicBP age f hr <= 140)%Q.
Proof.
  unfold calculateSystolicBP. cbv zeta.
  set (base := (_ + getAgeAdjustment age)%Q). clearbody base.
  split; split_clamp; lra.
Qed.

(** For a heart rate in the band of the configured age the estimate stays
    well inside the clamp. *)
Lemma calculateSystolicBP_in_band (age : Q) (f : PulseFeatures) (hr : Z) :
  inBand age hr ->
  (75 <= calculateSystolicBP age f hr)%Q
  /\ (calculateSystolicBP age f hr <= 110)%Q.
Proof.
  unfold inBand, calculateSystolicBP. cbv zeta.
  set (h := inject_Z hr). set (a := amplitude f). clearbody h a.
  destruct (ageBand_cases age) as [[B A]|[[B A]|[[B A]|[[B A]|[B A]]]]];
    rewrite B, A; cbn [fst snd]; intros [Hlo Hhi];
    split_ltb; cbv beta iota; split; split_clamp; lra.
Qed.

Lemma compensation_range (temp v : Q) (lo hi : Z) :
  (35 <= temp)%Q -> (temp <= 42)%Q ->
  (inject_Z lo + 4 <= v)%Q -> (v <= inject_Z hi - 10)%Q ->
  (lo <= js_round (applyTemperatureCompensation temp v) <= hi)%Z.
Proof.
  intros H35 H42 Hlo Hhi. apply js_round_between;
    unfold applyTemperatureCompensation; cbv zeta; lra.
Qed.

(** [Math.round] moves a number by at most a half. *)
Lemma js_round_near (v : Q) :
  (v - (1 # 2) < inject_Z (js_round v))%Q
  /\ (inject_Z (js_round v) <= v + (1 # 2))%Q.
Proof.
  unfold js_round. split.
  - pose proof (Qlt_floor (v + (1 # 2))) as H.
    rewrite inject_Z_plus in H. change (inject_Z 1) with 1%Q in H. lra.
  - apply Qfloor_le.
Qed.

(** The rounded values of two numbers [c] apart are less than [c + 1] and
    more than [c - 1] apart. *)
Lemma js_round_shift (v c : Q) :
  (c - 1 < inject_Z (js_round (v + c) - js_round v))%Q
  /\ (inject_Z (js_round (v + c) - js_round v) < c + 1)%Q.
Proof.
  destruct (js_round_near (v + c)) as [A1 A2].
  destruct (js_round_near v) as [B1 B2].
  unfold Z.sub. rewrite inject_Z_plus, inject_Z_opp. split; lra.
Qed.


End BloodPressureFacts.


(** ** The per-frame estimate and the histories *)

Section VitalSignsFacts.

Import RealPPGProcessor.

Variables sqrtQ log10Q : Q -> Q.

Lemma calculateVitalSigns_fault (e : FrameEnv) (s : state) :
  raised e CalculateVitalSigns = true ->
  calculateVitalSigns sqrtQ log10Q e s = (s, mkVitalSigns None None 0 error).
Proof. intros H. unfold calculateVitalSigns. rewrite H. reflexivity. Qed.

(** [calculateVitalSigns] assigns the two histories and nothing else. *)
Lemma calculateVitalSigns_frame (e : FrameEnv) (s : state) :
  let s' := fst (calculateVitalSigns sqrtQ log10Q e s) in
  signalBuffer s' = signalBuffer s
  /\ fingerDetector s' = fingerDetector s
  /\ temperature s' = temperature s
  /\ childAge s' = childAge s
  /\ lastProcessTime s' = lastProcessTime s.
Proof.
  unfold calculateVitalSigns.
  destruct (raised e CalculateVitalSigns); [cbn; auto 6|].
  destruct (_ <? minValidSamples); [cbn; auto 6|]. cbv zeta.
  destruct (calculateHeartRate _ _ _) as [hr|];
    [destruct (hr =? 0)%Z|];
    destruct (calculateBloodPressure _ _ _ _ _ _); cbn; auto 6.
Qed.

(** Without a fault, on a full window, the heart rate returned is the
    estimate of the current window itself, and that estimate is what the
    history receives. *)
Lemma calculateVitalSigns_estimate (e : FrameEnv) (s : state) :
  raised e CalculateVitalSigns = false ->
  minValidSamples <= length (signalBuffer s) ->
  vsHeartRate (snd (calculateVitalSigns sqrtQ log10Q e s)) = windowEstimate s
  /\ heartRateHistory (fst (calculateVitalSigns sqrtQ log10Q e s))
     = match windowEstimate s with
       | Some hr =>
           if (hr =? 0)%Z then heartRateHistory s
           else heartRateHistory (updateHeartRateHistory hr s)
       | None => heartRateHistory s
       end.
Proof.
  intros Hf Hn. unfold calculateVitalSigns, windowEstimate. rewrite Hf.
  destruct (Nat.ltb_spec (length (signalBuffer s)) minValidSamples) as [H|_];
    [lia|].
  cbv zeta. split; [reflexivity|].
  destruct (calculateHeartRate _ _ _) as [hr|];
    [destruct (hr =? 0)%Z|];
    destruct (calculateBloodPressure _ _ _ _ _ _); reflexivity.
Qed.

End VitalSignsFacts.

(** C5, the code at the failing input.  With three readings of 100 in the
    history and a window that pulses at 75, [calculateVitalSigns] returns 75,
    the estimate of the window itself, while the history it has just updated
    is [100; 100; 100; 75]: the median of that history, as
    [AdvancedPPGProcessor.getSmoothedHeartRate] computes it, is 100, and the
    trailing mean, as [EnhancedPPGProcessor.getSmoothedHeartRate] computes it,
    is 92. *)
Theorem calculateVitalSigns_returns_window_estimate :
  forall sqrtQ log10Q : Q -> Q,
    let r := RealPPGProcessor.calculateVitalSigns sqrtQ log10Q quietFrame
               afterThreeReadings in
    RealPPGProcessor.vsHeartRate (snd r) = Some 75%Z
    /\ RealPPGProcessor.heartRateHistory (fst r) = [100; 100; 100; 75]%Z
    /\ AdvancedPPGProcessor.getSmoothedHeartRate
         (AdvancedPPGProcessor.mkState (mkChannels [] [] [] []) [] []
            [100; 100; 100; 75]%Q)
       = Some 100%Q
    /\ EnhancedPPGProcessor.getSmoothedHeartRate
         (EnhancedPPGProcessor.mkState (mkChannels [] [] [] [])
            [100; 100; 100; 75]%Z [] false None)
       = Some 92%Z.
Proof.
  intros sqrtQ log10Q r.
  assert (E : windowEstimate afterThreeReadings = Some 75%Z)
    by (vm_compute; reflexivity).
  destruct (calculateVitalSigns_estimate sqrtQ log10Q quietFrame
              afterThreeReadings eq_refl) as [Hhr Hhist].
  { vm_compute. repeat constructor. }
  subst r. rewrite Hhr, Hhist, E.
  split; [reflexivity|]. split; [reflexivity|].
  split; vm_compute; reflexivity.
Qed.

(** ** The orchestrator *)

Section ProcessFrameFacts.

Import RealPPGProcessor.

Variables sqrtQ log10Q : Q -> Q.

Lemma not_throttled (e : FrameEnv) (s : state) :
  ~ throttled e s ->
  (now e - lastProcessTime s <? processingInterval)%Z = false.
Proof. unfold throttled. intros H. apply Z.ltb_ge. lia. Qed.

Lemma processFrame_throttled (e : FrameEnv) (s : state) :
  throttled e s -> processFrame sqrtQ log10Q e s = (s, None).
Proof.
  unfold throttled, processFrame, processFrame_body. intros H.
  apply Z.ltb_lt in H. rewrite H. reflexivity.
Qed.

Lemma processFrame_no_image (e : FrameEnv) (s : state) :
  ~ throttled e s -> extractImageData e = None ->
  processFrame sqrtQ log10Q e s = (with_lastProcessTime (now e) s, None).
Proof.
  intros Ht Hi. unfold processFrame, processFrame_body.
  rewrite (not_throttled e s Ht), Hi. reflexivity.
Qed.

Lemma processFrame_not_detected (e : FrameEnv) (s : state) (imageData : list Z) :
  ~ throttled e s -> extractImageData e = Some imageData ->
  FingerDetector.detected (snd (detectionOf e s)) = false ->
  processFrame sqrtQ log10Q e s = (admitted e s, Some notDetectedResult).
Proof.
  intros Ht Hi Hd. unfold processFrame, processFrame_body.
  rewrite (not_throttled e s Ht), Hi.
  unfold admitted, detectionOf in *. cbn [fingerDetector with_lastProcessTime].
  destruct (FingerDetector.detectFinger _ _) as [fd det]. cbn [fst snd] in *.
  rewrite Hd. reflexivity.
Qed.

Lemma processFrame_no_sample (e : FrameEnv) (s : state) (imageData : list Z) :
  ~ throttled e s -> extractImageData e = Some imageData ->
  FingerDetector.detected (snd (detectionOf e s)) = true ->
  extractPPGSignal e imageData (FingerDetector.found (snd (detectionOf e s)))
  = None ->
  processFrame sqrtQ log10Q e s = (admitted e s, None).
Proof.
  intros Ht Hi Hd Hp. unfold processFrame, processFrame_body.
  rewrite (not_throttled e s Ht), Hi.
  unfold admitted, detectionOf in *. cbn [fingerDetector with_lastProcessTime].
  destruct (FingerDetector.detectFinger _ _) as [fd det]. cbn [fst snd] in *.
  rewrite Hd, Hp. reflexivity.
Qed.

Lemma processFrame_append_fault (e : FrameEnv) (s : state)
  (imageData : list Z) (ppgSignal : Sample) :
  ~ throttled e s -> extractImageData e = Some imageData ->
  FingerDetector.detected (snd (detectionOf e s)) = true ->
  extractPPGSignal e imageData (FingerDetector.found (snd (detectionOf e s)))
  = Some ppgSignal ->
  raised e AddToBuffer = true ->
  processFrame sqrtQ log10Q e s = (admitted e s, Some errorResult).
Proof.
  intros Ht Hi Hd Hp Hf. unfold processFrame, processFrame_body.
  rewrite (not_throttled e s Ht), Hi.
  unfold admitted, detectionOf in *. cbn [fingerDetector with_lastProcessTime].
  destruct (FingerDetector.detectFinger _ _) as [fd det]. cbn [fst snd] in *.
  rewrite Hd, Hp, Hf. reflexivity.
Qed.

(** What [processFrame] does with an accepted frame. *)
Lemma processFrame_accepted (e : FrameEnv) (s : state) (ppgSignal : Sample) :
  accepted e s ppgSignal ->
  let s3 := addToBuffer ppgSignal (admitted e s) in
  processFrame sqrtQ log10Q e s
  = if minValidSamples <=? length (signalBuffer s3)
    then
      let r := calculateVitalSigns sqrtQ log10Q e s3 in
      (fst r, Some (estimateResult e (fst r) (snd r)))
    else (s3, Some (collectingResult (length (signalBuffer s3)))).
Proof.
  intros (Ht & Hf & Hd & imageData & Hi & Hp). cbv zeta.
  unfold processFrame, processFrame_body.
  rewrite (not_throttled e s Ht), Hi.
  unfold admitted, detectionOf in *. cbn [fingerDetector with_lastProcessTime].
  destruct (FingerDetector.detectFinger _ _) as [fd det]. cbn [fst snd] in *.
  rewrite Hd, Hp, Hf. cbn [negb].
  destruct (minValidSamples <=? _); [|reflexivity].
  destruct (calculateVitalSigns _ _ _ _) as [s4 vs]. reflexivity.
Qed.

Lemma addToBuffer_length (ppgSignal : Sample) (s : state) :
  length (signalBuffer s) < maxBufferSize ->
  length (signalBuffer (addToBuffer ppgSignal s)) = S (length (signalBuffer s)).
Proof.
  intros H. cbn [addToBuffer with_signalBuffer signalBuffer].
  rewrite push_shift_once by lia.
  rewrite lastN_length, length_app. cbn [length]. lia.
Qed.

Lemma progress_below_one (n : nat) :
  n < minValidSamples ->
  (0 <= num n / num minValidSamples)%Q /\ (num n / num minValidSamples < 1)%Q.
Proof.
  unfold minValidSamples, num. intros H.
  unfold Qdiv, Qmult, Qinv, Qle, Qlt. cbn. lia.
Qed.

Lemma stage_eqb_eq (a c : stage) : stage_eqb a c = true <-> a = c.
Proof. destruct a, c; cbn; split; intros H; congruence. Qed.

Lemma raised_fault (e : FrameEnv) (st : stage) :
  raised e st = true <-> fault e = Some st.
Proof.
  unfold raised. destruct (fault e) as [st'|].
  - rewrite stage_eqb_eq. split; intros H; congruence.
  - split; discriminate.
Qed.

Lemma raised_other (e : FrameEnv) (st st' : stage) :
  raised e st = true -> st' <> st -> raised e st' = false.
Proof.
  intros H Hne. destruct (raised e st') eqn:E; [|reflexivity].
  apply raised_fault in H. apply raised_fault in E. congruence.
Qed.

Lemma extractImageData_none (e : FrameEnv) :
  extractImageData e = None
  <-> frame e = None \/ raised e ExtractImageData = true.
Proof.
  unfold extractImageData.
  destruct (raised e ExtractImageData); [cbn; tauto|].
  destruct (frame e) as [[w h]|]; cbn; split; intros H;
    try discriminate; try tauto.
  destruct H; discriminate.
Qed.

Lemma extractPPGSignal_none (e : FrameEnv) (imageData : list Z)
  (contour : option FingerDetector.contour) :
  extractPPGSignal e imageData contour = None
  <-> raised e ExtractPPGSignal = true
      \/ contour = None \/ contour = Some [] \/ regionSample e = None.
Proof.
  unfold extractPPGSignal.
  destruct (raised e ExtractPPGSignal); [cbn; tauto|].
  destruct contour as [[|pt rest]|]; cbn; split; intros H; try tauto;
    try (destruct H as [H|[H|[H|H]]]; congruence).
Qed.

Lemma detection_fault (e : FrameEnv) (s : state) :
  raised e DetectFinger = true ->
  detectionOf e s
  = (fingerDetector s,
     FingerDetector.mkDetection false 0 None).
Proof. intros H. unfold detectionOf. rewrite H. reflexivity. Qed.

(** The five ways a call of [processFrame] can end. *)
Lemma processFrame_cases (e : FrameEnv) (s : state) :
  (throttled e s /\ processFrame sqrtQ log10Q e s = (s, None))
  \/ (~ throttled e s /\ extractImageData e = None
      /\ processFrame sqrtQ log10Q e s = (with_lastProcessTime (now e) s, None))
  \/ (~ throttled e s
      /\ FingerDetector.detected (snd (detectionOf e s)) = false
      /\ processFrame sqrtQ log10Q e s = (admitted e s, Some notDetectedResult))
  \/ (~ throttled e s
      /\ (exists imageData : list Z,
             extractImageData e = Some imageData
             /\ FingerDetector.detected (snd (detectionOf e s)) = true
             /\ extractPPGSignal e imageData
                  (FingerDetector.found (snd (detectionOf e s))) = None)
      /\ processFrame sqrtQ log10Q e s = (admitted e s, None))
  \/ (~ throttled e s /\ raised e AddToBuffer = true
      /\ processFrame sqrtQ log10Q e s = (admitted e s, Some errorResult))
  \/ (exists ppgSignal : Sample, accepted e s ppgSignal).
Proof.
  destruct (Z_lt_dec (now e - lastProcessTime s) processingInterval) as [Ht|Ht].
  { left. split; [exact Ht | apply processFrame_throttled, Ht]. }
  right. destruct (extractImageData e) as [imageData|] eqn:Hi.
  2:{ left. repeat split; [exact Ht | apply processFrame_no_image; assumption]. }
  right. destruct (FingerDetector.detected (snd (detectionOf e s))) eqn:Hd.
  2:{ left. repeat split;
        [exact Ht | apply (processFrame_not_detected e s imageData); assumption]. }
  right.
  destruct (extractPPGSignal e imageData
              (FingerDetector.found (snd (detectionOf e s)))) as [ppg|] eqn:Hp.
  2:{ left. split; [exact Ht|]. split; [exists imageData; auto|].
      apply (processFrame_no_sample e s imageData); assumption. }
  right. destruct (raised e AddToBuffer) eqn:Hf.
  - left. repeat split; [exact Ht|].
    apply (processFrame_append_fault e s imageData ppg); assumption.
  - right. exists ppg. repeat split; try assumption. exists imageData. auto.
Qed.

(** C2.  For every accepted frame, with [n] the number of samples the buffer
    holds once the frame's sample is appended (one more than before, below
    capacity): while [n] is below [minValidSamples] = 90, [processFrame]
    returns the progress object, with quality ['collecting'], confidence
    [n / 90] (at least 0, below 1), a message and no heart-rate field; from
    [n] = 90 on, the same call returns the object built from what
    [calculateVitalSigns] computes on that buffer. *)
Theorem processFrame_collecting_until_full_window :
  forall (e : FrameEnv) (s : state) (ppgSignal : Sample),
    accepted e s ppgSignal ->
    let s3 := addToBuffer ppgSignal (admitted e s) in
    let n := length (signalBuffer s3) in
    let r := processFrame sqrtQ log10Q e s in
    (length (signalBuffer s) < maxBufferSize -> n = S (length (signalBuffer s)))
    /\ (n < minValidSamples ->
        exists res : Result,
          r = (s3, Some res)
          /\ resultFingerDetected res = true
          /\ resultQuality res = collecting
          /\ resultConfidence res = (num n / num 90)%Q
          /\ (0 <= resultConfidence res)%Q /\ (resultConfidence res < 1)%Q
          /\ resultHeartRate res = None
          /\ resultBloodPressure res = None
          /\ resultMessage res
             = Some ("Collecting data... " ++ decimal n ++ "/90")%string)
    /\ (minValidSamples <= n ->
        let v := calculateVitalSigns sqrtQ log10Q e s3 in
        r = (fst v,
             Some (Estimate true (vsHeartRate (snd v)) (vsBloodPressure (snd v))
                            (vsConfidence (snd v)) (vsQuality (snd v))
                            (getDisplaySignal e (fst v))
                            (temperature s) (childAge s)))).
Proof.
  intros e s ppgSignal Hacc. cbv zeta.
  rewrite (processFrame_accepted e s ppgSignal Hacc). cbv zeta.
  set (s3 := addToBuffer ppgSignal (admitted e s)).
  set (n := length (signalBuffer s3)).
  split; [|split].
  - intros Hlen. subst n s3.
    apply (addToBuffer_length ppgSignal (admitted e s)). exact Hlen.
  - intros Hn. destruct (Nat.leb_spec minValidSamples n) as [H|_]; [lia|].
    exists (collectingResult n).
    destruct (progress_below_one n Hn) as [H0 H1].
    repeat split; try reflexivity; assumption.
  - intros Hn. destruct (Nat.leb_spec minValidSamples n) as [_|H]; [|lia].
    unfold estimateResult.
    destruct (calculateVitalSigns_frame sqrtQ log10Q e s3)
      as (_ & _ & Htemp & Hage & _).
    rewrite Htemp, Hage. reflexivity.
Qed.

(** C6 (as the code has it).  [processFrame] returns null exactly when the
    throttle rejects the call, or image extraction returns null (the frame is
    null or the extraction threw), or the finger is detected and PPG
    extraction returns null (it threw, the contour is empty, or the region has
    no valid pixel). *)
Theorem processFrame_null_exactly_when_dropped :
  forall (e : FrameEnv) (s : state),
    (snd (processFrame sqrtQ log10Q e s) = None
     <-> throttled e s
         \/ extractImageData e = None
         \/ exists imageData : list Z,
              extractImageData e = Some imageData
              /\ FingerDetector.detected (snd (detectionOf e s)) = true
              /\ extractPPGSignal e imageData
                   (FingerDetector.found (snd (detectionOf e s))) = None)
    /\ (extractImageData e = None
        <-> frame e = None \/ raised e ExtractImageData = true)
    /\ (forall (imageData : list Z) (contour : option FingerDetector.contour),
           extractPPGSignal e imageData contour = None
           <-> raised e ExtractPPGSignal = true
               \/ contour = None \/ contour = Some []
               \/ regionSample e = None).
Proof.
  intros e s. split; [|split].
  - split.
    + intros Hnull.
      destruct (processFrame_cases e s)
        as [[Ht _]|[(_ & Hi & _)|[(_ & _ & E)|[(_ & Hx & _)|[(_ & _ & E)|[ppg Hacc]]]]]].
      * left. exact Ht.
      * right. left. exact Hi.
      * rewrite E in Hnull. discriminate.
      * right. right. exact Hx.
      * rewrite E in Hnull. discriminate.
      * rewrite (processFrame_accepted e s ppg Hacc) in Hnull. cbv zeta in Hnull.
        destruct (minValidSamples <=? _); discriminate.
    + intros H.
      destruct (Z_lt_dec (now e - lastProcessTime s) processingInterval)
        as [Ht|Ht]; [rewrite (processFrame_throttled e s Ht); reflexivity|].
      destruct H as [H|[H|(imageData & Hi & Hd & Hp)]].
      * contradiction.
      * rewrite (processFrame_no_image e s Ht H). reflexivity.
      * rewrite (processFrame_no_sample e s imageData Ht Hi Hd Hp). reflexivity.
  - apply extractImageData_none.
  - intros imageData contour. apply extractPPGSignal_none.
Qed.

End ProcessFrameFacts.

(** ** Exceptions inside a stage *)

Section FaultFacts.

Import RealPPGProcessor.

Variables sqrtQ log10Q : Q -> Q.

Lemma thrownIn_raised (e : FrameEnv) (st : stage) :
  thrownIn e st -> st <> ExtractImageData -> raised e st = true.
Proof. intros [H|[H _]] Hne; [exact H | contradiction]. Qed.

Lemma image_extracted (e : FrameEnv) (st : stage) :
  raised e st = true -> st <> ExtractImageData -> frame e <> None ->
  exists imageData : list Z, extractImageData e = Some imageData.
Proof.
  intros Hr Hne Hf. destruct (extractImageData e) as [imageData|] eqn:E;
    [exists imageData; reflexivity|].
  apply extractImageData_none in E. destruct E as [E|E]; [contradiction|].
  rewrite (raised_other e st ExtractImageData Hr) in E by congruence.
  discriminate.
Qed.

(** A frame in which one of the first four stages throws is not accepted. *)
Lemma accepted_fault_is_late (e : FrameEnv) (s : state) (ppgSignal : Sample)
  (st : stage) :
  accepted e s ppgSignal -> thrownIn e st ->
  st = CalculateVitalSigns \/ st = GetDisplaySignal.
Proof.
  intros (_ & Hadd & Hdet & imageData & Hi & Hp) Hth.
  assert (Hni : extractImageData e <> None) by congruence.
  destruct Hth as [Hr|[-> Hf]].
  - destruct st; auto; exfalso.
    + apply Hni, extractImageData_none. auto.
    + rewrite (detection_fault e s Hr) in Hdet. discriminate.
    + assert (Hn : extractPPGSignal e imageData
                     (FingerDetector.found (snd (detectionOf e s))) = None)
        by (apply extractPPGSignal_none; auto).
      congruence.
    + congruence.
  - exfalso. apply Hni, extractImageData_none. auto.
Qed.

Lemma getDisplaySignal_fault (e : FrameEnv) (s : state) :
  raised e GetDisplaySignal = true -> getDisplaySignal e s = [].
Proof. intros H. unfold getDisplaySignal. rewrite H. reflexivity. Qed.

Lemma admitted_after_detector_fault (e : FrameEnv) (s : state) :
  raised e DetectFinger = true ->
  admitted e s = with_lastProcessTime (now e) s.
Proof.
  intros H. unfold admitted. rewrite (detection_fault e s H).
  destruct s; reflexivity.
Qed.

(** C8 (as the code has it).  In a call the throttle lets through, an
    exception raised in the body of a stage is absorbed by the handler of
    that stage and surfaces as that handler's fallback:
    - in [extractImageData] (a null frame): [processFrame] returns null and
      only the throttle clock has advanced;
    - in [detectFinger]: the finger-not-detected object, quality ['poor'],
      confidence 0, with its message; only the throttle clock has advanced;
    - in [extractPPGSignal]: null;
    - in [addToBuffer], which has no handler: the handler of [processFrame]
      returns quality ['error'], confidence 0 and the message;
    - in [calculateVitalSigns]: quality ['error'], confidence 0, null heart
      rate and blood pressure, in the object with the estimates (it has no
      message), the buffer holding the sample the earlier stage appended;
    - in [getDisplaySignal]: the regular estimates with empty signal data.
    Unless the stage is [getDisplaySignal], the two histories are what they
    were before the call, and so is the signal buffer when the stage is one
    of the first four.  The call always returns, and an accepted frame that
    follows gets a result with the finger detected. *)
Theorem stage_fault_is_absorbed :
  forall (e : FrameEnv) (s : state) (st : stage),
    thrownIn e st ->
    ~ throttled e s ->
    let r := processFrame sqrtQ log10Q e s in
    (st <> GetDisplaySignal ->
       heartRateHistory (fst r) = heartRateHistory s
       /\ bpHistory (fst r) = bpHistory s)
    /\ (st <> GetDisplaySignal -> st <> CalculateVitalSigns ->
          signalBuffer (fst r) = signalBuffer s)
    /\ match st with
       | ExtractImageData =>
           r = (with_lastProcessTime (now e) s, None)
       | DetectFinger =>
           frame e <> None ->
           r = (with_lastProcessTime (now e) s, Some notDetectedResult)
       | ExtractPPGSignal =>
           frame e <> None ->
           FingerDetector.detected (snd (detectionOf e s)) = true ->
           r = (admitted e s, None)
       | AddToBuffer =>
           forall (imageData : list Z) (ppgSignal : Sample),
             extractImageData e = Some imageData ->
             FingerDetector.detected (snd (detectionOf e s)) = true ->
             extractPPGSignal e imageData
               (FingerDetector.found (snd (detectionOf e s))) = Some ppgSignal ->
             r = (admitted e s, Some errorResult)
       | CalculateVitalSigns =>
           forall ppgSignal : Sample,
             accepted e s ppgSignal ->
             let s3 := addToBuffer ppgSignal (admitted e s) in
             minValidSamples <= length (signalBuffer s3) ->
             r = (s3, Some (Estimate true None None 0 error
                                     (getDisplaySignal e s3)
                                     (temperature s) (childAge s)))
       | GetDisplaySignal =>
           forall ppgSignal : Sample,
             accepted e s ppgSignal ->
             let s3 := addToBuffer ppgSignal (admitted e s) in
             let v := calculateVitalSigns sqrtQ log10Q e s3 in
             minValidSamples <= length (signalBuffer s3) ->
             r = (fst v,
                  Some (Estimate true (vsHeartRate (snd v))
                                 (vsBloodPressure (snd v))
                                 (vsConfidence (snd v)) (vsQuality (snd v))
                                 [] (temperature s) (childAge s)))
       end
    /\ (forall (e' : FrameEnv) (ppgSignal' : Sample),
           accepted e' (fst r) ppgSignal' ->
           exists res : Result,
             snd (processFrame sqrtQ log10Q e' (fst r)) = Some res
             /\ resultFingerDetected res = true).
Proof.
  intros e s st Hth Ht. cbv zeta.
  split; [|split; [|split]].
  - intros Hnd.
    destruct (processFrame_cases sqrtQ log10Q e s)
      as [[_ E]|[(_ & _ & E)|[(_ & _ & E)|[(_ & _ & E)|[(_ & _ & E)|[ppg Hacc]]]]]];
      try (rewrite E; cbn; auto).
    destruct (accepted_fault_is_late e s ppg st Hacc Hth) as [-> | ->];
      [|contradiction].
    rewrite (processFrame_accepted sqrtQ log10Q e s ppg Hacc). cbv zeta.
    rewrite calculateVitalSigns_fault by (apply thrownIn_raised; [exact Hth|discriminate]).
    destruct (minValidSamples <=? _); cbn; auto.
  - intros Hnd Hnv.
    destruct (processFrame_cases sqrtQ log10Q e s)
      as [[_ E]|[(_ & _ & E)|[(_ & _ & E)|[(_ & _ & E)|[(_ & _ & E)|[ppg Hacc]]]]]];
      try (rewrite E; reflexivity).
    destruct (accepted_fault_is_late e s ppg st Hacc Hth); contradiction.
  - destruct st.
    + apply processFrame_no_image; [exact Ht|].
      apply extractImageData_none. destruct Hth as [H|[_ H]]; auto.
    + intros Hf.
      assert (Hr : raised e DetectFinger = true)
        by (apply thrownIn_raised; [exact Hth|discriminate]).
      destruct (image_extracted e DetectFinger Hr) as [imageData Hi];
        [discriminate|exact Hf|].
      rewrite <- (admitted_after_detector_fault e s Hr).
      apply (processFrame_not_detected sqrtQ log10Q e s imageData Ht Hi).
      rewrite (detection_fault e s Hr). reflexivity.
    + intros Hf Hd.
      assert (Hr : raised e ExtractPPGSignal = true)
        by (apply thrownIn_raised; [exact Hth|discriminate]).
      destruct (image_extracted e ExtractPPGSignal Hr) as [imageData Hi];
        [discriminate|exact Hf|].
      apply (processFrame_no_sample sqrtQ log10Q e s imageData Ht Hi Hd).
      apply extractPPGSignal_none. auto.
    + intros imageData ppg Hi Hd Hp.
      apply (processFrame_append_fault sqrtQ log10Q e s imageData ppg);
        try assumption.
      apply thrownIn_raised; [exact Hth|discriminate].
    + intros ppg Hacc Hn.
      rewrite (processFrame_accepted sqrtQ log10Q e s ppg Hacc). cbv zeta.
      apply Nat.leb_le in Hn. rewrite Hn.
      rewrite calculateVitalSigns_fault
        by (apply thrownIn_raised; [exact Hth|discriminate]).
      reflexivity.
    + intros ppg Hacc Hn.
      rewrite (processFrame_accepted sqrtQ log10Q e s ppg Hacc). cbv zeta.
      apply Nat.leb_le in Hn. rewrite Hn. unfold estimateResult.
      rewrite getDisplaySignal_fault
        by (apply thrownIn_raised; [exact Hth|discriminate]).
      destruct (calculateVitalSigns_frame sqrtQ log10Q e
                  (addToBuffer ppg (admitted e s)))
        as (_ & _ & Htemp & Hage & _).
      rewrite Htemp, Hage. reflexivity.
  - intros e' ppg' Hacc'.
    rewrite (processFrame_accepted sqrtQ log10Q e' _ ppg' Hacc'). cbv zeta.
    destruct (minValidSamples <=? _); eexists; split; reflexivity.
Qed.

End FaultFacts.

Lemma goodFrame_accepted (n : nat) (fault : option RealPPGProcessor.stage) :
  match fault with
  | None | Some RealPPGProcessor.CalculateVitalSigns
  | Some RealPPGProcessor.GetDisplaySignal => True
  | _ => False
  end ->
  accepted (goodFrame fault) (fingerOn n) sample0.
Proof.
  intros Hf. unfold accepted, throttled.
  split; [unfold RealPPGProcessor.processingInterval; cbn; lia|].
  destruct fault as [[]|]; try contradiction;
    (split; [reflexivity|]; split; [reflexivity|];
     eexists; split; reflexivity).
Qed.

(** The first accepted frame reports progress 1/90, the one that brings the
    buffer to 90 samples reports estimates. *)
Lemma processFrame_collecting_until_full_window_witness :
  accepted (goodFrame None) (fingerOn 0) sample0
  /\ accepted (goodFrame None) (fingerOn 89) sample0
  /\ snd (RealPPGProcessor.processFrame (fun v => v) (fun v => v)
            (goodFrame None) (fingerOn 0))
     = Some (RealPPGProcessor.Status true "Collecting data... 1/90" (1 / 90)
               RealPPGProcessor.collecting)
  /\ exists hr bp c q sd,
       snd (RealPPGProcessor.processFrame (fun v => v) (fun v => v)
              (goodFrame None) (fingerOn 89))
       = Some (RealPPGProcessor.Estimate true hr bp c q sd 37 5).
Proof.
  pose (H0 := goodFrame_accepted 0 None I).
  pose (H89 := goodFrame_accepted 89 None I).
  split; [exact H0|]. split; [exact H89|]. split.
  - destruct (processFrame_collecting_until_full_window
                (fun v => v) (fun v => v) (goodFrame None) (fingerOn 0)
                sample0 H0) as (_ & Hc & _).
    destruct Hc as (res & E & _); [vm_compute; repeat constructor|].
    reflexivity.
  - destruct (processFrame_collecting_until_full_window
                (fun v => v) (fun v => v) (goodFrame None) (fingerOn 89)
                sample0 H89) as (_ & _ & Hf).
    rewrite Hf by (vm_compute; repeat constructor).
    cbn [snd]. repeat eexists.
Defined.

(** C6 fails as stated: two calls the throttle lets through that return
    null, one on a null frame, one on a frame whose finger region has no
    valid pixel. *)
Lemma processFrame_null_without_throttle :
  let noPixel :=
    RealPPGProcessor.mkEnv 1000 (Some (2, 2)) (Some [(9, 9)%Z]) None (1 # 2)
                           None in
  ~ throttled nullFrame RealPPGProcessor.init
  /\ returnsNull nullFrame RealPPGProcessor.init
  /\ ~ throttled noPixel (fingerOn 0)
  /\ returnsNull noPixel (fingerOn 0).
Proof.
  cbv zeta. unfold throttled, returnsNull, RealPPGProcessor.processingInterval.
  split; [cbn; lia|]. split; [reflexivity|]. split; [cbn; lia|]. reflexivity.
Qed.

(** A fault in [calculateVitalSigns] on the frame that fills the window. *)
Lemma stage_fault_is_absorbed_witness :
  let e := goodFrame (Some RealPPGProcessor.CalculateVitalSigns) in
  let r := RealPPGProcessor.processFrame (fun v => v) (fun v => v) e
             (fingerOn 89) in
  thrownIn e RealPPGProcessor.CalculateVitalSigns
  /\ ~ throttled e (fingerOn 89)
  /\ (exists res,
         snd r = Some res
         /\ RealPPGProcessor.resultQuality res = RealPPGProcessor.error
         /\ RealPPGProcessor.resultConfidence res = 0%Q
         /\ RealPPGProcessor.resultHeartRate res = None
         /\ RealPPGProcessor.resultMessage res = None)
  /\ length (RealPPGProcessor.signalBuffer (fst r)) = 90
  /\ RealPPGProcessor.heartRateHistory (fst r) = []
  /\ RealPPGProcessor.bpHistory (fst r) = [].
Proof.
  cbv zeta.
  assert (Hth : thrownIn (goodFrame (Some RealPPGProcessor.CalculateVitalSigns))
                         RealPPGProcessor.CalculateVitalSigns)
    by (left; reflexivity).
  assert (Ht : ~ throttled (goodFrame (Some RealPPGProcessor.CalculateVitalSigns))
                           (fingerOn 89))
    by (unfold throttled, RealPPGProcessor.processingInterval; cbn; lia).
  split; [exact Hth|]. split; [exact Ht|].
  destruct (stage_fault_is_absorbed (fun v => v) (fun v => v) _ _ _ Hth Ht)
    as (_ & _ & Hs & _).
  cbv beta iota zeta in Hs.
  rewrite (Hs sample0
             (goodFrame_accepted 89 (Some RealPPGProcessor.CalculateVitalSigns) I))
    by (vm_compute; repeat constructor).
  split; [eexists; repeat split|]. repeat split.
Defined.

(** C8 fails as stated: the exception a null frame raises in
    [extractImageData] makes [processFrame] return null, no object with
    quality ['error']; the one raised in the finger classifier surfaces as
    quality ['poor']. *)
Lemma stage_fault_without_error_result :
  let e := RealPPGProcessor.mkEnv 1000 (Some (2, 2)) (Some [(0, 0)%Z])
             (Some sample0) (1 # 2) (Some RealPPGProcessor.DetectFinger) in
  thrownIn nullFrame RealPPGProcessor.ExtractImageData
  /\ ~ throttled nullFrame RealPPGProcessor.init
  /\ returnsNull nullFrame RealPPGProcessor.init
  /\ thrownIn e RealPPGProcessor.DetectFinger
  /\ ~ throttled e (fingerOn 0)
  /\ returnsResult e (fingerOn 0)
       (RealPPGProcessor.Status false
          "Please place your finger properly on the camera" 0
          RealPPGProcessor.poor).
Proof.
  cbv zeta.
  unfold throttled, returnsNull, returnsResult, thrownIn,
    RealPPGProcessor.processingInterval.
  split; [right; split; reflexivity|]. split; [cbn; lia|].
  split; [reflexivity|]. split; [left; reflexivity|].
  split; [cbn; lia|]. reflexivity.
Qed.

(** ** Further properties of the estimators *)

Section EstimatorProperties.

Import RealPPGProcessor.


(** The quality ladder: the label is decided by the inclusive lower bounds
    0.8, 0.6 and 0.4 on the confidence. *)
Theorem assessSignalQuality_ladder :
  forall (signal : list Q) (conf : Q),
    (assessSignalQuality signal conf = excellent <-> (8 # 10 <= conf)%Q)
    /\ (assessSignalQuality signal conf = good
        <-> (6 # 10 <= conf)%Q /\ (conf < 8 # 10)%Q)
    /\ (assessSignalQuality signal conf = fair
        <-> (4 # 10 <= conf)%Q /\ (conf < 6 # 10)%Q)
    /\ (assessSignalQuality signal conf = poor <-> (conf < 4 # 10)%Q)
    /\ map (assessSignalQuality signal)
           [85 # 100; 65 # 100; 45 # 100; 2 # 10; 8 # 10; 6 # 10; 4 # 10]%Q
       = [excellent; good; fair; poor; excellent; good; fair].
Proof.
  intros signal conf. unfold assessSignalQuality.
  destruct (Qle_bool (8 # 10) conf) eqn:E8;
    [apply Qle_bool_iff in E8 | apply Qle_bool_false in E8];
    (destruct (Qle_bool (6 # 10) conf) eqn:E6;
     [apply Qle_bool_iff in E6 | apply Qle_bool_false in E6]);
    (destruct (Qle_bool (4 # 10) conf) eqn:E4;
     [apply Qle_bool_iff in E4 | apply Qle_bool_false in E4]);
    repeat split; intros; try discriminate; try reflexivity; try lra;
    try (exfalso; lra);
    match goal with
    | H : _ /\ _ |- _ => destruct H; exfalso; lra
    end.
Qed.

End EstimatorProperties.


(** ** Smoothing in the simulated processors *)

Section SmoothingFacts.

Lemma insertSorted_perm (v : Q) (l : list Q) :
  Permutation (v :: l) (insertSorted v l).
Proof.
  induction l as [|w l IH]; cbn [insertSorted]; [reflexivity|].
  destruct (Qle_bool v w); [reflexivity|].
  rewrite perm_swap. apply perm_skip, IH.
Qed.

Lemma sortNumbers_perm (l : list Q) : Permutation l (sortNumbers l).
Proof.
  induction l as [|v l IH]; [reflexivity|].
  cbn [sortNumbers fold_right]. fold (sortNumbers l).
  rewrite <- insertSorted_perm. apply perm_skip, IH.
Qed.

Lemma insertSorted_HdRel (a v : Q) (l : list Q) :
  (a <= v)%Q -> HdRel Qle a l -> HdRel Qle a (insertSorted v l).
Proof.
  intros Hav Hl. destruct l as [|w l]; cbn [insertSorted].
  - constructor. exact Hav.
  - destruct (Qle_bool v w); constructor; [exact Hav|].
    inversion Hl; assumption.
Qed.

Lemma insertSorted_sorted (v : Q) (l : list Q) :
  Sorted Qle l -> Sorted Qle (insertSorted v l).
Proof.
  induction l as [|w l IH]; intros Hs; cbn [insertSorted].
  - repeat constructor.
  - destruct (Qle_bool v w) eqn:E.
    + constructor; [exact Hs|]. constructor. apply Qle_bool_iff, E.
    + inversion Hs as [|? ? Hl Hhd]; subst.
      constructor; [apply IH, Hl|].
      apply insertSorted_HdRel; [|exact Hhd].
      apply Qlt_le_weak, Qle_bool_false, E.
Qed.

Lemma sortNumbers_sorted (l : list Q) : Sorted Qle (sortNumbers l).
Proof.
  induction l as [|v l IH]; [constructor|].
  cbn [sortNumbers fold_right]. apply insertSorted_sorted, IH.
Qed.

Variable finalHR : list Q -> option Q.
Variable estimateHeartRate : list Q -> option Z.
Variable calculateConfidence : list Q -> option Z -> list Z -> Q.

(** Smoothing.  When [AdvancedPPGProcessor.calculateHeartRate] gets a
    non-zero estimate, the history becomes its last ten entries with the
    estimate appended, and the value returned is the median of that history:
    the middle entry of its sorted permutation, or the rounded mean of the
    two middle entries when their number is even.  When
    [EnhancedPPGProcessor.calculateMetrics] gets a non-zero estimate, the
    history becomes its last twenty entries with the estimate appended, and
    the heart rate returned is the rounded mean of the last three of them. *)
Theorem simulated_processors_return_smoothed_heartRate :
  forall (a : AdvancedPPGProcessor.state) (hr : Q)
         (b : EnhancedPPGProcessor.state) (v : Z),
    finalHR (greenBuffer (AdvancedPPGProcessor.channels a)) = Some hr ->
    Qeq_bool hr 0 = false ->
    length (AdvancedPPGProcessor.heartRateHistory a) <= 10 ->
    estimateHeartRate (greenBuffer (EnhancedPPGProcessor.channels b)) = Some v ->
    v <> 0%Z ->
    length (EnhancedPPGProcessor.heartRateHistory b) <= 20 ->
    let ra := AdvancedPPGProcessor.calculateHeartRate finalHR a in
    let ha := AdvancedPPGProcessor.heartRateHistory (fst ra) in
    let sorted := sortNumbers ha in
    let middle := length ha / 2 in
    let rb := EnhancedPPGProcessor.calculateMetrics estimateHeartRate
                calculateConfidence b in
    let hb := EnhancedPPGProcessor.heartRateHistory (fst rb) in
    ha = lastN 10 (AdvancedPPGProcessor.heartRateHistory a ++ [hr])
    /\ Sorted Qle sorted
    /\ Permutation ha sorted
    /\ snd ra
       = Some (if length ha mod 2 =? 0
               then inject_Z (js_round ((nth (middle - 1) sorted 0
                                         + nth middle sorted 0) / 2))
               else nth middle sorted 0)%Q
    /\ hb = lastN 20 (EnhancedPPGProcessor.heartRateHistory b ++ [v])
    /\ EnhancedPPGProcessor.heartRate (snd rb)
       = Some (js_round (fold_left (fun acc val => acc + inject_Z val)
                                   (lastN 3 hb) 0
                         / num (length (lastN 3 hb)))%Q).
Proof.
  intros a hr b v Ea Hnz Hla Eb Hv Hlb. cbv zeta.
  unfold AdvancedPPGProcessor.calculateHeartRate. rewrite Ea, Hnz.
  cbn [fst snd AdvancedPPGProcessor.heartRateHistory].
  rewrite (push_shift_once 10 _ hr Hla).
  set (ha := lastN 10 (AdvancedPPGProcessor.heartRateHistory a ++ [hr])).
  assert (Hne : ha <> []).
  { intros E. apply (f_equal (@length Q)) in E. subst ha.
    rewrite lastN_length, length_app in E. cbn in E. lia. }
  split; [reflexivity|]. split; [apply sortNumbers_sorted|].
  split; [apply sortNumbers_perm|]. split.
  { unfold AdvancedPPGProcessor.getSmoothedHeartRate.
    cbn [AdvancedPPGProcessor.heartRateHistory].
    rewrite <- (Permutation_length (sortNumbers_perm ha)).
    destruct ha as [|h0 rest]; [contradiction|].
    destruct (length (h0 :: rest) mod 2 =? 0); reflexivity. }
  unfold EnhancedPPGProcessor.calculateMetrics. rewrite Eb.
  destruct (Z.eqb_spec v 0) as [|_]; [contradiction|].
  pose proof (push_shift_once 20 (EnhancedPPGProcessor.heartRateHistory b) v Hlb)
    as Hpush.
  destruct (20 <? length (EnhancedPPGProcessor.heartRateHistory b ++ [v])) eqn:E;
    cbn [fst snd EnhancedPPGProcessor.heartRateHistory
         EnhancedPPGProcessor.heartRate];
    rewrite <- Hpush;
    (split; [reflexivity|]);
    unfold EnhancedPPGProcessor.getSmoothedHeartRate;
    cbn [EnhancedPPGProcessor.heartRateHistory].
  - remember (tl (EnhancedPPGProcessor.heartRateHistory b ++ [v])) as h eqn:Eh.
    destruct h; [|reflexivity].
    exfalso. apply (f_equal (@length Z)) in Eh.
    rewrite length_tl, length_app in Eh. cbn in Eh.
    apply Nat.ltb_lt in E. rewrite length_app in E. cbn in E. lia.
  - remember (EnhancedPPGProcessor.heartRateHistory b ++ [v]) as h eqn:Eh.
    destruct h; [|reflexivity].
    exfalso. destruct (EnhancedPPGProcessor.heartRateHistory b); discriminate.
Qed.

End SmoothingFacts.

(** Three readings of 100 followed by an estimate of 75: the median processor
    returns 100, the trailing-mean processor 92. *)
Lemma simulated_processors_return_smoothed_heartRate_witness :
  let a := AdvancedPPGProcessor.mkState (mkChannels [] [] [] []) [] []
             [100; 100; 100]%Q in
  let b := EnhancedPPGProcessor.mkState (mkChannels [] [] [] [])
             [100; 100; 100]%Z [] false None in
  snd (AdvancedPPGProcessor.calculateHeartRate (fun _ => Some 75%Q) a)
  = Some 100%Q
  /\ EnhancedPPGProcessor.heartRate
       (snd (EnhancedPPGProcessor.calculateMetrics
               (fun _ => Some 75%Z) (fun _ _ _ => 1%Q) b))
     = Some 92%Z.
Proof.
  cbv zeta.
  destruct (simulated_processors_return_smoothed_heartRate
              (fun _ => Some 75%Q) (fun _ => Some 75%Z) (fun _ _ _ => 1%Q)
              (AdvancedPPGProcessor.mkState (mkChannels [] [] [] []) [] []
                 [100; 100; 100]%Q)
              75%Q
              (EnhancedPPGProcessor.mkState (mkChannels [] [] [] [])
                 [100; 100; 100]%Z [] false None)
              75%Z eq_refl eq_refl)
    as (_ & _ & _ & Ha & _ & Hb).
  - vm_compute. repeat constructor.
  - reflexivity.
  - discriminate.
  - vm_compute. repeat constructor.
  - rewrite Ha, Hb. split; vm_compute; reflexivity.
Defined.

(** ** What a session keeps *)

Section SessionFacts.

Import RealPPGProcessor.

Variables sqrtQ log10Q : Q -> Q.

Lemma clamp_between (lo hi v : Q) :
  (lo <= hi)%Q ->
  (lo <= js_max lo (js_min hi v))%Q /\ (js_max lo (js_min hi v) <= hi)%Q.
Proof.
  intros H.
  destruct (js_min_spec hi v) as [[H1 ->]|[H1 ->]];
    match goal with
    | |- context [js_max lo ?w] =>
        destruct (js_max_spec lo w) as [[H2 ->]|[H2 ->]]
    end; lra.
Qed.

Lemma clamp_inside (lo hi v : Q) :
  (lo <= v)%Q -> (v <= hi)%Q -> (js_max lo (js_min hi v) == v)%Q.
Proof.
  intros Hlo Hhi.
  destruct (js_min_spec hi v) as [[H1 ->]|[H1 ->]];
    match goal with
    | |- context [js_max lo ?w] =>
        destruct (js_max_spec lo w) as [[H2 ->]|[H2 ->]]
    end; lra.
Qed.

Lemma detectFinger_keeps_coherent (out : outcome (option FingerDetector.contour))
  (d : FingerDetector.state) :
  coherent d -> coherent (fst (FingerDetector.detectFinger out d)).
Proof.
  intros H. destruct out as [c|]; [apply detectFinger_coherent, H | exact H].
Qed.

Lemma bounded_push (A : Type) (n : nat) (l : list A) (a : A) :
  length l <= n ->
  length (if n <? length (l ++ [a]) then tl (l ++ [a]) else l ++ [a]) <= n.
Proof.
  intros H. rewrite (push_shift_once n l a H), lastN_length. lia.
Qed.

Lemma Forall_push (A : Type) (P : A -> Prop) (n : nat) (l : list A) (a : A) :
  Forall P l -> P a ->
  Forall P (if n <? length (l ++ [a]) then tl (l ++ [a]) else l ++ [a]).
Proof.
  intros Hl Ha.
  assert (H : Forall P (l ++ [a])) by (apply Forall_app; auto).
  destruct (n <? _); [|exact H].
  destruct (l ++ [a]); [constructor|]. inversion H; assumption.
Qed.

(** In the band of a child of at most seven the heart rate lies between 65
    and 160. *)
Lemma inBand_child (age : Q) (hr : Z) :
  (age <= 7)%Q -> inBand age hr -> (65 <= hr <= 160)%Z.
Proof.
  unfold inBand, ageBand. intros H7 [Hlo Hhi].
  destruct (Qle_bool age 1); [|destruct (Qle_bool age 3);
    [|destruct (Qle_bool age 5); [|destruct (Qle_bool age 7) eqn:E7]]];
    cbn [fst snd] in Hlo, Hhi;
    try (unfold Qle in Hlo, Hhi; cbn [Qnum Qden inject_Z] in Hlo, Hhi; lia).
  apply Qle_bool_false in E7. lra.
Qed.

Lemma recorded_systolic (temp age rnd : Q) (f : PulseFeatures) (hr : Z) :
  (35 <= temp)%Q -> (temp <= 42)%Q -> inBand age hr ->
  (71 <= systolic (bloodPressureFrom temp age rnd f hr) <= 120)%Z.
Proof.
  intros H35 H42 Hb. cbn [bloodPressureFrom systolic].
  destruct (calculateSystolicBP_in_band age f hr Hb) as [Blo Bhi].
  apply compensation_range; unfold inject_Z; try assumption; lra.
Qed.

Ltac project :=
  unfold updateHeartRateHistory, updateBPHistory, addToBuffer, admitted,
    with_heartRateHistory, with_bpHistory, with_signalBuffer,
    with_fingerDetector, with_lastProcessTime, reset;
  cbn [signalBuffer heartRateHistory bpHistory temperature childAge
       fingerDetector lastProcessTime isProcessing fst snd].

Lemma calculateVitalSigns_keeps (e : FrameEnv) (s : state) :
  sessionInvariant s ->
  sessionInvariant (fst (calculateVitalSigns sqrtQ log10Q e s)).
Proof.
  intros I. unfold calculateVitalSigns.
  destruct (raised e CalculateVitalSigns); [exact I|].
  destruct (_ <? minValidSamples); [exact I|]. cbv zeta.
  destruct I as [Hb Hh Hp Ht Ha Hc Hhr Hbp].
  destruct (calculateHeartRate _ _ _) as [hr|] eqn:E.
  - pose proof (calculateHeartRate_in_band _ _ _ _ E) as Hband.
    unfold calculateBloodPressure.
    destruct (hr =? 0)%Z.
    + constructor; assumption.
    + constructor; project; try assumption.
      * apply bounded_push, Hh.
      * apply bounded_push, Hp.
      * apply Forall_push; [exact Hhr|]. apply (inBand_child (childAge s));
          [apply Ha | exact Hband].
      * apply Forall_push; [exact Hbp|].
        apply recorded_systolic; [apply Ht | apply Ht | exact Hband].
  - constructor; assumption.
Qed.

Lemma addToBuffer_keeps (ppgSignal : Sample) (s : state) :
  sessionInvariant s -> sessionInvariant (addToBuffer ppgSignal s).
Proof.
  intros [Hb Hh Hp Ht Ha Hc Hhr Hbp]. constructor; project; try assumption.
  apply bounded_push, Hb.
Qed.

Lemma admitted_keeps (e : FrameEnv) (s : state) :
  sessionInvariant s -> sessionInvariant (admitted e s).
Proof.
  intros [Hb Hh Hp Ht Ha Hc Hhr Hbp]. constructor; project; try assumption.
  apply detectFinger_keeps_coherent, Hc.
Qed.

Lemma with_lastProcessTime_keeps (t : Z) (s : state) :
  sessionInvariant s -> sessionInvariant (with_lastProcessTime t s).
Proof. intros [Hb Hh Hp Ht Ha Hc Hhr Hbp]. constructor; assumption. Qed.

Lemma processFrame_keeps (e : FrameEnv) (s : state) :
  sessionInvariant s ->
  sessionInvariant (fst (processFrame sqrtQ log10Q e s)).
Proof.
  intros I.
  destruct (processFrame_cases sqrtQ log10Q e s)
    as [[_ E]|[(_ & _ & E)|[(_ & _ & E)|[(_ & _ & E)|[(_ & _ & E)|[ppg Hacc]]]]]];
    try (rewrite E; cbn [fst];
         auto using admitted_keeps, with_lastProcessTime_keeps).
  rewrite (processFrame_accepted sqrtQ log10Q e s ppg Hacc). cbv zeta.
  destruct (minValidSamples <=? _); cbn [fst].
  - apply calculateVitalSigns_keeps, addToBuffer_keeps, admitted_keeps, I.
  - apply addToBuffer_keeps, admitted_keeps, I.
Qed.

Lemma clampArgument_between (lo hi : Q) (x : argument) (v : Q) :
  (lo <= hi)%Q -> clampArgument lo hi x = Some v ->
  (lo <= v)%Q /\ (v <= hi)%Q.
Proof.
  intros H E. destruct x as [w| | |]; cbn in E; try discriminate;
    injection E as <-.
  - apply clamp_between, H.
  - destruct (js_max_spec lo hi) as [[_ ->]|[H' ->]]; lra.
  - lra.
Qed.

(** What the app passes is never NaN, so its calls of the setters have a
    next state. *)
Lemma clampArgument_orDefault (lo hi d : Q) (a : argument) :
  clampArgument lo hi (orDefault a d) <> None.
Proof.
  destruct a as [v| | |]; cbn; try discriminate.
  destruct (Qeq_bool v 0); discriminate.
Qed.

(** Session invariant.  In every state a [RealPPGProcessor] reaches from its
    constructor through [processFrame], [calculateVitalSigns],
    [addToBuffer], [setTemperature], [setChildAge] and [reset], under any
    environment and with any argument of the setters that is not NaN (finite
    or infinite; the app passes [parseFloat(temperature) || 37.0] and
    [parseInt(childAge) || 5], for which the setters always have a next
    state): the signal buffer holds at most 300 samples, the heart-rate
    history at most 10 values and the blood-pressure history at most 5; the
    temperature lies in [35, 42] and the age in [0, 7]; the detector's flag is
    set exactly when its counter has reached 5; every recorded heart rate
    lies in [65, 160] and every recorded systolic value in [71, 120]. *)
Theorem session_invariant :
  (forall s : state, realReachable sqrtQ log10Q s -> sessionInvariant s)
  /\ (forall (a : argument) (s : state),
        setTemperature (orDefault a 37) s <> None
        /\ setChildAge (orDefault a 5) s <> None).
Proof.
  split.
  - intros s H.
    induction H as [|e s _ IH|e s _ IH|ppg s _ IH|temp s s' _ IH E
                    |age s s' _ IH E|s _ IH].
    + constructor; cbn; try lia; try (split; discriminate); constructor.
    + apply processFrame_keeps, IH.
    + apply calculateVitalSigns_keeps, IH.
    + apply addToBuffer_keeps, IH.
    + destruct IH as [Hb Hh Hp Ht Ha Hc Hhr Hbp].
      unfold setTemperature in E.
      destruct (clampArgument 35 42 temp) as [t|] eqn:C; [|discriminate].
      injection E as <-.
      constructor; project; try assumption.
      apply (clampArgument_between 35 42 temp t); [discriminate|exact C].
    + destruct IH as [Hb Hh Hp Ht Ha Hc Hhr Hbp].
      unfold setChildAge in E.
      destruct (clampArgument 0 7 age) as [a|] eqn:C; [|discriminate].
      injection E as <-.
      constructor; project; try assumption.
      apply (clampArgument_between 0 7 age a); [discriminate|exact C].
    + destruct IH as [Hb Hh Hp Ht Ha Hc Hhr Hbp].
      constructor; project; try assumption; cbn; try lia; constructor.
  - intros a s. unfold setTemperature, setChildAge. split.
    + pose proof (clampArgument_orDefault 35 42 37 a) as H.
      destruct (clampArgument 35 42 (orDefault a 37)); [discriminate|].
      congruence.
    + pose proof (clampArgument_orDefault 0 7 5 a) as H.
      destruct (clampArgument 0 7 (orDefault a 5)); [discriminate|].
      congruence.
Qed.

End SessionFacts.

(** A session that processes one frame and is then configured with an age of
    10 and an infinite temperature. *)
Lemma session_invariant_witness :
  exists s1 s2 : RealPPGProcessor.state,
    RealPPGProcessor.setChildAge (RealPPGProcessor.Finite 10)
      (fst (RealPPGProcessor.processFrame (fun v => v) (fun v => v)
              (goodFrame None) RealPPGProcessor.init)) = Some s1
    /\ RealPPGProcessor.setTemperature RealPPGProcessor.PlusInfinity s1
       = Some s2
    /\ RealPPGProcessor.temperature s2 = 42%Q
    /\ RealPPGProcessor.childAge s2 = 7%Q
    /\ FingerDetector.consecutiveDetections
         (RealPPGProcessor.fingerDetector s2) = 1
    /\ sessionInvariant s2.
Proof.
  set (s0 := fst (RealPPGProcessor.processFrame (fun v => v) (fun v => v)
                    (goodFrame None) RealPPGProcessor.init)).
  destruct (RealPPGProcessor.setChildAge (RealPPGProcessor.Finite 10) s0)
    as [s1|] eqn:E1; [|discriminate E1].
  destruct (RealPPGProcessor.setTemperature RealPPGProcessor.PlusInfinity s1)
    as [s2|] eqn:E2; [|discriminate E2].
  exists s1, s2. split; [reflexivity|]. split; [exact E2|].
  assert (R : realReachable (fun v => v) (fun v => v) s2).
  { apply (real_setTemperature _ _ RealPPGProcessor.PlusInfinity s1 s2);
      [|exact E2].
    apply (real_setChildAge _ _ (RealPPGProcessor.Finite 10) s0 s1);
      [|exact E1].
    apply real_processFrame, real_new. }
  injection E2 as <-. injection E1 as <-.
  split; [reflexivity|]. split; [reflexivity|]. split; [reflexivity|].
  exact (proj1 (session_invariant (fun v => v) (fun v => v)) _ R).
Defined.

(** ** What a caller can rely on from one call *)

Section CallContract.

Import RealPPGProcessor.

Variables sqrtQ log10Q : Q -> Q.

Lemma calculateConfidence_range (signal : list Q) (heartRate : option Z) :
  (0 <= calculateConfidence sqrtQ log10Q signal heartRate)%Q
  /\ (calculateConfidence sqrtQ log10Q signal heartRate <= 1)%Q.
Proof.
  unfold calculateConfidence. cbv zeta.
  match goal with
  | |- context [js_min 1 (js_max 0 ?t)] => set (c := t); clearbody c
  end.
  destruct (js_max_spec 0 c) as [[H1 ->]|[H1 ->]];
    match goal with
    | |- context [js_min 1 ?w] =>
        destruct (js_min_spec 1 w) as [[H2 ->]|[H2 ->]]
    end; lra.
Qed.

(** What [calculateVitalSigns] returns on a full window. *)
Lemma calculateVitalSigns_result (e : FrameEnv) (s : state) :
  minValidSamples <= length (signalBuffer s) ->
  let vs := snd (calculateVitalSigns sqrtQ log10Q e s) in
  (0 <= vsConfidence vs)%Q /\ (vsConfidence vs <= 1)%Q
  /\ vsQuality vs <> insufficient_data
  /\ vsQuality vs <> collecting
  /\ (forall hr, vsHeartRate vs = Some hr -> inBand (childAge s) hr)
  /\ (vsHeartRate vs = None -> vsBloodPressure vs = None).
Proof.
  intros Hn. unfold calculateVitalSigns.
  destruct (raised e CalculateVitalSigns).
  { cbn. repeat split; try discriminate; lra. }
  destruct (Nat.ltb_spec (length (signalBuffer s)) minValidSamples) as [H|_];
    [lia|].
  cbv zeta. cbn [snd vsConfidence vsQuality vsHeartRate vsBloodPressure].
  match goal with
  | |- context [calculateConfidence sqrtQ log10Q ?sig ?hr] =>
      destruct (calculateConfidence_range sig hr) as [C0 C1]
  end.
  split; [exact C0|]. split; [exact C1|].
  split; [|split; [|split]].
  - unfold assessSignalQuality.
    repeat match goal with |- context [if ?c then _ else _] => destruct c end;
      discriminate.
  - unfold assessSignalQuality.
    repeat match goal with |- context [if ?c then _ else _] => destruct c end;
      discriminate.
  - intros hr E. apply (calculateHeartRate_in_band _ _ _ _ E).
  - intros E. rewrite E. reflexivity.
Qed.

Lemma lastProcessTime_after (e : FrameEnv) (s : state) :
  ~ throttled e s ->
  lastProcessTime (fst (processFrame sqrtQ log10Q e s)) = now e.
Proof.
  intros Ht.
  destruct (processFrame_cases sqrtQ log10Q e s)
    as [[T _]|[(_ & _ & E)|[(_ & _ & E)|[(_ & _ & E)|[(_ & _ & E)|[ppg Hacc]]]]]];
    [contradiction|rewrite E; reflexivity..|].
  rewrite (processFrame_accepted sqrtQ log10Q e s ppg Hacc). cbv zeta.
  destruct (minValidSamples <=? _); cbn [fst]; [|reflexivity].
  destruct (calculateVitalSigns_frame sqrtQ log10Q e
              (addToBuffer ppg (admitted e s))) as (_ & _ & _ & _ & E).
  rewrite E. reflexivity.
Qed.

(** Throttle.  After a call that passed the throttle at clock value [t], the
    throttle clock is [t], and every call whose clock value is less than 33 ms
    later returns null and leaves the whole state as it is. *)
Theorem throttle_drops_close_frames :
  forall (e e2 : FrameEnv) (s : state),
    ~ throttled e s ->
    (now e2 - now e < processingInterval)%Z ->
    let s1 := fst (processFrame sqrtQ log10Q e s) in
    lastProcessTime s1 = now e
    /\ processFrame sqrtQ log10Q e2 s1 = (s1, None).
Proof.
  intros e e2 s Ht Hclose. cbv zeta.
  pose proof (lastProcessTime_after e s Ht) as E.
  split; [exact E|].
  apply processFrame_throttled. unfold throttled. rewrite E. exact Hclose.
Qed.

Lemma not_accepted_when (e : FrameEnv) (s : state) :
  throttled e s
  \/ extractImageData e = None
  \/ FingerDetector.detected (snd (detectionOf e s)) = false
  \/ (exists imageData : list Z,
         extractImageData e = Some imageData
         /\ extractPPGSignal e imageData
              (FingerDetector.found (snd (detectionOf e s))) = None)
  \/ raised e AddToBuffer = true ->
  forall ppgSignal : Sample, ~ accepted e s ppgSignal.
Proof.
  intros H ppg (Ht & Hadd & Hdet & imageData & Hi & Hp).
  destruct H as [H|[H|[H|[(img & Hi' & Hp')|H]]]]; congruence.
Qed.

(** The buffer moves only with an accepted frame.  Every call of
    [processFrame] either accepts the frame, and then the signal buffer is
    the old one with exactly that frame's sample appended (the oldest one
    evicted at capacity) and the result reports the finger as detected; or it
    does not, and then the signal buffer and both histories are what they
    were and the result is null or reports the finger as not detected. *)
Theorem buffer_moves_only_on_accepted_frames :
  forall (e : FrameEnv) (s : state),
    let r := processFrame sqrtQ log10Q e s in
    (exists ppgSignal : Sample,
        accepted e s ppgSignal
        /\ signalBuffer (fst r) = signalBuffer (addToBuffer ppgSignal s)
        /\ exists res : Result,
             snd r = Some res /\ resultFingerDetected res = true)
    \/ ((forall ppgSignal : Sample, ~ accepted e s ppgSignal)
        /\ signalBuffer (fst r) = signalBuffer s
        /\ heartRateHistory (fst r) = heartRateHistory s
        /\ bpHistory (fst r) = bpHistory s
        /\ (snd r = None
            \/ exists res : Result,
                 snd r = Some res /\ resultFingerDetected res = false)).
Proof.
  intros e s. cbv zeta.
  destruct (processFrame_cases sqrtQ log10Q e s)
    as [[T E]|[(_ & Hi & E)|[(_ & Hd & E)|[(_ & Hx & E)|[(_ & Hf & E)|[ppg Hacc]]]]]].
  - right. rewrite E. split; [apply not_accepted_when; auto|]. cbn. auto 6.
  - right. rewrite E. split; [apply not_accepted_when; auto|]. cbn. auto 6.
  - right. rewrite E. split; [apply not_accepted_when; auto|]. cbn.
    repeat split; try reflexivity. right. eexists. split; reflexivity.
  - right. rewrite E. split.
    + apply not_accepted_when. destruct Hx as (img & Hi & _ & Hp).
      right. right. right. left. exists img. auto.
    + cbn. auto 6.
  - right. rewrite E. split; [apply not_accepted_when; auto 6|]. cbn.
    repeat split; try reflexivity. right. eexists. split; reflexivity.
  - left. exists ppg. split; [exact Hacc|].
    rewrite (processFrame_accepted sqrtQ log10Q e s ppg Hacc). cbv zeta.
    destruct (minValidSamples <=? _); cbn [fst snd].
    + destruct (calculateVitalSigns_frame sqrtQ log10Q e
                  (addToBuffer ppg (admitted e s))) as (Eb & _).
      rewrite Eb. split; [reflexivity|]. eexists. split; reflexivity.
    + split; [reflexivity|]. eexists. split; reflexivity.
Qed.

(** Result contract.  Every object [processFrame] returns has a confidence in
    [0, 1] and a quality other than ['insufficient_data']; a heart rate it
    carries lies in the band of the configured age; an object that reports
    the finger as not detected or the quality as ['collecting'] carries no
    heart rate, and a not-detected object has confidence 0. *)
Theorem processFrame_result_contract :
  forall (e : FrameEnv) (s : state) (res : Result),
    snd (processFrame sqrtQ log10Q e s) = Some res ->
    (0 <= resultConfidence res)%Q /\ (resultConfidence res <= 1)%Q
    /\ resultQuality res <> insufficient_data
    /\ (forall hr : Z, resultHeartRate res = Some hr -> inBand (childAge s) hr)
    /\ (resultHeartRate res = None -> resultBloodPressure res = None)
    /\ (resultFingerDetected res = false ->
        resultHeartRate res = None /\ resultConfidence res = 0%Q)
    /\ (resultQuality res = collecting -> resultHeartRate res = None).
Proof.
  intros e s res E.
  destruct (processFrame_cases sqrtQ log10Q e s)
    as [[_ E']|[(_ & _ & E')|[(_ & _ & E')|[(_ & _ & E')|[(_ & _ & E')|[ppg Hacc]]]]]];
    try (rewrite E' in E; cbn [snd] in E; try discriminate;
         injection E as <-; cbn;
         repeat split; try discriminate; try reflexivity; lra).
  rewrite (processFrame_accepted sqrtQ log10Q e s ppg Hacc) in E.
  cbv zeta in E.
  destruct (Nat.leb_spec minValidSamples
              (length (signalBuffer (addToBuffer ppg (admitted e s)))))
    as [Hn|Hn]; cbn [snd] in E; injection E as <-.
  - destruct (calculateVitalSigns_result e (addToBuffer ppg (admitted e s)) Hn)
      as (C0 & C1 & Q1 & Q2 & Hhr & Hbp).
    unfold estimateResult.
    cbn [resultConfidence resultQuality resultHeartRate resultBloodPressure
         resultFingerDetected].
    split; [exact C0|]. split; [exact C1|]. split; [exact Q1|].
    split; [intros hr H; exact (Hhr hr H)|]. split; [exact Hbp|].
    split; [discriminate|]. intros Hq. contradiction.
  - destruct (progress_below_one _ Hn) as [C0 C1]. cbn.
    repeat split; try discriminate; try reflexivity; try assumption.
    apply Qlt_le_weak, C1.
Qed.

End CallContract.

(** A frame at clock value 1000 on a new processor, then one 20 ms later. *)
Lemma throttle_drops_close_frames_witness :
  let e := goodFrame None in
  let e2 := RealPPGProcessor.mkEnv 1020 (Some (2, 2)) (Some [(0, 0)%Z])
              (Some sample0) (1 # 2) None in
  let s1 := fst (RealPPGProcessor.processFrame (fun v => v) (fun v => v) e
                   RealPPGProcessor.init) in
  ~ throttled e RealPPGProcessor.init
  /\ RealPPGProcessor.lastProcessTime s1 = 1000%Z
  /\ RealPPGProcessor.processFrame (fun v => v) (fun v => v) e2 s1 = (s1, None).
Proof.
  cbv zeta.
  assert (Ht : ~ throttled (goodFrame None) RealPPGProcessor.init).
  { unfold throttled, RealPPGProcessor.processingInterval. cbn. lia. }
  split; [exact Ht|].
  apply (throttle_drops_close_frames (fun v => v) (fun v => v)
           (goodFrame None)
           (RealPPGProcessor.mkEnv 1020 (Some (2, 2)) (Some [(0, 0)%Z])
              (Some sample0) (1 # 2) None)
           RealPPGProcessor.init Ht).
  unfold RealPPGProcessor.processingInterval. cbn. lia.
Defined.

(** The first accepted frame of a measurement: a progress object. *)
Lemma processFrame_result_contract_witness :
  let res := RealPPGProcessor.Status true "Collecting data... 1/90" (1 / 90)
               RealPPGProcessor.collecting in
  snd (RealPPGProcessor.processFrame (fun v => v) (fun v => v)
         (goodFrame None) (fingerOn 0)) = Some res
  /\ (RealPPGProcessor.resultConfidence res <= 1)%Q
  /\ RealPPGProcessor.resultHeartRate res = None.
Proof.
  cbv zeta.
  assert (E : snd (RealPPGProcessor.processFrame (fun v => v) (fun v => v)
                     (goodFrame None) (fingerOn 0))
              = Some (RealPPGProcessor.Status true "Collecting data... 1/90"
                        (1 / 90) RealPPGProcessor.collecting))
    by reflexivity.
  split; [exact E|].
  destruct (processFrame_result_contract (fun v => v) (fun v => v)
              (goodFrame None) (fingerOn 0) _ E)
    as (_ & C1 & _ & _ & _ & _ & Hq).
  split; [exact C1|]. apply Hq. reflexivity.
Defined.

(** ** Signal conditioning and peak detection *)

Section SignalFacts.

Import RealPPGProcessor.

Lemma fold_js_min_le (rest : list Q) (v : Q) :
  (fold_left js_min rest v <= v)%Q
  /\ Forall (fun w => (fold_left js_min rest v <= w)%Q) rest.
Proof.
  revert v. induction rest as [|a rest IH]; intros v; cbn [fold_left].
  - split; [lra|constructor].
  - destruct (IH (js_min v a)) as [H1 H2].
    destruct (js_min_spec v a) as [[H E]|[H E]]; rewrite E in *.
    + split; [exact H1|]. constructor; [lra|exact H2].
    + split; [lra|]. constructor; [exact H1|exact H2].
Qed.

Lemma fold_js_max_ge (rest : list Q) (v : Q) :
  (v <= fold_left js_max rest v)%Q
  /\ Forall (fun w => (w <= fold_left js_max rest v)%Q) rest.
Proof.
  revert v. induction rest as [|a rest IH]; intros v; cbn [fold_left].
  - split; [lra|constructor].
  - destruct (IH (js_max v a)) as [H1 H2].
    destruct (js_max_spec v a) as [[H E]|[H E]]; rewrite E in *.
    + split; [lra|]. constructor; [exact H1|exact H2].
    + split; [exact H1|]. constructor; [lra|exact H2].
Qed.

Lemma fold_js_min_in (rest : list Q) (v : Q) :
  fold_left js_min rest v = v \/ In (fold_left js_min rest v) rest.
Proof.
  revert v. induction rest as [|a rest IH]; intros v; cbn [fold_left].
  - left. reflexivity.
  - destruct (IH (js_min v a)) as [H|H].
    + rewrite H.
      destruct (js_min_spec v a) as [[_ E]|[_ E]]; rewrite E;
        [left; reflexivity | right; left; reflexivity].
    + right. right. exact H.
Qed.

Lemma fold_js_max_in (rest : list Q) (v : Q) :
  fold_left js_max rest v = v \/ In (fold_left js_max rest v) rest.
Proof.
  revert v. induction rest as [|a rest IH]; intros v; cbn [fold_left].
  - left. reflexivity.
  - destruct (IH (js_max v a)) as [H|H].
    + rewrite H.
      destruct (js_max_spec v a) as [[_ E]|[_ E]]; rewrite E;
        [right; left; reflexivity | left; reflexivity].
    + right. right. exact H.
Qed.

Lemma minimum_le (l : list Q) : Forall (fun w => (minimum l <= w)%Q) l.
Proof.
  destruct l as [|v rest]; [constructor|]. unfold minimum.
  destruct (fold_js_min_le rest v) as [H1 H2]. constructor; assumption.
Qed.

Lemma maximum_ge (l : list Q) : Forall (fun w => (w <= maximum l)%Q) l.
Proof.
  destruct l as [|v rest]; [constructor|]. unfold maximum.
  destruct (fold_js_max_ge rest v) as [H1 H2]. constructor; assumption.
Qed.

Lemma minimum_in (l : list Q) : l <> [] -> In (minimum l) l.
Proof.
  destruct l as [|v rest]; [congruence|]. intros _. unfold minimum.
  destruct (fold_js_min_in rest v) as [H|H]; [left; symmetry; exact H|].
  right. exact H.
Qed.

Lemma maximum_in (l : list Q) : l <> [] -> In (maximum l) l.
Proof.
  destruct l as [|v rest]; [congruence|]. intros _. unfold maximum.
  destruct (fold_js_max_in rest v) as [H|H]; [left; symmetry; exact H|].
  right. exact H.
Qed.

Lemma minimum_le_maximum (l : list Q) : (minimum l <= maximum l)%Q.
Proof.
  destruct l as [|v rest]; [cbn; lra|].
  pose proof (minimum_le (v :: rest)) as H1.
  pose proof (maximum_ge (v :: rest)) as H2.
  inversion H1; inversion H2; subst. lra.
Qed.

(** The extremes of an array all of whose members are equal to [c]. *)
Lemma minimum_flat (l : list Q) (c : Q) :
  l <> [] -> Forall (fun v => (v == c)%Q) l -> (minimum l == c)%Q.
Proof.
  intros Hl H. rewrite Forall_forall in H. apply H, minimum_in, Hl.
Qed.

Lemma maximum_flat (l : list Q) (c : Q) :
  l <> [] -> Forall (fun v => (v == c)%Q) l -> (maximum l == c)%Q.
Proof.
  intros Hl H. rewrite Forall_forall in H. apply H, maximum_in, Hl.
Qed.

Lemma normalizeSignal_length (signal : list Q) :
  length (normalizeSignal signal) = length signal.
Proof.
  unfold normalizeSignal. destruct (Qeq_bool _ _); apply length_map.
Qed.

(** The two branches of [normalizeSignal]. *)
Lemma normalizeSignal_cases (signal : list Q) :
  ((maximum signal == minimum signal)%Q
   /\ normalizeSignal signal = map (fun _ => (1 # 2)%Q) signal)
  \/ ((minimum signal < maximum signal)%Q
      /\ normalizeSignal signal
         = map (fun val => ((val - minimum signal)
                            / (maximum signal - minimum signal))%Q) signal).
Proof.
  unfold normalizeSignal. cbv zeta.
  destruct (Qeq_bool (maximum signal - minimum signal) 0) eqn:E.
  - left. apply Qeq_bool_iff in E. split; [lra|reflexivity].
  - right. split; [|reflexivity].
    pose proof (minimum_le_maximum signal) as H.
    destruct (Qlt_le_dec (minimum signal) (maximum signal)) as [L|L];
      [exact L|].
    assert (Z : (maximum signal - minimum signal == 0)%Q) by lra.
    apply Qeq_bool_iff in Z. congruence.
Qed.

Lemma scaled_in_unit (lo hi v : Q) :
  (lo < hi)%Q -> (lo <= v)%Q -> (v <= hi)%Q ->
  inUnit ((v - lo) / (hi - lo))%Q.
Proof.
  intros H Hlo Hhi. split.
  - apply Qle_shift_div_l; lra.
  - apply Qle_shift_div_r; lra.
Qed.

Lemma sameNumbers_map (g : Q -> Q) (l : list Q) :
  (forall v, In v l -> (g v == v)%Q) -> sameNumbers (map g l) l.
Proof.
  unfold sameNumbers. induction l as [|a l IH]; intros H; cbn [map].
  - constructor.
  - constructor; [apply H; left; reflexivity|].
    apply IH. intros v Hv. apply H. right. exact Hv.
Qed.

Lemma scaled_member (signal : list Q) (v : Q) :
  (minimum signal < maximum signal)%Q -> In v signal ->
  inUnit ((v - minimum signal) / (maximum signal - minimum signal))%Q.
Proof.
  intros Hlt Hv. apply scaled_in_unit; [exact Hlt| |].
  - pose proof (minimum_le signal) as H. rewrite Forall_forall in H.
    apply H, Hv.
  - pose proof (maximum_ge signal) as H. rewrite Forall_forall in H.
    apply H, Hv.
Qed.

Lemma normalizeSignal_in_unit (signal : list Q) :
  Forall inUnit (normalizeSignal signal).
Proof.
  destruct (normalizeSignal_cases signal) as [[Heq E]|[Hlt E]]; rewrite E;
    apply Forall_forall; intros v Hv; apply in_map_iff in Hv.
  - destruct Hv as (_ & <- & _). split; lra.
  - destruct Hv as (w & <- & Hw). apply scaled_member; assumption.
Qed.

Lemma normalizeSignal_extremes (signal : list Q) :
  (minimum signal < maximum signal)%Q ->
  (minimum (normalizeSignal signal) == 0)%Q
  /\ (maximum (normalizeSignal signal) == 1)%Q.
Proof.
  intros Hlt.
  destruct (normalizeSignal_cases signal) as [[Heq E]|[_ E]]; [lra|].
  rewrite E.
  set (lo := minimum signal) in *. set (hi := maximum signal) in *.
  set (f := fun val => ((val - lo) / (hi - lo))%Q).
  assert (Hin : forall v, In v signal -> inUnit (f v))
    by (intros v Hv; apply (scaled_member signal v Hlt Hv)).
  assert (Hne : signal <> []).
  { intros ->. subst lo hi. cbn in Hlt. lra. }
  assert (Hne' : map f signal <> []).
  { destruct signal; [congruence|discriminate]. }
  split.
  - apply Qle_antisym.
    + pose proof (minimum_le (map f signal)) as H.
      rewrite Forall_forall in H.
      assert (H0 : (f lo == 0)%Q) by (unfold f; field; lra).
      rewrite <- H0. apply H, in_map, minimum_in, Hne.
    + pose proof (minimum_in (map f signal) Hne') as H.
      apply in_map_iff in H. destruct H as (w & <- & Hw).
      apply (Hin w Hw).
  - apply Qle_antisym.
    + pose proof (maximum_in (map f signal) Hne') as H.
      apply in_map_iff in H. destruct H as (w & <- & Hw).
      apply (Hin w Hw).
    + pose proof (maximum_ge (map f signal)) as H.
      rewrite Forall_forall in H.
      assert (H1 : (f hi == 1)%Q) by (unfold f; field; lra).
      rewrite <- H1. apply H, in_map, maximum_in, Hne.
Qed.

(** Normalisation.  [normalizeSignal] keeps the length of the array and puts
    every sample in [0, 1]; unless all samples are equal, the smallest
    sample of the result is 0 and the largest 1. *)
Theorem normalizeSignal_unit_range :
  forall signal : list Q,
    let normalized := normalizeSignal signal in
    length normalized = length signal
    /\ Forall inUnit normalized
    /\ ((minimum signal < maximum signal)%Q ->
        (minimum normalized == 0)%Q /\ (maximum normalized == 1)%Q).
Proof.
  intros signal. cbv zeta.
  split; [apply normalizeSignal_length|].
  split; [apply normalizeSignal_in_unit|].
  apply normalizeSignal_extremes.
Qed.

(** Normalising twice is normalising once: the second pass leaves every
    sample at its value. *)
Theorem normalizeSignal_idempotent :
  forall signal : list Q,
    sameNumbers (normalizeSignal (normalizeSignal signal))
                (normalizeSignal signal).
Proof.
  intros signal.
  destruct (normalizeSignal_cases signal) as [[Heq E]|[Hlt E]].
  - rewrite E.
    destruct signal as [|a signal]; [constructor|].
    set (l := map (fun _ : Q => (1 # 2)%Q) (a :: signal)).
    assert (Hl : l <> []) by discriminate.
    assert (Hflat : Forall (fun v => (v == 1 # 2)%Q) l).
    { apply Forall_forall. intros v Hv. apply in_map_iff in Hv.
      destruct Hv as (_ & <- & _). reflexivity. }
    destruct (normalizeSignal_cases l) as [[_ E']|[Hlt' _]].
    + rewrite E'. apply sameNumbers_map. intros v Hv.
      rewrite Forall_forall in Hflat. symmetry. apply Hflat, Hv.
    + rewrite (minimum_flat l _ Hl Hflat), (maximum_flat l _ Hl Hflat) in Hlt'.
      lra.
  - destruct (normalizeSignal_extremes signal Hlt) as [H0 H1].
    destruct (normalizeSignal_cases (normalizeSignal signal))
      as [[Heq' _]|[_ E']]; [lra|].
    rewrite E'. apply sameNumbers_map. intros v _.
    rewrite H0, H1. field.
Qed.

End SignalFacts.

(** ** What [findPeaks] records *)

Section PeakFacts.

Import RealPPGProcessor.

Lemma findPeaks_step_cases (signal timestamps : list Q) (peaks : list Peak)
  (i : nat) :
  findPeaks_step signal timestamps peaks i = peaks
  \/ (findPeaks_step signal timestamps peaks i
      = peaks ++ [mkPeak i (nth i timestamps 0%Q) (nth i signal 0%Q)]
      /\ (nth (i - 1) signal 0 < nth i signal 0)%Q
      /\ (nth (i + 1) signal 0 < nth i signal 0)%Q
      /\ (6 # 10 < nth i signal 0)%Q).
Proof.
  unfold findPeaks_step. cbv zeta.
  destruct (ltb (nth (i - 1) signal 0%Q) (nth i signal 0%Q)) eqn:E1;
    [|left; reflexivity].
  destruct (ltb (nth (i + 1) signal 0%Q) (nth i signal 0%Q)) eqn:E2;
    [|left; reflexivity].
  destruct (ltb (6 # 10) (nth i signal 0%Q)) eqn:E3; [|left; reflexivity].
  cbn [andb].
  apply ltb_lt in E1. apply ltb_lt in E2. apply ltb_lt in E3.
  destruct (match lastPeak peaks with
            | Some p => Qle_bool (3 # 10) (nth i timestamps 0 - peakTime p)%Q
            | None => true
            end); [right; auto|left; reflexivity].
Qed.

(** On an empty list of peaks a qualifying index is always recorded. *)
Lemma findPeaks_step_first (signal timestamps : list Q) (i : nat) :
  (nth (i - 1) signal 0 < nth i signal 0)%Q ->
  (nth (i + 1) signal 0 < nth i signal 0)%Q ->
  (6 # 10 < nth i signal 0)%Q ->
  findPeaks_step signal timestamps [] i <> [].
Proof.
  intros H1 H2 H3. unfold findPeaks_step. cbv zeta.
  apply ltb_lt in H1. apply ltb_lt in H2. apply ltb_lt in H3.
  rewrite H1, H2, H3. cbn. discriminate.
Qed.

Lemma findPeaks_step_keeps (signal timestamps : list Q) (peaks : list Peak)
  (i : nat) :
  peaks <> [] -> findPeaks_step signal timestamps peaks i <> [].
Proof.
  intros H.
  destruct (findPeaks_step_cases signal timestamps peaks i) as [E|[E _]];
    rewrite E; [exact H|].
  destruct peaks; discriminate.
Qed.

Lemma findPeaks_fold_keeps (signal timestamps : list Q) (idx : list nat)
  (peaks : list Peak) :
  peaks <> [] ->
  fold_left (findPeaks_step signal timestamps) idx peaks <> [].
Proof.
  revert peaks. induction idx as [|i idx IH]; intros peaks H; [exact H|].
  cbn [fold_left]. apply IH, findPeaks_step_keeps, H.
Qed.

Lemma sorted_snoc (l : list nat) (i : nat) :
  StronglySorted lt l -> Forall (fun j => j < i) l ->
  StronglySorted lt (l ++ [i]).
Proof.
  intros Hs. induction Hs as [|a l Hs IH Ha]; intros H; cbn [app].
  - constructor; constructor.
  - inversion H as [|? ? Hai Hl]; subst.
    constructor; [apply IH, Hl|].
    apply Forall_app. split; [exact Ha|]. constructor; [exact Hai|constructor].
Qed.

(** The invariant of the loop of [findPeaks] over the indices
    [a, a + len). *)
Lemma findPeaks_fold_sound (signal timestamps : list Q) (len a : nat)
  (peaks : list Peak) :
  1 <= a -> a + len + 1 <= length signal ->
  Forall (localMaximum signal timestamps) peaks ->
  Forall (fun p => index p < a) peaks ->
  StronglySorted lt (map index peaks) ->
  let r := fold_left (findPeaks_step signal timestamps) (seq a len) peaks in
  Forall (localMaximum signal timestamps) r
  /\ StronglySorted lt (map index r).
Proof.
  revert a peaks. induction len as [|len IH]; intros a peaks Ha Hlen H1 H2 H3.
  - cbn. split; assumption.
  - cbn [seq fold_left]. cbv zeta.
    destruct (findPeaks_step_cases signal timestamps peaks a)
      as [E|(E & L1 & L2 & L3)]; rewrite E.
    + apply IH; [lia|lia|exact H1| |exact H3].
      eapply Forall_impl; [|exact H2]. cbn. intros p Hp. lia.
    + apply IH; [lia|lia| | |].
      * apply Forall_app. split; [exact H1|].
        constructor; [|constructor].
        unfold localMaximum. cbn [index peakValue peakTime].
        repeat split; try assumption; lia.
      * apply Forall_app. split.
        -- eapply Forall_impl; [|exact H2]. cbn. intros p Hp. lia.
        -- constructor; [cbn; lia|constructor].
      * rewrite map_app. cbn [map index]. apply sorted_snoc; [exact H3|].
        apply Forall_forall. intros j Hj. apply in_map_iff in Hj.
        destruct Hj as (p & <- & Hp). rewrite Forall_forall in H2.
        apply H2, Hp.
Qed.

Lemma findPeaks_fold_none (signal timestamps : list Q) (len a i : nat) :
  fold_left (findPeaks_step signal timestamps) (seq a len) [] = [] ->
  a <= i < a + len ->
  ~ ((nth (i - 1) signal 0 < nth i signal 0)%Q
     /\ (nth (i + 1) signal 0 < nth i signal 0)%Q
     /\ (6 # 10 < nth i signal 0)%Q).
Proof.
  revert a. induction len as [|len IH]; intros a E Hi; [lia|].
  cbn [seq fold_left] in E.
  destruct (findPeaks_step signal timestamps [] a) as [|p ps] eqn:Ea.
  - destruct (Nat.eq_dec i a) as [->|Hne].
    + intros (L1 & L2 & L3).
      exact (findPeaks_step_first signal timestamps a L1 L2 L3 Ea).
    + apply (IH (S a) E). lia.
  - exfalso.
    apply (findPeaks_fold_keeps signal timestamps (seq (S a) len) (p :: ps));
      [discriminate|exact E].
Qed.

(** Peak detection is sound.  Every peak [findPeaks] returns is a strict
    local maximum of the signal above 0.6 at an interior index, carrying the
    value and the time stamp of that index; the peaks come in increasing
    order of index; consecutive ones are at least 0.3 apart in time; and the
    result is empty only if no interior index is such a maximum. *)
Theorem findPeaks_sound :
  forall signal timestamps : list Q,
    let peaks := findPeaks signal timestamps in
    Forall (localMaximum signal timestamps) peaks
    /\ StronglySorted lt (map index peaks)
    /\ Forall (fun d => (3 # 10 <= d)%Q) (intervalsOf peaks)
    /\ (peaks = [] ->
        forall i : nat,
          1 <= i -> i + 1 < length signal ->
          ~ ((nth (i - 1) signal 0 < nth i signal 0)%Q
             /\ (nth (i + 1) signal 0 < nth i signal 0)%Q
             /\ (6 # 10 < nth i signal 0)%Q)).
Proof.
  intros signal timestamps. cbv zeta.
  destruct (Nat.le_gt_cases (length signal) 2) as [Hshort|Hlong].
  - assert (E : findPeaks signal timestamps = []).
    { unfold findPeaks. replace (length signal - 2) with 0 by lia.
      reflexivity. }
    rewrite E. cbn.
    repeat split; try constructor. intros _ i H1 H2. lia.
  - destruct (findPeaks_fold_sound signal timestamps (length signal - 2) 1 []
                (le_n 1) ltac:(lia) (Forall_nil _) (Forall_nil _)
                (SSorted_nil lt))
      as [S1 S2].
    split; [exact S1|]. split; [exact S2|].
    split; [apply findPeaks_spacing|].
    intros E i H1 H2.
    apply (findPeaks_fold_none signal timestamps (length signal - 2) 1 i E).
    lia.
Qed.

End PeakFacts.

(** ** Pulse pressure *)

Section PulsePressureFacts.

Import RealPPGProcessor.

(** [Math.round(v)] is the integer [z] with [z <= v + 1/2 < z + 1]. *)
Lemma js_round_bounds (v : Q) :
  (inject_Z (js_round v) <= v + (1 # 2))%Q
  /\ (v + (1 # 2) < inject_Z (js_round v) + 1)%Q.
Proof.
  unfold js_round. split; [apply Qfloor_le|].
  pose proof (Qlt_floor (v + (1 # 2))) as H.
  rewrite inject_Z_plus in H. exact H.
Qed.


End PulsePressureFacts.


(** ** The display signal *)

Section DisplayFacts.

Import RealPPGProcessor.

Variables sqrtQ log10Q : Q -> Q.

Lemma combine_seq_fst {A : Type} (l : list A) (a : nat) :
  map fst (combine (seq a (length l)) l) = seq a (length l).
Proof.
  revert a. induction l as [|v l IH]; intros a; [reflexivity|].
  cbn [length seq combine map fst]. rewrite IH. reflexivity.
Qed.

Lemma combine_seq_snd {A : Type} (l : list A) (a : nat) :
  map snd (combine (seq a (length l)) l) = l.
Proof.
  revert a. induction l as [|v l IH]; intros a; [reflexivity|].
  cbn [length seq combine map snd]. rewrite IH. reflexivity.
Qed.

(** The points of [getDisplaySignal] are the last 60 samples, numbered from
    0. *)
Lemma getDisplaySignal_window (e : FrameEnv) (s : state) :
  raised e GetDisplaySignal = false ->
  let recent := lastN 60 (signalBuffer s) in
  let d := getDisplaySignal e s in
  map x d = seq 0 (length recent)
  /\ map y d = map value recent
  /\ map at_time d = map timestamp recent.
Proof.
  intros H. cbv zeta. unfold getDisplaySignal. rewrite H.
  cbn [tryCatch]. cbv zeta.
  set (recent := lastN 60 (signalBuffer s)). clearbody recent.
  rewrite !map_map. cbn [x y at_time].
  split; [apply combine_seq_fst|].
  split.
  - transitivity (map value (map snd (combine (seq 0 (length recent)) recent)));
      [rewrite map_map; reflexivity|rewrite combine_seq_snd; reflexivity].
  - transitivity
      (map timestamp (map snd (combine (seq 0 (length recent)) recent)));
      [rewrite map_map; reflexivity|rewrite combine_seq_snd; reflexivity].
Qed.

Lemma lastN_tl {A : Type} (n : nat) (l : list A) :
  n < length l -> lastN n (tl l) = lastN n l.
Proof.
  intros H. unfold lastN. destruct l as [|a l]; [reflexivity|].
  cbn [tl length] in *.
  replace (S (length l) - n) with (S (length l - n)) by lia. reflexivity.
Qed.

(** The estimate shows the newest samples.  When an accepted frame brings
    the buffer to 90 samples or more and the display stage raises no
    exception, the object returned carries exactly 60 display points,
    numbered 0 to 59, whose values and time stamps are those of the last 60
    samples of the buffer with the frame's sample appended: the last point
    is the sample just taken. *)
Theorem estimate_displays_latest_samples :
  forall (e : FrameEnv) (s : state) (ppgSignal : Sample),
    accepted e s ppgSignal ->
    minValidSamples <= S (length (signalBuffer s)) ->
    raised e GetDisplaySignal = false ->
    exists res : Result,
      snd (processFrame sqrtQ log10Q e s) = Some res
      /\ let recent := lastN 60 (signalBuffer s ++ [ppgSignal]) in
         map x (resultSignalData res) = seq 0 60
         /\ map y (resultSignalData res) = map value recent
         /\ map at_time (resultSignalData res) = map timestamp recent
         /\ last (map y (resultSignalData res)) 0%Q = value ppgSignal.
Proof.
  intros e s ppg Hacc Hn Hd.
  rewrite (processFrame_accepted sqrtQ log10Q e s ppg Hacc). cbv zeta.
  set (s3 := addToBuffer ppg (admitted e s)).
  assert (Hbuf : lastN 60 (signalBuffer s3) = lastN 60 (signalBuffer s ++ [ppg])
                 /\ minValidSamples <= length (signalBuffer s3)).
  { unfold s3, addToBuffer, admitted. cbv zeta.
    cbn [signalBuffer with_signalBuffer with_fingerDetector
         with_lastProcessTime].
    unfold minValidSamples, maxBufferSize in *.
    assert (L : length (signalBuffer s ++ [ppg]) = S (length (signalBuffer s)))
      by (rewrite length_app; cbn [length]; lia).
    destruct (Nat.ltb_spec 300 (length (signalBuffer s ++ [ppg]))) as [Hl|Hl].
    - split; [apply lastN_tl; lia|].
      destruct (signalBuffer s ++ [ppg]); cbn [tl length] in *; lia.
    - split; [reflexivity|lia]. }
  destruct Hbuf as [Hrecent Hlen].
  apply Nat.leb_le in Hlen. rewrite Hlen.
  eexists. split; [reflexivity|]. cbv zeta.
  unfold estimateResult. cbn [resultSignalData].
  destruct (calculateVitalSigns_frame sqrtQ log10Q e s3) as (Eb & _).
  destruct (getDisplaySignal_window e
              (fst (calculateVitalSigns sqrtQ log10Q e s3)) Hd)
    as (Dx & Dy & Dt).
  rewrite Eb, Hrecent in Dx, Dy, Dt.
  assert (L60 : length (lastN 60 (signalBuffer s ++ [ppg])) = 60).
  { rewrite lastN_length, length_app. cbn [length].
    unfold minValidSamples in Hn. lia. }
  rewrite L60 in Dx.
  split; [exact Dx|]. split; [exact Dy|]. split; [exact Dt|].
  rewrite Dy. unfold lastN. rewrite <- skipn_map, map_app. cbn [map].
  rewrite skipn_app.
  set (k := length (signalBuffer s ++ [ppg]) - 60).
  assert (Hk : k - length (map value (signalBuffer s)) = 0).
  { unfold k. rewrite length_app, length_map. cbn [length]. lia. }
  rewrite Hk. cbn [skipn]. apply last_last.
Qed.

End DisplayFacts.

(** The frame that completes a window of 90 samples. *)
Lemma estimate_displays_latest_samples_witness :
  exists res : RealPPGProcessor.Result,
    snd (RealPPGProcessor.processFrame (fun v => v) (fun v => v)
           (goodFrame None) (fingerOn 89)) = Some res
    /\ map RealPPGProcessor.x (resultSignalData res) = seq 0 60
    /\ last (map RealPPGProcessor.y (resultSignalData res)) 0%Q = (1 # 2)%Q.
Proof.
  destruct (estimate_displays_latest_samples (fun v => v) (fun v => v)
              (goodFrame None) (fingerOn 89) sample0
              (goodFrame_accepted 89 None I))
    as (res & E & Dx & _ & _ & Dl).
  - vm_compute. repeat constructor.
  - reflexivity.
  - exists res. split; [exact E|]. split; [exact Dx|exact Dl].
Defined.

(** ** Skin segmentation *)

Section SkinFacts.

Import FingerDetector.

Lemma js_round_ge (lo : Z) (v : Q) :
  (inject_Z lo <= v)%Q -> (lo <= js_round v)%Z.
Proof.
  intros H. unfold js_round.
  assert (H' : (inject_Z lo <= v + (1 # 2))%Q) by lra.
  apply Qfloor_resp_le in H'. rewrite Qfloor_Z in H'. exact H'.
Qed.

Lemma js_round_Z (z : Z) : js_round (inject_Z z) = z.
Proof.
  assert (H : (z <= js_round (inject_Z z) <= z)%Z)
    by (apply js_round_between; lra).
  lia.
Qed.

(** What the three ranges have in common. *)
Lemma inRange_weak (h s v : Z) :
  existsb (inRange h s v) skinColorRanges = true ->
  (h <= 30)%Z /\ (20 <= s)%Z /\ (50 <= v)%Z.
Proof.
  unfold skinColorRanges, inRange. cbn [existsb].
  rewrite !orb_true_iff, !andb_true_iff, !Z.leb_le. lia.
Qed.

Lemma channel_le (G R : Z) :
  (inject_Z G / 255 <= inject_Z R / 255)%Q -> (G <= R)%Z.
Proof.
  intros H. rewrite Zle_Qle.
  unfold Qdiv in H. apply Qmult_le_r in H; [exact H|reflexivity].
Qed.

Lemma channel_lt (G R : Z) :
  (inject_Z G / 255 < inject_Z R / 255)%Q -> (G < R)%Z.
Proof.
  intros H. rewrite Zlt_Qlt.
  unfold Qdiv in H. apply Qmult_lt_r in H; [exact H|reflexivity].
Qed.

(** [Math.max(r, g, b)] and [Math.min(r, g, b)]. *)
Lemma max3_spec (r g b : Q) :
  let m := js_max (js_max r g) b in
  (r <= m)%Q /\ (g <= m)%Q /\ (b <= m)%Q /\ (m = r \/ m = g \/ m = b).
Proof.
  cbv zeta.
  destruct (js_max_spec r g) as [[H1 E1]|[H1 E1]]; rewrite E1;
  destruct (js_max_spec (js_max r g) b) as [[H2 E2]|[H2 E2]];
    rewrite E1 in E2, H2; rewrite E2; repeat split; auto; lra.
Qed.

Lemma min3_spec (r g b : Q) :
  let m := js_min (js_min r g) b in
  (m <= r)%Q /\ (m <= g)%Q /\ (m <= b)%Q /\ (m = r \/ m = g \/ m = b).
Proof.
  cbv zeta.
  destruct (js_min_spec r g) as [[H1 E1]|[H1 E1]]; rewrite E1;
  destruct (js_min_spec (js_min r g) b) as [[H2 E2]|[H2 E2]];
    rewrite E1 in E2, H2; rewrite E2; repeat split; auto; lra.
Qed.

(** A pixel whose stored hue, saturation and value fall in one of the skin
    ranges. *)
Lemma skin_pixel_red_dominant (R G B A : Z) :
  (let '(h, s, v) := hsvOfPixel R G B in
   existsb (inRange (clamp8 h) (clamp8 s) (clamp8 v)) skinColorRanges) = true ->
  redDominant (R, G, B, A).
Proof.
  unfold hsvOfPixel. cbv zeta. intros H. apply inRange_weak in H.
  destruct H as (Hh & Hs & Hv).
  assert (Hh' : forall z, (clamp8 z <= 30)%Z -> (z <= 30)%Z)
    by (intros z; unfold clamp8; lia).
  assert (Hs' : forall k z, (0 < k)%Z -> (k <= clamp8 z)%Z -> (k <= z)%Z)
    by (intros k z; unfold clamp8; lia).
  apply Hh' in Hh. apply Hs' in Hs; [|lia]. apply Hs' in Hv; [|lia].
  clear Hh' Hs'.
  set (r := (inject_Z R / 255)%Q) in *.
  set (g := (inject_Z G / 255)%Q) in *.
  set (b := (inject_Z B / 255)%Q) in *.
  destruct (max3_spec r g b) as (M1 & M2 & M3 & M4).
  destruct (min3_spec r g b) as (N1 & N2 & N3 & N4).
  set (mx := js_max (js_max r g) b) in *.
  set (mn := js_min (js_min r g) b) in *.
  clearbody mx mn.
  (* the saturation test excludes a grey pixel *)
  assert (Hd : (mn < mx)%Q).
  { destruct (Qlt_le_dec mn mx) as [L|L]; [exact L|exfalso].
    assert (D0 : (mx - mn == 0)%Q) by lra.
    assert (S0 : ((if Qeq_bool mx 0 then 0 else (mx - mn) / mx) * 255 == 0)%Q).
    { destruct (Qeq_bool mx 0); [ring|]. rewrite D0. unfold Qdiv. ring. }
    rewrite S0 in Hs. vm_compute in Hs. apply Hs. reflexivity. }
  assert (Dn : Qeq_bool (mx - mn) 0 = false).
  { destruct (Qeq_bool (mx - mn) 0) eqn:E; [|reflexivity].
    apply Qeq_bool_iff in E. lra. }
  rewrite Dn in Hh.
  (* the hue test excludes a pixel whose largest channel is not red *)
  assert (Hr : (mx == r)%Q).
  { destruct (Qeq_bool mx r) eqn:Er; [apply Qeq_bool_iff, Er|exfalso].
    assert (G60 : forall hq : Q,
               (1 <= hq)%Q ->
               ((if (js_round (hq * 60) <? 0)%Z then (js_round (hq * 60) + 360)%Z
                 else js_round (hq * 60)) <= 30)%Z -> False).
    { intros hq H1 H30.
      assert (H60 : (60 <= js_round (hq * 60))%Z)
        by (apply js_round_ge; change (inject_Z 60) with 60%Q; lra).
      destruct (js_round (hq * 60) <? 0)%Z; lia. }
    destruct (Qeq_bool mx g).
    - apply (G60 ((b - r) / (mx - mn) + 2)%Q); [|exact Hh].
      assert (Q1 : (-1 <= (b - r) / (mx - mn))%Q)
        by (apply Qle_shift_div_l; lra).
      lra.
    - apply (G60 ((r - g) / (mx - mn) + 4)%Q); [|exact Hh].
      assert (Q1 : (-1 <= (r - g) / (mx - mn))%Q)
        by (apply Qle_shift_div_l; lra).
      lra. }
  unfold redDominant.
  split; [apply channel_le; fold g r; lra|].
  split; [apply channel_le; fold b r; lra|].
  split.
  - destruct N4 as [N|[N|N]]; rewrite N in Hd; [lra| |].
    + left. apply channel_lt. fold g r. lra.
    + right. apply channel_lt. fold b r. lra.
  - assert (V : (mx * 255 == inject_Z R)%Q) by (rewrite Hr; unfold r; field).
    rewrite V, js_round_Z in Hv. exact Hv.
Qed.

Lemma skin_mask_pointwise (imageData : list Z) :
  Forall2 (fun px m => m = 0%Z \/ (m = 255%Z /\ redDominant px))
          (pixels imageData) (createSkinMask (rgbToHsv imageData)).
Proof.
  revert imageData. fix IH 1.
  intros [|R [|G [|B [|A rest]]]].
  - constructor.
  - constructor.
  - constructor.
  - cbn [rgbToHsv pixels]. destruct (hsvOfPixel R G B) as [[h s] v].
    constructor.
  - cbn [rgbToHsv pixels].
    pose proof (skin_pixel_red_dominant R G B A) as H.
    destruct (hsvOfPixel R G B) as [[h s] v].
    cbn [createSkinMask]. constructor; [|apply IH].
    destruct (existsb _ _); [right; split; [reflexivity|apply H; reflexivity]|].
    left. reflexivity.
Qed.

Lemma rgbToHsv_length (imageData : list Z) :
  length (rgbToHsv imageData) = length imageData.
Proof.
  revert imageData. fix IH 1.
  intros [|R [|G [|B [|A rest]]]].
  - reflexivity.
  - reflexivity.
  - reflexivity.
  - cbn [rgbToHsv]. destruct (hsvOfPixel R G B) as [[h s] v]. reflexivity.
  - cbn [rgbToHsv]. destruct (hsvOfPixel R G B) as [[h s] v].
    cbn [length]. rewrite IH. reflexivity.
Qed.

Lemma pixels_length (imageData : list Z) :
  length (pixels imageData) = length imageData / 4.
Proof.
  revert imageData. fix IH 1.
  intros [|R [|G [|B [|A rest]]]]; try reflexivity.
  cbn [pixels length]. rewrite IH.
  change (S (S (S (S (length rest))))) with (4 + length rest).
  replace (4 + length rest) with (length rest + 1 * 4) by lia.
  rewrite Nat.div_add by discriminate. lia.
Qed.

(** Skin segmentation.  [rgbToHsv] keeps the length of the frame; the mask
    [createSkinMask] builds from its result has one entry per complete
    pixel, each 0 or 255; and a pixel marked 255 has red as a largest
    channel, not all channels equal, and red at least 50: no grey,
    green-dominant or blue-dominant pixel is taken for skin. *)
Theorem skin_mask_marks_red_dominant_pixels :
  forall imageData : list Z,
    let skinMask := createSkinMask (rgbToHsv imageData) in
    length (rgbToHsv imageData) = length imageData
    /\ length skinMask = length imageData / 4
    /\ Forall2 (fun px m => m = 0%Z \/ (m = 255%Z /\ redDominant px))
               (pixels imageData) skinMask.
Proof.
  intros imageData. cbv zeta.
  split; [apply rgbToHsv_length|].
  split; [|apply skin_mask_pointwise].
  rewrite <- (Forall2_length (skin_mask_pointwise imageData)).
  apply pixels_length.
Qed.

End SkinFacts.

(** ** Connected components of the skin mask *)

Section FloodFillFacts.

Import FingerDetector.

Lemma existsb_eqb (i : nat) (l : list nat) :
  existsb (Nat.eqb i) l = true <-> In i l.
Proof.
  rewrite existsb_exists. split.
  - intros (j & Hj & E). apply Nat.eqb_eq in E. subst. exact Hj.
  - intros H. exists i. split; [exact H|apply Nat.eqb_refl].
Qed.

Lemma unvisitedSkin_spec (binaryImage : list Z) (seen : list nat) (p : point)
  (i : nat) :
  unvisitedSkin binaryImage seen p = Some i ->
  indexAt (length binaryImage) p = Some i
  /\ nth_error binaryImage i = Some 255%Z
  /\ ~ In i seen.
Proof.
  unfold unvisitedSkin.
  destruct (indexAt (length binaryImage) p) as [j|]; [|discriminate].
  destruct (nth_error binaryImage j) as [m|] eqn:Em; [|discriminate].
  destruct (Z.eqb_spec m 255) as [->|]; [|discriminate]. cbn [andb].
  destruct (existsb (Nat.eqb j) seen) eqn:Ev; [discriminate|].
  cbn [negb]. intros E. injection E as <-.
  repeat split; try assumption.
  intros Hin. apply existsb_eqb in Hin. congruence.
Qed.

Lemma filter_length_mono {A : Type} (f g : A -> bool) (l : list A) :
  (forall a, f a = true -> g a = true) ->
  length (filter f l) <= length (filter g l).
Proof.
  intros H. induction l as [|a l IH]; [reflexivity|]. cbn [filter].
  destruct (f a) eqn:Ef.
  - rewrite (H a Ef). cbn [length]. lia.
  - destruct (g a); cbn [length]; lia.
Qed.

Lemma filter_length_lt {A : Type} (f g : A -> bool) (l : list A) (a : A) :
  (forall b, f b = true -> g b = true) ->
  In a l -> f a = false -> g a = true ->
  length (filter f l) < length (filter g l).
Proof.
  intros H. induction l as [|b l IH]; intros Hin Hf Hg; [destruct Hin|].
  cbn [filter]. destruct Hin as [->|Hin].
  - rewrite Hf, Hg. cbn [length].
    pose proof (filter_length_mono f g l H). lia.
  - specialize (IH Hin Hf Hg). destruct (f b) eqn:Ef.
    + rewrite (H b Ef). cbn [length]. lia.
    + destruct (g b); cbn [length]; lia.
Qed.

(** Marking an index below [n] leaves fewer unvisited indices. *)
Lemma unvisited_shrinks (n i : nat) (seen : list nat) :
  i < n -> ~ In i seen ->
  length (unvisited n (i :: seen)) < length (unvisited n seen).
Proof.
  intros Hi Hn. unfold unvisited.
  apply (filter_length_lt _ _ _ i).
  - intros j. cbn [existsb]. rewrite !negb_true_iff, orb_false_iff.
    intros [_ H]. exact H.
  - apply in_seq. lia.
  - cbn [existsb]. rewrite Nat.eqb_refl. reflexivity.
  - rewrite negb_true_iff.
    destruct (existsb (Nat.eqb i) seen) eqn:E; [|reflexivity].
    apply existsb_eqb in E. contradiction.
Qed.

Lemma unvisited_bound (n : nat) (seen : list nat) :
  length (unvisited n seen) <= n.
Proof.
  unfold unvisited.
  etransitivity; [apply filter_length_le|]. rewrite length_seq. reflexivity.
Qed.

(** Every iteration on a non-empty stack lowers the measure of the loop. *)
Lemma floodFill_step_measure (binaryImage : list Z) (st : fill) :
  stack st <> [] ->
  length (stack (floodFill_step binaryImage st))
  + 4 * length (unvisited (length binaryImage)
                          (visited (floodFill_step binaryImage st)))
  < length (stack st)
    + 4 * length (unvisited (length binaryImage) (visited st)).
Proof.
  intros Hs. unfold floodFill_step.
  destruct (stack st) as [|[x y] rest]; [congruence|].
  destruct (inside (length binaryImage) (x, y)); [|cbn; lia].
  destruct (unvisitedSkin binaryImage (visited st) (x, y)) as [i|] eqn:E;
    [|cbn; lia].
  apply unvisitedSkin_spec in E. destruct E as (_ & E255 & Hn).
  assert (Hi : i < length binaryImage).
  { apply nth_error_Some. congruence. }
  pose proof (unvisited_shrinks (length binaryImage) i (visited st) Hi Hn).
  cbn [stack visited length]. lia.
Qed.

Lemma floodFill_step_done (binaryImage : list Z) (st : fill) :
  stack st = [] -> floodFill_step binaryImage st = st.
Proof. intros H. unfold floodFill_step. rewrite H. reflexivity. Qed.

Lemma floodFill_iter_done (binaryImage : list Z) (k : nat) (st : fill) :
  stack st = [] -> Nat.iter k (floodFill_step binaryImage) st = st.
Proof.
  intros H. induction k as [|k IH]; [reflexivity|].
  rewrite Nat.iter_succ, IH. apply floodFill_step_done, H.
Qed.

(** The loop of [floodFill] ends within the measure of its first state. *)
Lemma floodFill_loop_ends (binaryImage : list Z) (k : nat) (st : fill) :
  length (stack st)
  + 4 * length (unvisited (length binaryImage) (visited st)) <= k ->
  stack (Nat.iter k (floodFill_step binaryImage) st) = [].
Proof.
  revert st. induction k as [|k IH]; intros st H.
  - change (Nat.iter 0 (floodFill_step binaryImage) st) with st.
    destruct (stack st); [reflexivity|cbn in H; lia].
  - rewrite Nat.iter_succ_r.
    destruct (stack st) as [|p rest] eqn:Es.
    + rewrite (floodFill_step_done binaryImage st Es).
      rewrite (floodFill_iter_done binaryImage k st Es). exact Es.
    + apply IH.
      assert (Hne : stack st <> []) by congruence.
      pose proof (floodFill_step_measure binaryImage st Hne) as M.
      rewrite Es in M. lia.
Qed.

Lemma chained_snoc (c : contour) (start p : point) :
  chained c ->
  (c = [] \/ exists q, In q c /\ adjacent q p) ->
  chained (c ++ [p]).
Proof.
  intros Hc [->|(q & Hq & Ha)]; [apply chained_start|].
  exact (chained_next c q p Hc Hq Ha).
Qed.

(** One iteration keeps the invariant. *)
Lemma floodFill_step_invariant (binaryImage : list Z) (start : point)
  (visited0 : list nat) (st : fill) :
  fillInvariant binaryImage start visited0 st ->
  fillInvariant binaryImage start visited0 (floodFill_step binaryImage st).
Proof.
  intros [(fresh & Ev & Em & Hnd & Hf) Hskin Hch Hst].
  unfold floodFill_step.
  destruct (stack st) as [|[x y] rest] eqn:Es.
  { constructor; [exists fresh; auto|assumption|assumption|].
    rewrite Es. exact Hst. }
  assert (Hskip : fillInvariant binaryImage start visited0
                    (mkFill rest (visited st) (filled st))).
  { constructor; cbn [stack visited filled];
      [exists fresh; auto|assumption|assumption|].
    destruct Hst as [[E0 [E1|E1]]|[Hh Hall]].
    - left. split; [exact E0|]. right. congruence.
    - discriminate.
    - right. split; [exact Hh|]. inversion Hall; assumption. }
  destruct (inside (length binaryImage) (x, y)) eqn:Ein; [|exact Hskip].
  destruct (unvisitedSkin binaryImage (visited st) (x, y)) as [i|] eqn:E;
    [|exact Hskip].
  apply unvisitedSkin_spec in E. destruct E as (Ei & E255 & Hn).
  assert (Hpop : (filled st = [] /\ (x, y) = start)
                 \/ (hd_error (filled st) = Some start
                     /\ exists q, In q (filled st) /\ adjacent q (x, y))).
  { destruct Hst as [[E0 [E1|E1]]|[Hh Hall]].
    - left. split; [exact E0|]. congruence.
    - discriminate.
    - right. split; [exact Hh|]. inversion Hall; assumption. }
  constructor; cbn [stack visited filled].
  - exists (i :: fresh). rewrite Ev in Hn.
    split; [rewrite Ev; reflexivity|].
    split.
    + rewrite map_app, Em. cbn [rev map]. rewrite map_app, Ei. reflexivity.
    + split.
      * constructor; [|exact Hnd]. intros Hin. apply Hn, in_or_app. auto.
      * constructor; [|exact Hf]. intros Hin. apply Hn, in_or_app. auto.
  - apply Forall_app. split; [exact Hskin|].
    constructor; [|constructor]. split; [exact Ein|].
    exists i. split; assumption.
  - apply (chained_snoc (filled st) start (x, y) Hch).
    destruct Hpop as [[E0 _]|[_ Hq]]; [left; exact E0|right; exact Hq].
  - right. split.
    + destruct Hpop as [[E0 Ep]|[Hh _]].
      * rewrite E0, Ep. reflexivity.
      * destruct (filled st); [discriminate|exact Hh].
    + assert (Hmem : In (x, y) (filled st ++ [(x, y)]))
        by (apply in_or_app; right; left; reflexivity).
      repeat constructor;
        try (exists (x, y); split; [exact Hmem|unfold adjacent; cbn; auto]).
      destruct Hst as [[E0 [E1|E1]]|[Hh Hall]].
      * injection E1 as _ ->. constructor.
      * discriminate.
      * inversion Hall as [|? ? _ Hrest]; subst.
        eapply Forall_impl; [|exact Hrest].
        cbn. intros p (q & Hq & Ha). exists q.
        split; [apply in_or_app; left; exact Hq|exact Ha].
Qed.

Lemma floodFill_iter_invariant (binaryImage : list Z) (start : point)
  (visited0 : list nat) (k : nat) (st : fill) :
  fillInvariant binaryImage start visited0 st ->
  fillInvariant binaryImage start visited0
                (Nat.iter k (floodFill_step binaryImage) st).
Proof.
  intros H. induction k as [|k IH]; [exact H|].
  rewrite Nat.iter_succ. apply floodFill_step_invariant, IH.
Qed.

Lemma fillInvariant_start (binaryImage : list Z) (start : point)
  (visited0 : list nat) :
  fillInvariant binaryImage start visited0 (mkFill [start] visited0 []).
Proof.
  constructor; cbn [stack visited filled].
  - exists []. repeat split; constructor.
  - constructor.
  - constructor.
  - left. auto.
Qed.

Lemma NoDup_indexed {A : Type} (f : A -> option nat) (l : list A)
  (idxs : list nat) :
  map f l = map Some idxs -> NoDup idxs -> NoDup l.
Proof.
  intros E H. apply (NoDup_map_inv f). rewrite E.
  apply Finite.Injective_map_NoDup; [|exact H].
  intros a b Hab. congruence.
Qed.

(** What [floodFill] returns, in terms of the invariant. *)
Lemma floodFill_invariant (binaryImage : list Z) (start : point)
  (visited0 : list nat) :
  fillInvariant binaryImage start visited0
    (mkFill [] (snd (floodFill binaryImage start visited0))
            (fst (floodFill binaryImage start visited0))).
Proof.
  unfold floodFill. cbv zeta. cbn [fst snd].
  set (final := Nat.iter _ _ _).
  assert (Hend : stack final = []).
  { apply floodFill_loop_ends. cbn [stack visited length].
    pose proof (unvisited_bound (length binaryImage) visited0). lia. }
  pose proof (floodFill_iter_invariant binaryImage start visited0
                (4 * length binaryImage + 1) _
                (fillInvariant_start binaryImage start visited0)) as H.
  fold final in H. destruct final as [stk vis fil]. cbn [stack] in Hend.
  subst stk. exact H.
Qed.

Lemma floodFill_step_head (binaryImage : list Z) (st : fill) (p : point) :
  hd_error (filled st) = Some p ->
  hd_error (filled (floodFill_step binaryImage st)) = Some p.
Proof.
  intros H. unfold floodFill_step.
  destruct (stack st) as [|[x y] rest]; [exact H|].
  destruct (inside _ _); [|exact H].
  destruct (unvisitedSkin _ _ _); [|exact H].
  cbn [filled]. destruct (filled st); [discriminate|exact H].
Qed.

Lemma floodFill_iter_head (binaryImage : list Z) (k : nat) (st : fill)
  (p : point) :
  hd_error (filled st) = Some p ->
  hd_error (filled (Nat.iter k (floodFill_step binaryImage) st)) = Some p.
Proof.
  intros H. induction k as [|k IH]; [exact H|].
  rewrite Nat.iter_succ. apply floodFill_step_head, IH.
Qed.

(** A fill started on an unvisited skin pixel returns a contour that starts
    with it. *)
Lemma floodFill_head (binaryImage : list Z) (start : point)
  (visited0 : list nat) (i : nat) :
  inside (length binaryImage) start = true ->
  unvisitedSkin binaryImage visited0 start = Some i ->
  hd_error (fst (floodFill binaryImage start visited0)) = Some start.
Proof.
  intros Hin Hu. unfold floodFill. cbv zeta. cbn [fst].
  replace (4 * length binaryImage + 1) with (S (4 * length binaryImage))
    by lia.
  rewrite Nat.iter_succ_r. apply floodFill_iter_head.
  unfold floodFill_step. cbn [stack visited filled].
  destruct start as [x y]. rewrite Hin, Hu. reflexivity.
Qed.

(** Flood fill.  The loop of [floodFill] ends within
    [4 * binaryImage.length + 1] iterations, whatever the start and the
    [visited] set.  The contour it returns holds pairwise different pixels of
    the mask that hold 255, none of them visited before; it starts with the
    start pixel when that is an unvisited skin pixel, and every later point
    is one of the four neighbours of an earlier one; the [visited] set has
    grown by exactly the indices of the contour's points. *)
Theorem floodFill_grows_a_component :
  forall (binaryImage : list Z) (start : point) (visited0 : list nat),
    let final := Nat.iter (4 * length binaryImage + 1)
                          (floodFill_step binaryImage)
                          (mkFill [start] visited0 []) in
    let c := fst (floodFill binaryImage start visited0) in
    let visited1 := snd (floodFill binaryImage start visited0) in
    stack final = []
    /\ floodFill_step binaryImage final = final
    /\ Forall (skinAt binaryImage) c
    /\ NoDup c
    /\ chained c
    /\ (c = [] \/ hd_error c = Some start)
    /\ (inside (length binaryImage) start = true ->
        unvisitedSkin binaryImage visited0 start <> None ->
        hd_error c = Some start)
    /\ exists fresh : list nat,
         visited1 = fresh ++ visited0
         /\ map (indexAt (length binaryImage)) c = map Some (rev fresh)
         /\ Forall (fun i => ~ In i visited0) fresh.
Proof.
  intros binaryImage start visited0. cbv zeta.
  assert (Hend : stack (Nat.iter (4 * length binaryImage + 1)
                                 (floodFill_step binaryImage)
                                 (mkFill [start] visited0 [])) = []).
  { apply floodFill_loop_ends. cbn [stack visited length].
    pose proof (unvisited_bound (length binaryImage) visited0). lia. }
  split; [exact Hend|]. split; [apply floodFill_step_done, Hend|].
  destruct (floodFill_invariant binaryImage start visited0)
    as [(fresh & Ev & Em & Hnd & Hf) Hskin Hch Hst].
  cbn [stack visited filled] in *.
  split; [exact Hskin|].
  split; [apply (NoDup_indexed _ _ _ Em), NoDup_rev, Hnd|].
  split; [exact Hch|].
  split; [destruct Hst as [[E0 _]|[Hh _]]; auto|].
  split.
  - intros Hin Hu.
    destruct (unvisitedSkin binaryImage visited0 start) as [i|] eqn:E;
      [|congruence].
    exact (floodFill_head binaryImage start visited0 i Hin E).
  - exists fresh. auto.
Qed.

End FloodFillFacts.

Section ContourFacts.

Import FingerDetector.

Lemma indexed_member {A : Type} (f : A -> option nat) (l : list A)
  (idxs : list nat) (i : nat) :
  map f l = map Some idxs -> In i idxs -> exists a, In a l /\ f a = Some i.
Proof.
  intros E Hi.
  assert (H : In (Some i) (map f l)) by (rewrite E; apply in_map, Hi).
  apply in_map_iff in H. destruct H as (a & Ea & Ha). exists a. auto.
Qed.

(** The body of the inner loop keeps the invariant. *)
Lemma findContours_step_invariant (binaryImage : list Z)
  (acc : list contour * list nat) (p : point) :
  scanInvariant binaryImage acc ->
  scanInvariant binaryImage (findContours_step binaryImage acc p).
Proof.
  destruct acc as [contours v0].
  intros [Hcs (idxs & Em & Hnd & Hincl & Hlit)]. cbn [fst snd] in *.
  unfold findContours_step.
  destruct (unvisitedSkin binaryImage v0 p) as [i|];
    [|constructor; [exact Hcs|exists idxs; auto]].
  destruct (floodFill_invariant binaryImage p v0)
    as [(fresh & Ev & Emc & Hndf & Hf) Hskin Hch _].
  cbn [stack visited filled] in *.
  destruct (floodFill binaryImage p v0) as [c v1]. cbn [fst snd] in *.
  subst v1.
  destruct (Nat.ltb_spec 100 (length c)) as [Hlen|Hlen].
  - constructor; cbn [fst snd].
    + apply Forall_app. split; [exact Hcs|]. constructor; [|constructor].
      auto.
    + exists (idxs ++ rev fresh).
      split; [rewrite concat_app, !map_app, Em; cbn [concat];
              rewrite app_nil_r, Emc; reflexivity|].
      split.
      * apply NoDup_app; [exact Hnd|apply NoDup_rev, Hndf|].
        intros j Hj Hj'. apply in_rev in Hj'.
        rewrite Forall_forall in Hf. exact (Hf j Hj' (Hincl j Hj)).
      * split.
        -- intros j Hj. apply in_app_or in Hj. apply in_or_app.
           destruct Hj as [Hj|Hj]; [right; apply Hincl, Hj|].
           left. apply in_rev, Hj.
        -- apply Forall_app. split; [exact Hlit|].
           apply Forall_forall. intros j Hj.
           destruct (indexed_member _ _ _ j Emc Hj) as (q & Hq & Eq).
           rewrite Forall_forall in Hskin.
           destruct (Hskin q Hq) as (_ & j' & Ej' & E255). congruence.
  - constructor; cbn [fst snd]; [exact Hcs|].
    exists idxs. repeat split; try assumption.
    intros j Hj. apply in_or_app. right. apply Hincl, Hj.
Qed.

Lemma findContours_invariant (binaryImage : list Z) :
  scanInvariant binaryImage
    (fold_left (findContours_step binaryImage)
               (cells (length binaryImage)) ([], [])).
Proof.
  assert (G : forall ps acc,
             scanInvariant binaryImage acc ->
             scanInvariant binaryImage
               (fold_left (findContours_step binaryImage) ps acc)).
  { induction ps as [|p ps IH]; intros acc H; [exact H|].
    cbn [fold_left]. apply IH, findContours_step_invariant, H. }
  apply G. constructor; cbn [fst snd].
  - constructor.
  - exists []. repeat split; try constructor. intros j [].
Qed.

Lemma filter_map_length {A B : Type} (f : B -> bool) (g : A -> B)
  (l : list A) :
  length (filter f (map g l)) = length (filter (fun a => f (g a)) l).
Proof.
  induction l as [|a l IH]; [reflexivity|]. cbn [map filter].
  destruct (f (g a)); cbn [length]; rewrite IH; reflexivity.
Qed.

(** Counting the indices of the entries that satisfy [f] counts those
    entries. *)
Lemma filter_index_count (f : Z -> bool) (l : list Z) :
  length (filter (fun i => match nth_error l i with
                           | Some m => f m
                           | None => false
                           end) (seq 0 (length l)))
  = length (filter f l).
Proof.
  induction l as [|a l IH]; [reflexivity|].
  cbn [length seq filter nth_error].
  assert (E : length (filter (fun i => match nth_error (a :: l) i with
                                       | Some m => f m
                                       | None => false
                                       end) (seq 1 (length l)))
              = length (filter f l)).
  { rewrite <- seq_shift, filter_map_length. cbn [nth_error]. exact IH. }
  destruct (f a); cbn [length]; rewrite E; reflexivity.
Qed.

Lemma skin_indices_bound (binaryImage : list Z) (idxs : list nat) :
  NoDup idxs ->
  Forall (fun i => nth_error binaryImage i = Some 255%Z) idxs ->
  length idxs <= skinPixels binaryImage.
Proof.
  intros Hnd Hlit. unfold skinPixels.
  rewrite <- (filter_index_count (Z.eqb 255) binaryImage).
  apply NoDup_incl_length; [exact Hnd|].
  intros i Hi. rewrite Forall_forall in Hlit. specialize (Hlit i Hi).
  apply filter_In. split.
  - apply in_seq. split; [lia|]. cbn. apply nth_error_Some. congruence.
  - rewrite Hlit. reflexivity.
Qed.

Lemma findContours_count (binaryImage : list Z) :
  length (concat (findContours binaryImage)) <= skinPixels binaryImage.
Proof.
  unfold findContours.
  destruct (findContours_invariant binaryImage)
    as [_ (idxs & Em & Hnd & _ & Hlit)].
  rewrite <- (length_map (indexAt (length binaryImage))), Em, length_map.
  apply skin_indices_bound; assumption.
Qed.

Lemma findContours_long (binaryImage : list Z) :
  Forall (fun c => 100 < length c
                   /\ Forall (skinAt binaryImage) c /\ chained c)
         (findContours binaryImage).
Proof.
  unfold findContours.
  destruct (findContours_invariant binaryImage) as [Hcs _]. exact Hcs.
Qed.

(** A mask with at most 100 entries at 255 has no contour. *)
Lemma findContours_few (binaryImage : list Z) :
  skinPixels binaryImage <= 100 -> findContours binaryImage = [].
Proof.
  intros Hfew.
  pose proof (findContours_count binaryImage) as Hlen.
  pose proof (findContours_long binaryImage) as Hcs.
  destruct (findContours binaryImage) as [|c rest]; [reflexivity|exfalso].
  inversion Hcs as [|? ? (Hc & _) _]; subst.
  cbn [concat] in Hlen. rewrite length_app in Hlen. lia.
Qed.

(** Contours.  Every contour [findContours] returns has more than 100
    points, all of them pixels of the mask that hold 255, each after the
    first a neighbour of an earlier one; no pixel occurs twice, within one
    contour or in two; so the contours together hold no more points than
    the mask has entries at 255, and a mask with at most 100 such entries
    has no contour. *)
Theorem findContours_sound :
  forall binaryImage : list Z,
    let contours := findContours binaryImage in
    Forall (fun c => 100 < length c
                     /\ Forall (skinAt binaryImage) c /\ chained c) contours
    /\ NoDup (concat contours)
    /\ length (concat contours) <= skinPixels binaryImage
    /\ (skinPixels binaryImage <= 100 -> contours = []).
Proof.
  intros binaryImage. cbv zeta.
  split; [apply findContours_long|].
  split.
  - unfold findContours.
    destruct (findContours_invariant binaryImage)
      as [_ (idxs & Em & Hnd & _)].
    exact (NoDup_indexed _ _ _ Em Hnd).
  - split; [apply findContours_count|apply findContours_few].
Qed.

(** A frame of 11 by 11 red pixels: the mask is all skin and the scan
    returns the one component, of 121 points. *)
Example findContours_red_square :
  map (@length point)
      (findContours
         (createSkinMask
            (rgbToHsv (concat (repeat [255; 0; 0; 255]%Z 121)))))
  = [121].
Proof. vm_compute. reflexivity. Qed.

End ContourFacts.

(** ** Frames without colour *)

Section GreyFrameFacts.

Import FingerDetector.

Variable sqrtQ : Q -> Q.

Lemma grey_mask (imageData : list Z) :
  greyImage imageData ->
  skinPixels (createSkinMask (rgbToHsv imageData)) = 0.
Proof.
  intros Hg. unfold greyImage in Hg. unfold skinPixels.
  pose proof (skin_mask_pointwise imageData) as H.
  induction H as [|px m pxs ms Hm _ IH]; [reflexivity|].
  inversion Hg as [|? ? Hpx Hrest]; subst.
  cbn [filter]. destruct Hm as [->|[_ Hred]].
  - cbn. apply IH, Hrest.
  - exfalso. destruct px as [[[R G] B] A]. unfold redDominant in Hred.
    destruct Hpx as [-> ->]. lia.
Qed.

Lemma grey_contour (imageData : list Z) :
  greyImage imageData -> fingerContourOf sqrtQ imageData = None.
Proof.
  intros Hg. unfold fingerContourOf. cbv zeta.
  rewrite findContours_few; [reflexivity|].
  rewrite (grey_mask imageData Hg). lia.
Qed.

(** A grey frame shows no finger.  When the three colour channels are equal
    in every pixel of the frame, the skin mask has no entry at 255, the
    pixel pipeline of [detectFinger] ends without a contour, and the call
    clears the detector: flag off, counter 0, confidence 0. *)
Theorem grey_frame_shows_no_finger :
  forall (imageData : list Z) (s : state),
    greyImage imageData ->
    let r := detectFinger (Returned (fingerContourOf sqrtQ imageData)) s in
    skinPixels (createSkinMask (rgbToHsv imageData)) = 0
    /\ fingerContourOf sqrtQ imageData = None
    /\ fst r = init
    /\ detected (snd r) = false
    /\ (confidence (snd r) == 0)%Q
    /\ found (snd r) = None.
Proof.
  intros imageData s Hg. cbv zeta.
  split; [apply grey_mask, Hg|].
  rewrite (grey_contour imageData Hg).
  split; [reflexivity|]. cbn. repeat split.
Qed.

End GreyFrameFacts.

(** A frame of two grey pixels. *)
Lemma grey_frame_shows_no_finger_witness :
  let imageData := [128; 128; 128; 255; 40; 40; 40; 255]%Z in
  let s := FingerDetector.mkState true 7 in
  greyImage imageData
  /\ fst (FingerDetector.detectFinger
            (Returned (FingerDetector.fingerContourOf (fun v => v) imageData)) s)
     = FingerDetector.init.
Proof.
  cbv zeta.
  assert (Hg : greyImage [128; 128; 128; 255; 40; 40; 40; 255]%Z).
  { unfold greyImage. cbn [pixels]. repeat constructor. }
  split; [exact Hg|].
  destruct (grey_frame_shows_no_finger (fun v => v)
              [128; 128; 128; 255; 40; 40; 40; 255]%Z
              (FingerDetector.mkState true 7) Hg) as (_ & _ & E & _).
  exact E.
Defined.

(** ** The placeholder image *)

Section PlaceholderFacts.

Import RealPPGProcessor.

Variables sqrtQ' sqrtQ log10Q : Q -> Q.

Lemma placeholder_pixels (n : nat) :
  pixels (concat (repeat [128; 128; 128; 255]%Z n))
  = repeat (128, 128, 128, 255)%Z n.
Proof.
  induction n as [|n IH]; [reflexivity|].
  cbn [repeat concat app pixels]. rewrite IH. reflexivity.
Qed.

(** The image [extractImageData] returns is grey. *)
Lemma extractImageData_grey (e : FrameEnv) (imageData : list Z) :
  extractImageData e = Some imageData -> greyImage imageData.
Proof.
  unfold extractImageData.
  destruct (raised e ExtractImageData); [discriminate|].
  destruct (frame e) as [[w h]|]; [|discriminate].
  cbn [tryCatch]. intros E. injection E as <-.
  unfold greyImage. rewrite placeholder_pixels.
  apply Forall_forall. intros px Hpx. apply repeat_spec in Hpx. subst px.
  split; reflexivity.
Qed.

(** With the contour computed from the pixels, the detector never reports a
    finger. *)
Lemma placeholder_not_detected (e : FrameEnv) (s : state)
  (imageData : list Z) :
  contourFromPixels sqrtQ' e ->
  extractImageData e = Some imageData ->
  FingerDetector.detected (snd (detectionOf e s)) = false.
Proof.
  intros Hc Hi. unfold detectionOf.
  destruct (raised e DetectFinger); [reflexivity|].
  rewrite (Hc imageData Hi).
  rewrite (grey_contour sqrtQ' imageData (extractImageData_grey e imageData Hi)).
  reflexivity.
Qed.

(** The placeholder image never shows a finger.  [extractImageData] fills
    every frame with the grey pixel (128, 128, 128).  So when the contour is
    the one [detectFinger] computes from that image, no call of
    [processFrame] accepts its frame, whatever the frame, the state and the
    exceptions: the signal buffer and the two histories stay as they are,
    and the call returns null or an object that reports the finger as not
    detected. *)
Theorem placeholder_image_never_shows_a_finger :
  forall (e : FrameEnv) (s : state),
    contourFromPixels sqrtQ' e ->
    let r := processFrame sqrtQ log10Q e s in
    (forall ppgSignal : Sample, ~ accepted e s ppgSignal)
    /\ signalBuffer (fst r) = signalBuffer s
    /\ heartRateHistory (fst r) = heartRateHistory s
    /\ bpHistory (fst r) = bpHistory s
    /\ (snd r = None
        \/ exists res : Result,
             snd r = Some res /\ resultFingerDetected res = false).
Proof.
  intros e s Hc. cbv zeta.
  assert (Hno : forall ppgSignal : Sample, ~ accepted e s ppgSignal).
  { intros ppg (_ & _ & Hd & imageData & Hi & _).
    rewrite (placeholder_not_detected e s imageData Hc Hi) in Hd.
    discriminate. }
  split; [exact Hno|].
  destruct (processFrame_cases sqrtQ log10Q e s)
    as [[_ E]|[(_ & _ & E)|[(_ & _ & E)|[(_ & _ & E)|[(_ & _ & E)|[ppg Hacc]]]]]];
    try (rewrite E; cbn; repeat split; auto;
         right; eexists; split; reflexivity).
  exfalso. exact (Hno ppg Hacc).
Qed.

End PlaceholderFacts.

(** A frame of 2 by 2 pixels on a new processor, with the contour the pixel
    pipeline computes. *)
Lemma placeholder_image_never_shows_a_finger_witness :
  let e := RealPPGProcessor.mkEnv 1000 (Some (2, 2)) None None (1 # 2) None in
  contourFromPixels (fun v => v) e
  /\ snd (RealPPGProcessor.processFrame (fun v => v) (fun v => v) e
            RealPPGProcessor.init)
     = Some notDetectedResult.
Proof.
  cbv zeta.
  assert (Hc : contourFromPixels (fun v => v)
                 (RealPPGProcessor.mkEnv 1000 (Some (2, 2)) None None (1 # 2)
                                         None)).
  { intros imageData E. cbn in E. injection E as <-. reflexivity. }
  split; [exact Hc|].
  destruct (placeholder_image_never_shows_a_finger (fun v => v) (fun v => v)
              (fun v => v) _ RealPPGProcessor.init Hc)
    as (_ & _ & _ & _ & [E|(res & E & _)]).
  - discriminate E.
  - reflexivity.
Defined.

(** ** The estimator of the simulated processors *)

Section PeakIndexFacts.

Lemma differences_snoc (peaks : list nat) (i : nat) :
  differences (peaks ++ [i])
  = differences peaks
    ++ match rev peaks with
       | [] => []
       | p :: _ => [i - p]
       end.
Proof.
  induction peaks as [|p peaks IH]; [reflexivity|].
  destruct peaks as [|p' peaks].
  - reflexivity.
  - change (differences ((p :: p' :: peaks) ++ [i]))
      with ((p' - p) :: differences ((p' :: peaks) ++ [i])).
    rewrite IH.
    change (differences (p :: p' :: peaks))
      with ((p' - p) :: differences (p' :: peaks)).
    cbn [rev]. cbn [app].
    destruct (rev peaks ++ [p']) as [|q rest] eqn:E.
    + destruct (rev peaks); discriminate.
    + reflexivity.
Qed.

Lemma peakIndices_step_cases (signal : list Q) (threshold : Q)
  (minDistance : nat) (peaks : list nat) (i : nat) :
  peakIndices_step signal threshold minDistance peaks i = peaks
  \/ (peakIndices_step signal threshold minDistance peaks i = peaks ++ [i]
      /\ (nth (i - 1) signal 0 < nth i signal 0)%Q
      /\ (nth (i + 1) signal 0 < nth i signal 0)%Q
      /\ (threshold < nth i signal 0)%Q
      /\ match rev peaks with
         | [] => True
         | p :: _ => minDistance <= i - p
         end).
Proof.
  unfold peakIndices_step. cbv zeta.
  destruct (Qle_bool (nth i signal 0%Q) (nth (i - 1) signal 0%Q)) eqn:E1;
    [left; reflexivity|].
  destruct (Qle_bool (nth i signal 0%Q) (nth (i + 1) signal 0%Q)) eqn:E2;
    [left; reflexivity|].
  destruct (Qle_bool (nth i signal 0%Q) threshold) eqn:E3;
    [left; reflexivity|].
  cbn [negb andb].
  apply Qle_bool_false in E1. apply Qle_bool_false in E2.
  apply Qle_bool_false in E3.
  destruct (rev peaks) as [|p rest].
  - right. auto.
  - destruct (Nat.leb_spec minDistance (i - p)); [right; auto|left; reflexivity].
Qed.

(** The invariant of the loop over the indices [a, a + len). *)
Lemma peakIndices_fold (signal : list Q) (threshold : Q) (minDistance : nat)
  (len a : nat) (peaks : list nat) :
  1 <= a -> a + len + 1 <= length signal ->
  Forall (peakAt signal threshold) peaks ->
  Forall (fun p => p < a) peaks ->
  StronglySorted lt peaks ->
  Forall (fun d => minDistance <= d) (differences peaks) ->
  let r := fold_left (peakIndices_step signal threshold minDistance)
                     (seq a len) peaks in
  Forall (peakAt signal threshold) r
  /\ StronglySorted lt r
  /\ Forall (fun d => minDistance <= d) (differences r).
Proof.
  revert a peaks.
  induction len as [|len IH]; intros a peaks Ha Hlen H1 H2 H3 H4.
  - cbn. auto.
  - cbn [seq fold_left]. cbv zeta.
    destruct (peakIndices_step_cases signal threshold minDistance peaks a)
      as [E|(E & L1 & L2 & L3 & L4)]; rewrite E.
    + apply IH; try assumption; try lia.
      eapply Forall_impl; [|exact H2]. cbn. intros p Hp. lia.
    + apply IH; try lia.
      * apply Forall_app. split; [exact H1|].
        constructor; [|constructor]. unfold peakAt. repeat split; auto; lia.
      * apply Forall_app. split.
        -- eapply Forall_impl; [|exact H2]. cbn. intros p Hp. lia.
        -- constructor; [lia|constructor].
      * apply sorted_snoc; assumption.
      * rewrite differences_snoc. apply Forall_app. split; [exact H4|].
        destruct (rev peaks); constructor; [exact L4|constructor].
Qed.

(** What the shared loop of [findPeaks] returns: interior indices of strict
    local maxima above the threshold, in increasing order, consecutive ones
    at least [minDistance] apart. *)
Lemma peakIndices_sound (signal : list Q) (threshold : Q) (minDistance : nat) :
  let peaks := peakIndices signal threshold minDistance in
  Forall (peakAt signal threshold) peaks
  /\ StronglySorted lt peaks
  /\ Forall (fun d => minDistance <= d) (differences peaks).
Proof.
  cbv zeta. unfold peakIndices.
  destruct (Nat.le_gt_cases (length signal) 2) as [Hshort|Hlong].
  - replace (length signal - 2) with 0 by lia. cbn.
    repeat split; constructor.
  - apply peakIndices_fold; try constructor; lia.
Qed.

Lemma differences_length (peaks : list nat) :
  length (differences peaks) = length peaks - 1.
Proof.
  induction peaks as [|p peaks IH]; [reflexivity|].
  destruct peaks as [|p' peaks]; [reflexivity|].
  change (differences (p :: p' :: peaks))
    with ((p' - p) :: differences (p' :: peaks)).
  cbn [length] in *. rewrite IH. lia.
Qed.

Lemma sum_lower (m : nat) (l : list nat) (acc : Q) :
  Forall (fun d => m <= d) l ->
  (acc + num m * num (length l)
   <= fold_left (fun sum val => sum + num val) l acc)%Q.
Proof.
  intros H. revert acc. induction H as [|d l Hd _ IH]; intros acc.
  - cbn [fold_left length]. change (num 0) with 0%Q. lra.
  - cbn [fold_left length]. specialize (IH (acc + num d)%Q).
    rewrite num_S.
    assert (Hmd : (num m <= num d)%Q).
    { unfold num. rewrite <- Zle_Qle. lia. }
    lra.
Qed.

(** The mean of intervals that are all at least [m] is at least [m]. *)
Lemma meanInterval_lower (m : nat) (peaks : list nat) :
  2 <= length peaks ->
  Forall (fun d => m <= d) (differences peaks) ->
  (num m <= meanInterval peaks)%Q.
Proof.
  intros Hlen H. unfold meanInterval.
  assert (Hk : (0 < num (length (differences peaks)))%Q).
  { apply num_pos. rewrite differences_length. lia. }
  apply Qle_shift_div_l; [exact Hk|].
  pose proof (sum_lower m (differences peaks) 0 H) as S. lra.
Qed.

End PeakIndexFacts.

Section EnhancedEstimatorFacts.

Import EnhancedPPGProcessor.

Lemma estimateHeartRate_plausible (signal : list Q) (hr : Z) :
  estimateHeartRate signal = Some hr -> plausible hr.
Proof.
  unfold estimateHeartRate.
  destruct (length signal <? 60); [discriminate|].
  destruct (length (findPeaks signal) <? 2); [discriminate|].
  cbv zeta. intros E. injection E as <-.
  unfold plausible, minHeartRate, maxHeartRate.
  change (inject_Z 60) with 60%Q. change (inject_Z 150) with 150%Q.
  set (h := (60 * sampleRate / _)%Q). clearbody h.
  apply js_round_between.
  - change (inject_Z 60) with 60%Q.
    destruct (js_max_spec 60 (js_min 150 h)) as [[H ->]|[H ->]]; lra.
  - change (inject_Z 150) with 150%Q.
    destruct (js_max_spec 60 (js_min 150 h)) as [[H ->]|[H ->]];
      destruct (js_min_spec 150 h) as [[H' E]|[H' E]]; rewrite E in *; lra.
Qed.

(** The estimate of the simulated processor.  When
    [EnhancedPPGProcessor.estimateHeartRate] returns a value, the signal has
    at least 60 samples and at least two peaks; the peaks are interior strict
    local maxima above the threshold, in increasing order and at least 12
    samples apart; hence the rate computed from their mean interval is at
    most 150, the upper clamp leaves it as it is, and the value returned is
    that rate raised to 60 if it is lower, rounded: a value between 60 and
    150. *)
Theorem enhanced_estimate_in_range :
  forall (signal : list Q) (hr : Z),
    estimateHeartRate signal = Some hr ->
    let peaks := findPeaks signal in
    60 <= length signal
    /\ 2 <= length peaks
    /\ Forall (peakAt signal (calculateDynamicThreshold signal)) peaks
    /\ StronglySorted lt peaks
    /\ Forall (fun d => 12 <= d) (differences peaks)
    /\ (1800 / meanInterval peaks <= 150)%Q
    /\ hr = js_round (js_max 60 (1800 / meanInterval peaks))
    /\ plausible hr.
Proof.
  intros signal hr E. cbv zeta. unfold estimateHeartRate in E.
  destruct (Nat.ltb_spec (length signal) 60) as [Hn|Hn]; [discriminate|].
  destruct (Nat.ltb_spec (length (findPeaks signal)) 2) as [Hp|Hp];
    [discriminate|].
  cbv zeta in E. injection E as <-.
  destruct (peakIndices_sound signal (calculateDynamicThreshold signal) 12)
    as (S1 & S2 & S3).
  fold (findPeaks signal) in S1, S2, S3.
  fold (meanInterval (findPeaks signal)).
  assert (Hpl : plausible
                  (js_round
                     (js_max (inject_Z minHeartRate)
                        (js_min (inject_Z maxHeartRate)
                           (60 * sampleRate
                            / meanInterval (findPeaks signal)))))).
  { apply (estimateHeartRate_plausible signal). unfold estimateHeartRate.
    apply Nat.ltb_ge in Hn. apply Nat.ltb_ge in Hp. rewrite Hn, Hp.
    reflexivity. }
  pose proof (meanInterval_lower 12 (findPeaks signal) Hp S3) as Hm.
  change (num 12) with 12%Q in Hm.
  set (avg := meanInterval (findPeaks signal)) in *. clearbody avg.
  assert (Hraw : (1800 / avg <= 150)%Q)
    by (apply Qle_shift_div_r; lra).
  assert (E60 : (60 * sampleRate / avg == 1800 / avg)%Q)
    by (unfold sampleRate; field; lra).
  split; [exact Hn|]. split; [exact Hp|]. split; [exact S1|].
  split; [exact S2|]. split; [exact S3|]. split; [exact Hraw|].
  unfold minHeartRate, maxHeartRate.
  change (inject_Z 60) with 60%Q. change (inject_Z 150) with 150%Q.
  assert (Emin : (js_min 150 (60 * sampleRate / avg) == 1800 / avg)%Q).
  { destruct (js_min_spec 150 (60 * sampleRate / avg)) as [[H ->]|[H ->]];
      lra. }
  unfold minHeartRate, maxHeartRate in Hpl.
  change (inject_Z 60) with 60%Q in Hpl.
  change (inject_Z 150) with 150%Q in Hpl.
  split; [rewrite Emin; reflexivity|exact Hpl].
Qed.

End EnhancedEstimatorFacts.

(** Sixty samples with a spike at index 10 and one at index 40. *)
Lemma enhanced_estimate_in_range_witness :
  let signal := (repeat 0 10 ++ [1] ++ repeat 0 29 ++ [1] ++ repeat 0 19)%Q in
  EnhancedPPGProcessor.estimateHeartRate signal = Some 60%Z
  /\ EnhancedPPGProcessor.findPeaks signal = [10; 40]
  /\ plausible 60.
Proof.
  cbv zeta.
  assert (E : EnhancedPPGProcessor.estimateHeartRate
                (repeat 0 10 ++ [1] ++ repeat 0 29 ++ [1] ++ repeat 0 19)%Q
              = Some 60%Z) by (vm_compute; reflexivity).
  split; [exact E|]. split; [vm_compute; reflexivity|].
  destruct (enhanced_estimate_in_range _ 60%Z E) as (_ & _ & _ & _ & _ & _ & _ & H).
  exact H.
Defined.

(** ** A session of the simulated processor *)

Section EnhancedSessionFacts.

Import EnhancedPPGProcessor.

Variable calculateConfidence : list Q -> option Z -> list Z -> Q.

Lemma sum_Z_between (lo hi : Z) (l : list Z) (acc : Q) :
  Forall (fun v => (lo <= v <= hi)%Z) l ->
  (acc + inject_Z lo * num (length l)
   <= fold_left (fun a val => a + inject_Z val) l acc)%Q
  /\ (fold_left (fun a val => a + inject_Z val) l acc
      <= acc + inject_Z hi * num (length l))%Q.
Proof.
  intros H. revert acc. induction H as [|v l [Hlo Hhi] _ IH]; intros acc.
  - cbn [fold_left length]. change (num 0) with 0%Q. split; lra.
  - cbn [fold_left length]. destruct (IH (acc + inject_Z v)%Q) as [I1 I2].
    rewrite num_S. rewrite Zle_Qle in Hlo, Hhi. split; lra.
Qed.

Lemma Forall_lastN {A : Type} (P : A -> Prop) (n : nat) (l : list A) :
  Forall P l -> Forall P (lastN n l).
Proof.
  intros H. unfold lastN.
  rewrite <- (firstn_skipn (length l - n) l) in H.
  apply Forall_app in H. apply H.
Qed.

(** The smoothed value of a history of plausible rates is plausible. *)
Lemma getSmoothedHeartRate_plausible (s : state) (v : Z) :
  Forall plausible (heartRateHistory s) ->
  getSmoothedHeartRate s = Some v -> plausible v.
Proof.
  intros H. unfold getSmoothedHeartRate.
  destruct (heartRateHistory s) as [|a h] eqn:E; [discriminate|].
  cbv zeta. intros Ev. injection Ev as <-.
  set (recent := lastN 3 (a :: h)).
  assert (Hr : Forall plausible recent) by apply Forall_lastN, H.
  assert (Hk : (0 < num (length recent))%Q).
  { apply num_pos. unfold recent. rewrite lastN_length. cbn [length]. lia. }
  destruct (sum_Z_between 60 150 recent 0 Hr) as [S1 S2].
  change (inject_Z 60) with 60%Q in S1. change (inject_Z 150) with 150%Q in S2.
  unfold plausible. apply js_round_between.
  - change (inject_Z 60) with 60%Q. apply Qle_shift_div_l; [exact Hk|]. lra.
  - change (inject_Z 150) with 150%Q. apply Qle_shift_div_r; [exact Hk|]. lra.
Qed.

Lemma calculateMetrics_keeps (s : state) :
  enhancedInvariant s ->
  enhancedInvariant
    (fst (calculateMetrics enhancedEstimate calculateConfidence s)).
Proof.
  intros [Ha Hb Hp]. unfold calculateMetrics. cbv zeta. cbn [fst].
  destruct (enhancedEstimate (greenBuffer (channels s))) as [v|] eqn:E;
    [|constructor; assumption].
  destruct (v =? 0)%Z; [constructor; assumption|].
  assert (Hv : plausible v)
    by (apply (estimateHeartRate_plausible _ _ E)).
  rewrite !length_app. cbn [length].
  destruct (Nat.ltb_spec 20 (length (heartRateHistory s) + 1)) as [Hl|Hl];
    constructor; cbn [heartRateHistory confidenceHistory].
  - destruct (heartRateHistory s), (confidenceHistory s);
      cbn [app tl length] in *; try discriminate; try lia.
    rewrite !length_app. cbn [length]. lia.
  - destruct (heartRateHistory s); cbn [app tl length] in *; [lia|].
    rewrite length_app. cbn [length]. lia.
  - assert (F : Forall plausible (heartRateHistory s ++ [v]))
      by (apply Forall_app; auto).
    destruct (heartRateHistory s ++ [v]); [constructor|].
    inversion F; assumption.
  - rewrite !length_app. cbn [length]. lia.
  - rewrite length_app. cbn [length]. lia.
  - apply Forall_app; auto.
Qed.

Lemma enhanced_addToBuffer_keeps (rgb : RGB) (t : Q) (s : state) :
  enhancedInvariant s -> enhancedInvariant (addToBuffer rgb t s).
Proof. intros [Ha Hb Hp]. constructor; assumption. Qed.

Lemma enhanced_processFrame_keeps (rgb : RGB) (t : Q) (s : state) :
  enhancedInvariant s ->
  enhancedInvariant
    (fst (processFrame enhancedEstimate calculateConfidence rgb t s)).
Proof.
  intros H. unfold processFrame.
  destruct (isProcessing s); [exact H|]. cbv zeta.
  destruct (60 <=? _).
  - pose proof (calculateMetrics_keeps (addToBuffer rgb t s)
                  (enhanced_addToBuffer_keeps rgb t s H)) as K.
    destruct (calculateMetrics _ _ _) as [s' res]. exact K.
  - apply enhanced_addToBuffer_keeps, H.
Qed.

Lemma enhanced_invariant (s : state) :
  enhancedReachable enhancedEstimate calculateConfidence s ->
  enhancedInvariant s.
Proof.
  intros H. induction H as [|rgb t s _ IH|rgb t s _ IH|s _ IH|s _ IH].
  - constructor; [reflexivity|cbn; lia|constructor].
  - apply enhanced_processFrame_keeps, IH.
  - apply enhanced_addToBuffer_keeps, IH.
  - apply calculateMetrics_keeps, IH.
  - constructor; [reflexivity|cbn; lia|constructor].
Qed.

(** A session of the simulated processor.  In every state an
    [EnhancedPPGProcessor] reaches, with the estimate computed by
    [estimateHeartRate(applyFiltering(signal))] and whatever the confidence
    computation returns: the heart-rate and confidence histories have the
    same length, at most 20; every stored rate lies between 60 and 150, and
    so does the smoothed rate; and in the object [calculateMetrics] returns
    the heart rate lies between 60 and 150 and [isValid] is true exactly
    when this call produced an estimate. *)
Theorem enhanced_session_invariant :
  forall s : state,
    enhancedReachable enhancedEstimate calculateConfidence s ->
    enhancedInvariant s
    /\ (forall v : Z, getSmoothedHeartRate s = Some v -> plausible v)
    /\ let r := calculateMetrics enhancedEstimate calculateConfidence s in
       (forall v : Z, heartRate (snd r) = Some v -> plausible v)
       /\ (isValid (snd r) = true
           <-> enhancedEstimate (greenBuffer (channels s)) <> None).
Proof.
  intros s H. pose proof (enhanced_invariant s H) as I.
  split; [exact I|].
  split; [intros v; apply getSmoothedHeartRate_plausible, I|].
  cbv zeta. pose proof (calculateMetrics_keeps s I) as K.
  unfold calculateMetrics in *. cbv zeta in *. cbn [fst snd] in *.
  cbn [heartRate isValid]. split.
  - intros v. apply getSmoothedHeartRate_plausible, K.
  - destruct (enhancedEstimate (greenBuffer (channels s))) as [v|] eqn:E.
    + pose proof (estimateHeartRate_plausible _ _ E) as [P1 P2].
      unfold minHeartRate, maxHeartRate.
      split; [discriminate|]. intros _.
      apply andb_true_iff. split; apply Z.leb_le; assumption.
    + split; [discriminate|congruence].
Qed.

End EnhancedSessionFacts.

(** A new processor after one frame. *)
Lemma enhanced_session_invariant_witness :
  let s := fst (EnhancedPPGProcessor.processFrame enhancedEstimate
                  (fun _ _ _ => 0%Q) (mkRGB 1 1 1) 0
                  EnhancedPPGProcessor.init) in
  length (greenBuffer (EnhancedPPGProcessor.channels s)) = 1
  /\ enhancedInvariant s.
Proof.
  cbv zeta. split; [reflexivity|].
  apply (enhanced_session_invariant (fun _ _ _ => 0%Q)).
  apply enhanced_processFrame, enhanced_new.
Defined.

(** ** The filters of the simulated processors *)

Section FilterFacts.

Lemma movingAverage_length (signal : list Q) :
  length (movingAverage signal) = length signal.
Proof. unfold movingAverage. cbv zeta. rewrite length_map. apply length_seq. Qed.

End FilterFacts.

(** ** Outliers *)

Section OutlierFacts.

Import AdvancedPPGProcessor.

Lemma sorted_nth_le (l : list Q) :
  StronglySorted Qle l ->
  forall i j : nat, i <= j -> j < length l -> (nth i l 0 <= nth j l 0)%Q.
Proof.
  intros H. induction H as [|a l _ IH Ha]; intros i j Hij Hj.
  - cbn in Hj. lia.
  - destruct i as [|i], j as [|j]; cbn [nth length] in *.
    + lra.
    + rewrite Forall_forall in Ha. apply Ha, nth_In. lia.
    + lia.
    + apply IH; lia.
Qed.

Lemma sortNumbers_strongly (l : list Q) : StronglySorted Qle (sortNumbers l).
Proof.
  apply Sorted_StronglySorted; [|apply sortNumbers_sorted].
  intros a b c. apply Qle_trans.
Qed.

Lemma sortNumbers_length (l : list Q) : length (sortNumbers l) = length l.
Proof. symmetry. apply Permutation_length, sortNumbers_perm. Qed.

Lemma sortNumbers_member (l : list Q) (i : nat) :
  i < length l -> In (nth i (sortNumbers l) 0%Q) l.
Proof.
  intros H. apply (Permutation_in _ (Permutation_sym (sortNumbers_perm l))).
  apply nth_In. rewrite sortNumbers_length. exact H.
Qed.

Lemma removeOutliers_incl (data : list Q) : incl (removeOutliers data) data.
Proof.
  unfold removeOutliers. destruct (length data <? 3); [apply incl_refl|].
  cbv zeta. apply incl_filter.
Qed.

(** The first quartile passes the test of [removeOutliers]. *)
Lemma removeOutliers_quartile (data : list Q) :
  3 <= length data ->
  let sorted := sortNumbers data in
  let q1 := nth (length sorted / 4) sorted 0%Q in
  let q3 := nth (length sorted * 3 / 4) sorted 0%Q in
  (q1 <= q3)%Q
  /\ In q1 (removeOutliers data)
  /\ Forall (fun val => (q1 - (15 # 10) * (q3 - q1) <= val)%Q
                        /\ (val <= q3 + (15 # 10) * (q3 - q1))%Q)
            (removeOutliers data).
Proof.
  intros Hn. cbv zeta. rewrite sortNumbers_length.
  set (n := length data) in *.
  assert (H1 : n / 4 < n) by (apply Nat.div_lt; lia).
  assert (H3 : n * 3 / 4 < n) by (apply Nat.Div0.div_lt_upper_bound; lia).
  assert (H13 : n / 4 <= n * 3 / 4)
    by (apply Nat.Div0.div_le_mono; lia).
  assert (Hq : (nth (n / 4) (sortNumbers data) 0
                <= nth (n * 3 / 4) (sortNumbers data) 0)%Q).
  { apply sorted_nth_le; [apply sortNumbers_strongly|exact H13|].
    rewrite sortNumbers_length. exact H3. }
  split; [exact Hq|].
  unfold removeOutliers. fold n.
  destruct (Nat.ltb_spec n 3) as [Hlt|_]; [lia|].
  cbv zeta. rewrite sortNumbers_length. fold n.
  set (q1 := nth (n / 4) (sortNumbers data) 0%Q) in *.
  set (q3 := nth (n * 3 / 4) (sortNumbers data) 0%Q) in *.
  split.
  - apply filter_In. split; [apply sortNumbers_member; exact H1|].
    apply andb_true_iff. split; apply Qle_bool_iff; lra.
  - apply Forall_forall. intros v Hv. apply filter_In in Hv.
    destruct Hv as [_ Hv]. apply andb_true_iff in Hv.
    destruct Hv as [L U]. apply Qle_bool_iff in L. apply Qle_bool_iff in U.
    split; assumption.
Qed.

Lemma removeOutliers_nonempty (data : list Q) :
  data <> [] -> removeOutliers data <> [].
Proof.
  intros Hne. destruct (Nat.lt_ge_cases (length data) 3) as [Hn|Hn].
  - unfold removeOutliers. apply Nat.ltb_lt in Hn. rewrite Hn. exact Hne.
  - destruct (removeOutliers_quartile data Hn) as (_ & Hin & _).
    intros E. rewrite E in Hin. destruct Hin.
Qed.

(** Outlier removal keeps the bulk.  [removeOutliers] returns members of
    [data] in their order, all of them when there are fewer than three;
    otherwise the values it keeps lie within 1.5 interquartile ranges of the
    quartiles, the first quartile is always one of them, and so the result
    of a non-empty array is never empty: the test for an empty result in
    [calculateHRFromPeaks] never succeeds. *)
Theorem removeOutliers_keeps_the_bulk :
  forall data : list Q,
    let kept := removeOutliers data in
    let sorted := sortNumbers data in
    let q1 := nth (length sorted / 4) sorted 0%Q in
    let q3 := nth (length sorted * 3 / 4) sorted 0%Q in
    incl kept data
    /\ length kept <= length data
    /\ (length data < 3 -> kept = data)
    /\ (data <> [] -> kept <> [])
    /\ (3 <= length data ->
        (q1 <= q3)%Q /\ In q1 kept
        /\ Forall (fun val => (q1 - (15 # 10) * (q3 - q1) <= val)%Q
                              /\ (val <= q3 + (15 # 10) * (q3 - q1))%Q) kept).
Proof.
  intros data. cbv zeta.
  split; [apply removeOutliers_incl|].
  split.
  { unfold removeOutliers. destruct (length data <? 3); [lia|].
    cbv zeta. apply filter_length_le. }
  split.
  { intros H. unfold removeOutliers. apply Nat.ltb_lt in H. rewrite H.
    reflexivity. }
  split; [apply removeOutliers_nonempty|].
  apply removeOutliers_quartile.
Qed.

End OutlierFacts.

(** ** The estimate of [AdvancedPPGProcessor] *)

Section AdvancedEstimateFacts.

Import AdvancedPPGProcessor.

Variable sqrtQ : Q -> Q.
Variable magnitude : list Q -> nat -> Q.

Lemma inject_Z_between (z lo hi : Z) :
  (lo <= z <= hi)%Z ->
  (inject_Z lo <= inject_Z z)%Q /\ (inject_Z z <= inject_Z hi)%Q.
Proof. intros [H1 H2]. rewrite <- !Zle_Qle. split; assumption. Qed.

Lemma interval_rate (d : nat) :
  12 <= d -> withinCeiling (60 / (num d / sampleRate))%Q.
Proof.
  intros Hd.
  assert (H12 : (12 <= num d)%Q).
  { change 12%Q with (num 12). unfold num. rewrite <- Zle_Qle. lia. }
  assert (E : (60 / (num d / sampleRate) == 1800 / num d)%Q)
    by (unfold sampleRate; field; lra).
  unfold withinCeiling. rewrite E. split.
  - apply Qlt_shift_div_l; lra.
  - apply Qle_shift_div_r; lra.
Qed.

Lemma sum_ceiling (l : list Q) (acc : Q) :
  Forall withinCeiling l ->
  (acc <= fold_left Qplus l acc)%Q
  /\ (fold_left Qplus l acc <= acc + 150 * num (length l))%Q.
Proof.
  intros H. revert acc. induction H as [|v l [H0 H1] _ IH]; intros acc.
  - cbn [fold_left length]. change (num 0) with 0%Q. split; lra.
  - cbn [fold_left length]. destruct (IH (acc + v)%Q) as [I1 I2].
    rewrite num_S. split; lra.
Qed.

Lemma mean_ceiling (l : list Q) :
  l <> [] -> Forall withinCeiling l ->
  withinCeiling (fold_left Qplus l 0 / num (length l))%Q.
Proof.
  intros Hne H. destruct l as [|a l]; [congruence|].
  assert (Hk : (0 < num (length (a :: l)))%Q) by (apply num_pos; cbn; lia).
  inversion H as [|? ? [A0 A1] Hl]; subst.
  destruct (sum_ceiling l (0 + a)%Q Hl) as [S1 S2].
  cbn [fold_left]. cbn [length] in *.
  pose proof (num_S (length l)) as EN.
  split.
  - apply Qlt_shift_div_l; [exact Hk|]. lra.
  - apply Qle_shift_div_r; [exact Hk|]. lra.
Qed.

Lemma calculateHRFromPeaks_ceiling (signal : list Q) (p : Q) :
  calculateHRFromPeaks sqrtQ signal = Some p -> withinCeiling p.
Proof.
  unfold calculateHRFromPeaks. cbv zeta.
  destruct (length (findPeaks sqrtQ signal) <? 2); [discriminate|].
  set (intervals := map _ (differences (findPeaks sqrtQ signal))).
  assert (Hi : Forall withinCeiling intervals).
  { destruct (peakIndices_sound signal
                (calculateAdaptiveThreshold sqrtQ signal) 12) as (_ & _ & S3).
    fold (findPeaks sqrtQ signal) in S3. unfold intervals.
    apply Forall_forall. intros v Hv. apply in_map_iff in Hv.
    destruct Hv as (d & <- & Hd). rewrite Forall_forall in S3.
    apply interval_rate, S3, Hd. }
  assert (Hk : Forall withinCeiling (removeOutliers intervals)).
  { apply Forall_forall. intros v Hv. rewrite Forall_forall in Hi.
    apply Hi, (removeOutliers_incl intervals), Hv. }
  destruct (removeOutliers intervals) as [|a kept] eqn:E; [discriminate|].
  intros Ep. injection Ep as <-.
  apply (mean_ceiling (a :: kept)); [discriminate|exact Hk].
Qed.

Lemma dominant_fold (signal : list Q) (idx : list nat) (acc : Q * Q) :
  snd acc = 0%Q
  \/ ((minHeartRate / 60 <= snd acc)%Q /\ (snd acc <= maxHeartRate / 60)%Q) ->
  let r := fold_left (dominant_step magnitude signal) idx acc in
  snd r = 0%Q
  \/ ((minHeartRate / 60 <= snd r)%Q /\ (snd r <= maxHeartRate / 60)%Q).
Proof.
  revert acc. induction idx as [|i idx IH]; intros acc H; [exact H|].
  cbn [fold_left]. apply IH. unfold dominant_step. cbv zeta.
  destruct (Qle_bool _ _ && Qle_bool _ _) eqn:E; [|exact H].
  destruct (negb _); [|exact H].
  apply andb_true_iff in E. destruct E as [L U].
  apply Qle_bool_iff in L. apply Qle_bool_iff in U.
  right. cbn [snd]. split; assumption.
Qed.

Lemma calculateHRFromFFT_range (signal : list Q) (f : Q) :
  calculateHRFromFFT magnitude signal = Some f ->
  (60 <= f)%Q /\ (f <= 150)%Q.
Proof.
  unfold calculateHRFromFFT.
  destruct (length signal <? 64); [discriminate|]. cbv zeta.
  pose proof (dominant_fold signal (seq 0 ((length signal + 1) / 2))
                (0%Q, 0%Q) (or_introl eq_refl)) as D.
  cbv zeta in D.
  set (df := snd (fold_left _ _ _)) in *. clearbody df.
  destruct D as [E|[L U]].
  - rewrite E. cbn. discriminate.
  - destruct (negb _); [|discriminate]. intros Ef. injection Ef as <-.
    unfold minHeartRate, maxHeartRate in *.
    assert (L' : (1 <= df)%Q)
      by (eapply Qle_trans; [|exact L]; vm_compute; discriminate).
    assert (U' : (df <= 5 # 2)%Q)
      by (eapply Qle_trans; [exact U|]; vm_compute; discriminate).
    split; lra.
Qed.

Lemma truthy_some (v : option Q) :
  truthy v = true -> exists x : Q, v = Some x.
Proof. destruct v as [x|]; [exists x; reflexivity|discriminate]. Qed.

Lemma finalHR_ceiling (signal : list Q) (hr : Q) :
  finalHR sqrtQ magnitude signal = Some hr -> withinCeiling hr.
Proof.
  unfold finalHR. cbv zeta.
  set (d := detrend (bandpassFilter signal)).
  pose proof (calculateHRFromPeaks_ceiling d) as Hp.
  pose proof (calculateHRFromFFT_range d) as Hf.
  destruct (truthy (calculateHRFromPeaks sqrtQ d)) eqn:Tp;
    destruct (truthy (calculateHRFromFFT magnitude d)) eqn:Tf; cbn [andb].
  - destruct (calculateHRFromPeaks sqrtQ d) as [p|]; [|discriminate].
    destruct (calculateHRFromFFT magnitude d) as [f|]; [|discriminate].
    destruct (Hp p eq_refl) as [P0 P1]. destruct (Hf f eq_refl) as [F0 F1].
    intros E. injection E as <-.
    assert (R : (24 <= js_round ((6 # 10) * p + (4 # 10) * f) <= 150)%Z).
    { apply js_round_between.
      - change (inject_Z 24) with 24%Q. lra.
      - change (inject_Z 150) with 150%Q. lra. }
    destruct (inject_Z_between _ 24 150 R) as [R0 R1].
    change (inject_Z 24) with 24%Q in R0.
    change (inject_Z 150) with 150%Q in R1.
    unfold withinCeiling. split; lra.
  - intros E. apply Hp, E.
  - intros E. destruct (Hf hr E) as [F0 F1]. split; lra.
  - intros E. destruct (Hf hr E) as [F0 F1]. split; lra.
Qed.

(** The median of a history within the ceiling. *)
Lemma advanced_smoothed_ceiling (s : state) (v : Q) :
  Forall withinCeiling (heartRateHistory s) ->
  getSmoothedHeartRate s = Some v -> (0 <= v)%Q /\ (v <= 150)%Q.
Proof.
  intros H. unfold getSmoothedHeartRate.
  destruct (heartRateHistory s) as [|a h] eqn:E; [discriminate|].
  cbv zeta. rewrite sortNumbers_length.
  assert (Hm : forall i, i < length (a :: h) ->
                 withinCeiling (nth i (sortNumbers (a :: h)) 0%Q)).
  { intros i Hi. rewrite Forall_forall in H. apply H, sortNumbers_member, Hi. }
  set (n := length (a :: h)) in *.
  assert (Hn : 0 < n) by (unfold n; cbn; lia).
  assert (H2 : n / 2 < n) by (apply Nat.div_lt; lia).
  destruct (n mod 2 =? 0); intros Ev; injection Ev as <-.
  - destruct (Hm (n / 2 - 1)) as [A0 A1]; [lia|].
    destruct (Hm (n / 2) H2) as [B0 B1].
    assert (R : (0 <= js_round ((nth (n / 2 - 1) (sortNumbers (a :: h)) 0
                                 + nth (n / 2) (sortNumbers (a :: h)) 0) / 2)%Q
                 <= 150)%Z).
    { apply js_round_between; unfold Qdiv; change (/ 2)%Q with (1 # 2)%Q.
      - change (inject_Z 0) with 0%Q. lra.
      - change (inject_Z 150) with 150%Q. lra. }
    destruct (inject_Z_between _ 0 150 R) as [R0 R1].
    split; [exact R0|exact R1].
  - destruct (Hm (n / 2) H2) as [B0 B1].
    split; [apply Qlt_le_weak; exact B0|exact B1].
Qed.

Lemma advanced_calculateHeartRate_keeps (s : state) :
  advancedInvariant s ->
  advancedInvariant
    (fst (calculateHeartRate (finalHR sqrtQ magnitude) s)).
Proof.
  intros [Hb Hc]. unfold calculateHeartRate.
  destruct (finalHR sqrtQ magnitude (greenBuffer (channels s))) as [hr|] eqn:E;
    [|constructor; assumption].
  destruct (Qeq_bool hr 0); [constructor; assumption|].
  cbv zeta. cbn [fst]. constructor; cbn [heartRateHistory].
  - apply bounded_push, Hb.
  - apply Forall_push; [exact Hc|]. apply (finalHR_ceiling _ _ E).
Qed.

Lemma advanced_addToBuffer_keeps (rgb : RGB) (t : Q) (s : state) :
  advancedInvariant s -> advancedInvariant (addToBuffer rgb t s).
Proof. intros [Hb Hc]. constructor; assumption. Qed.

Lemma advanced_processFrame_keeps (rgb : RGB) (t : Q) (s : state) :
  advancedInvariant s ->
  advancedInvariant (fst (processFrame (finalHR sqrtQ magnitude) rgb t s)).
Proof.
  intros H. unfold processFrame. cbv zeta.
  destruct (60 <=? _).
  - pose proof (advanced_calculateHeartRate_keeps (addToBuffer rgb t s)
                  (advanced_addToBuffer_keeps rgb t s H)) as K.
    destruct (calculateHeartRate _ _) as [s' hr]. exact K.
  - apply advanced_addToBuffer_keeps, H.
Qed.

Lemma advanced_invariant (s : state) :
  advancedReachable (finalHR sqrtQ magnitude) s -> advancedInvariant s.
Proof.
  intros H. induction H as [|rgb t s _ IH|rgb t s _ IH|s _ IH|s _ IH].
  - constructor; [cbn; lia|constructor].
  - apply advanced_processFrame_keeps, IH.
  - apply advanced_addToBuffer_keeps, IH.
  - apply advanced_calculateHeartRate_keeps, IH.
  - constructor; [cbn; lia|constructor].
Qed.

Lemma calculateHeartRate_value (s : state) (v : Q) :
  advancedInvariant s ->
  snd (calculateHeartRate (finalHR sqrtQ magnitude) s) = Some v ->
  (0 <= v)%Q /\ (v <= 150)%Q.
Proof.
  intros I E. pose proof (advanced_calculateHeartRate_keeps s I) as [_ K].
  unfold calculateHeartRate in *.
  destruct (finalHR sqrtQ magnitude (greenBuffer (channels s))) as [hr|];
    [|discriminate].
  destruct (Qeq_bool hr 0); [discriminate|].
  cbv zeta in *. cbn [fst snd] in *.
  exact (advanced_smoothed_ceiling _ v K E).
Qed.

(** The estimate never exceeds 150.  Whatever [Math.sqrt] and the spectrum
    computation return: a value of [finalHR] is positive and at most 150, so
    it is never discarded as 0; in every state an [AdvancedPPGProcessor]
    reaches the history holds at most 10 such values; the heart rate
    [processFrame] returns lies between 0 and 150; and [isValid] is true
    exactly when that heart rate is at least 60. *)
Theorem advanced_estimate_never_exceeds_ceiling :
  forall s : state,
    advancedReachable (finalHR sqrtQ magnitude) s ->
    advancedInvariant s
    /\ (forall (signal : list Q) (hr : Q),
           finalHR sqrtQ magnitude signal = Some hr ->
           withinCeiling hr /\ Qeq_bool hr 0 = false)
    /\ forall (rgb : RGB) (t : Q) (res : Result),
         snd (processFrame (finalHR sqrtQ magnitude) rgb t s) = Some res ->
         match heartRate res with
         | Some v =>
             (0 <= v)%Q /\ (v <= 150)%Q
             /\ (isValid res = true <-> (60 <= v)%Q)
         | None => isValid res = false
         end.
Proof.
  intros s H. pose proof (advanced_invariant s H) as I.
  split; [exact I|]. split.
  - intros signal hr E. pose proof (finalHR_ceiling signal hr E) as [C0 C1].
    split; [split; assumption|].
    destruct (Qeq_bool hr 0) eqn:Z; [|reflexivity].
    apply Qeq_bool_iff in Z. lra.
  - intros rgb t res E. unfold processFrame in E. cbv zeta in E.
    destruct (60 <=? _); [|discriminate].
    pose proof (calculateHeartRate_value (addToBuffer rgb t s)) as V.
    destruct (calculateHeartRate _ _) as [s' hr]. cbn [snd] in *.
    injection E as <-. cbn [heartRate isValid].
    destruct hr as [v|]; [|reflexivity].
    destruct (V v (advanced_addToBuffer_keeps rgb t s I) eq_refl) as [V0 V1].
    split; [exact V0|]. split; [exact V1|].
    unfold minHeartRate, maxHeartRate.
    rewrite andb_true_iff, !Qle_bool_iff. tauto.
Qed.

End AdvancedEstimateFacts.

(** A new processor after one frame, with a spectrum of magnitude 1. *)
Lemma advanced_estimate_never_exceeds_ceiling_witness :
  let estimate := AdvancedPPGProcessor.finalHR (fun v => v) (fun _ _ => 1%Q) in
  let s := fst (AdvancedPPGProcessor.processFrame estimate (mkRGB 1 1 1) 0
                  AdvancedPPGProcessor.init) in
  length (greenBuffer (AdvancedPPGProcessor.channels s)) = 1
  /\ advancedInvariant s.
Proof.
  cbv zeta. split; [reflexivity|].
  apply (advanced_estimate_never_exceeds_ceiling (fun v => v) (fun _ _ => 1%Q)).
  apply advanced_processFrame, advanced_new.
Defined.

(** ** The display signals of the simulated processors *)

Section SimulatedDisplayFacts.

Lemma span_member (signal : list Q) (v : Q) :
  In v signal ->
  (RealPPGProcessor.minimum signal <= v)%Q
  /\ (v <= RealPPGProcessor.maximum signal)%Q.
Proof.
  intros Hv.
  pose proof (minimum_le signal) as H1. pose proof (maximum_ge signal) as H2.
  rewrite Forall_forall in H1, H2. split; [apply H1|apply H2]; exact Hv.
Qed.

(** A value scaled from the span of its array to [-1, 1]; a span of 0 is
    replaced by [fallback]. *)
Lemma rescaled_between (signal : list Q) (v fallback : Q) :
  In v signal ->
  let min := RealPPGProcessor.minimum signal in
  let max := RealPPGProcessor.maximum signal in
  let range := if Qeq_bool (max - min) 0 then fallback else (max - min)%Q in
  (-1 <= ((v - min) / range - (1 # 2)) * 2)%Q
  /\ (((v - min) / range - (1 # 2)) * 2 <= 1)%Q.
Proof.
  intros Hv. cbv zeta. destruct (span_member signal v Hv) as [H1 H2].
  destruct (Qeq_bool _ 0) eqn:E.
  - apply Qeq_bool_iff in E.
    assert (Z : ((v - RealPPGProcessor.minimum signal) / fallback == 0)%Q).
    { assert (Z0 : (v - RealPPGProcessor.minimum signal == 0)%Q) by lra.
      rewrite Z0. unfold Qdiv. ring. }
    rewrite Z. split; lra.
  - assert (Hlt : (RealPPGProcessor.minimum signal
                   < RealPPGProcessor.maximum signal)%Q).
    { destruct (Qlt_le_dec (RealPPGProcessor.minimum signal)
                           (RealPPGProcessor.maximum signal)) as [L|L];
        [exact L|].
      assert (Z : (RealPPGProcessor.maximum signal
                   - RealPPGProcessor.minimum signal == 0)%Q) by lra.
      apply Qeq_bool_iff in Z. congruence. }
    destruct (scaled_in_unit _ _ v Hlt H1 H2) as [U0 U1].
    split; lra.
Qed.

Lemma advanced_normalizeSignal_between (signal : list Q) :
  length (AdvancedPPGProcessor.normalizeSignal signal) = length signal
  /\ Forall (fun v => (-1 <= v)%Q /\ (v <= 1)%Q)
            (AdvancedPPGProcessor.normalizeSignal signal).
Proof.
  unfold AdvancedPPGProcessor.normalizeSignal.
  destruct signal as [|a signal]; [split; [reflexivity|constructor]|].
  cbv zeta. set (l := a :: signal).
  destruct (Qeq_bool _ 0) eqn:E.
  - split; [apply length_map|]. apply Forall_forall. intros v Hv.
    apply in_map_iff in Hv. destruct Hv as (_ & <- & _). split; lra.
  - split; [apply length_map|]. apply Forall_forall. intros v Hv.
    apply in_map_iff in Hv. destruct Hv as (w & <- & Hw).
    pose proof (rescaled_between l w 0 Hw) as R. cbv zeta in R.
    rewrite E in R. exact R.
Qed.

Lemma numbered_points (l : list Q) (P : Q -> Prop) :
  Forall P l ->
  let d := combine (seq 0 (length l)) l in
  length d = length l
  /\ map fst d = seq 0 (length d)
  /\ Forall (fun p => P (snd p)) d.
Proof.
  intros H. cbv zeta.
  assert (L : length (combine (seq 0 (length l)) l) = length l).
  { rewrite length_combine, length_seq. lia. }
  split; [exact L|]. split.
  - rewrite L. apply combine_seq_fst.
  - apply Forall_forall. intros p Hp. rewrite Forall_forall in H.
    apply H. rewrite <- (combine_seq_snd l 0) at 1. apply in_map, Hp.
Qed.

(** Display signals.  The arrays the simulated processors hand to the chart
    ([AdvancedPPGProcessor.getDisplaySignal] and
    [EnhancedPPGProcessor.getDisplaySignal]) hold one point for each of the
    last 60 samples, or for every sample when there are fewer, numbered from
    0, and every [y] lies between -1 and 1. *)
Theorem display_signals_stay_in_range :
  (forall s : AdvancedPPGProcessor.state,
      let d := AdvancedPPGProcessor.getDisplaySignal s in
      length d
      = Nat.min (length (greenBuffer (AdvancedPPGProcessor.channels s))) 60
      /\ map fst d = seq 0 (length d)
      /\ Forall (fun p => (-1 <= snd p)%Q /\ (snd p <= 1)%Q) d)
  /\ (forall signal : list Q,
         let d := EnhancedPPGProcessor.getDisplaySignal signal in
         length d = Nat.min (length signal) 60
         /\ map fst d = seq 0 (length d)
         /\ Forall (fun p => (-1 <= snd p)%Q /\ (snd p <= 1)%Q) d).
Proof.
  split.
  - intros s. cbv zeta. unfold AdvancedPPGProcessor.getDisplaySignal.
    cbv zeta.
    pose proof (lastN_length 60
                  (greenBuffer (AdvancedPPGProcessor.channels s))) as L.
    destruct (lastN 60 (greenBuffer (AdvancedPPGProcessor.channels s)))
      as [|a recent] eqn:E.
    + cbn [length] in *. rewrite <- L. repeat split. constructor.
    + set (filtered := AdvancedPPGProcessor.bandpassFilter (a :: recent)).
      destruct (advanced_normalizeSignal_between filtered) as [Ln Hn].
      destruct (numbered_points _ _ Hn) as (D1 & D2 & D3).
      split; [|split; assumption].
      rewrite D1, Ln. unfold filtered, AdvancedPPGProcessor.bandpassFilter.
      rewrite movingAverage_length. exact L.
  - intros signal. cbv zeta. unfold EnhancedPPGProcessor.getDisplaySignal.
    cbv zeta.
    pose proof (lastN_length (Nat.min 60 (length signal)) signal) as L.
    destruct (lastN (Nat.min 60 (length signal)) signal) as [|a data] eqn:E.
    + cbn [length] in *. repeat split; [lia|constructor].
    + set (l := a :: data) in *.
      rewrite length_map, map_map. cbn [fst].
      assert (Ld : length (combine (seq 0 (length l)) l) = length l).
      { rewrite length_combine, length_seq. lia. }
      split; [rewrite Ld; lia|]. split.
      * rewrite Ld. apply (combine_seq_fst l 0).
      * apply Forall_forall. intros p Hp. apply in_map_iff in Hp.
        destruct Hp as ([i v] & <- & Hiv). cbn [fst snd].
        assert (Hv : In v l).
        { rewrite <- (combine_seq_snd l 0).
          apply (in_map snd) in Hiv. exact Hiv. }
        pose proof (rescaled_between l v 1 Hv) as R. cbv zeta in R. exact R.
Qed.

End SimulatedDisplayFacts.

(** ** The signal classifier *)

Section ClassifierFacts.

Import PPGSignalClassifier.

(** Quality needs confidence.  For a heart-rate variability that is not
    negative and whatever the signal-to-noise ratio,
    [classifySignalQuality] returns ['excellent'] only for a confidence
    above 0.79, ['good'] only for a confidence above 0.39 and ['fair'] only
    for a confidence above -0.01, so a confidence of -0.01 or less is always
    ['poor']; and with a signal-to-noise ratio of at least 20 and no
    variability a confidence of 0.81 or more is ['excellent'].  (The
    thresholds of the rational score are 0.8, 0.4 and 0; the statement keeps
    0.01 away from them, where the rounding of the score decides.) *)
Theorem classifier_quality_needs_confidence :
  forall confidence snr hrv : Q,
    (0 <= hrv)%Q ->
    let q := classifySignalQuality confidence snr hrv in
    (q = RealPPGProcessor.excellent -> (79 # 100 < confidence)%Q)
    /\ (q = RealPPGProcessor.good -> (39 # 100 < confidence)%Q)
    /\ (q = RealPPGProcessor.fair -> (- (1 # 100) < confidence)%Q)
    /\ ((confidence <= - (1 # 100))%Q -> q = RealPPGProcessor.poor)
    /\ ((20 <= snr)%Q -> (hrv == 0)%Q -> (81 # 100 <= confidence)%Q ->
        q = RealPPGProcessor.excellent).
Proof.
  intros confidence snr hrv Hh. cbv zeta. unfold classifySignalQuality.
  cbv zeta.
  assert (Hd : (0 <= hrv / 10)%Q) by (apply Qle_shift_div_l; lra).
  assert (Hs : (20 <= snr)%Q -> (1 <= snr / 20)%Q)
    by (intros H; apply Qle_shift_div_l; lra).
  assert (Hz : (hrv == 0)%Q -> (hrv / 10 == 0)%Q)
    by (intros H; rewrite H; reflexivity).
  set (x := (snr / 20)%Q) in *. set (y := (hrv / 10)%Q) in *.
  clearbody x y.
  destruct (js_min_spec x 1) as [[A E1]|[A E1]]; rewrite E1;
  destruct (js_max_spec 0 (1 - y)) as [[B E2]|[B E2]]; rewrite E2;
  repeat match goal with
         | |- context [Qle_bool ?a ?b] =>
             let E := fresh "E" in
             destruct (Qle_bool a b) eqn:E;
             [apply Qle_bool_iff in E|apply Qle_bool_false in E]
         end;
  (split; [intros Q; try discriminate Q; lra|]);
  (split; [intros Q; try discriminate Q; lra|]);
  (split; [intros Q; try discriminate Q; lra|]);
  (split; [intros Q; try reflexivity; lra|]);
  intros S Z Q; specialize (Hs S); specialize (Hz Z);
  try reflexivity; lra.
Qed.

Lemma num_add (a b : nat) : (num (a + b) == num a + num b)%Q.
Proof.
  unfold num. rewrite Nat2Z.inj_add, inject_Z_plus. reflexivity.
Qed.

Lemma num_le (a b : nat) : a <= b -> (num a <= num b)%Q.
Proof. intros H. unfold num. rewrite <- Zle_Qle. lia. Qed.

Lemma filter_all {A : Type} (f : A -> bool) (l : list A) :
  (forall a, In a l -> f a = true) -> filter f l = l.
Proof.
  induction l as [|a l IH]; intros H; [reflexivity|]. cbn [filter].
  rewrite (H a (or_introl eq_refl)), IH; [reflexivity|].
  intros b Hb. apply H. right. exact Hb.
Qed.

Lemma assessContactQuality_between (signalData : list Q) :
  (0 <= assessContactQuality signalData)%Q
  /\ (assessContactQuality signalData <= 1)%Q.
Proof.
  unfold assessContactQuality.
  destruct signalData as [|a l]; [split; lra|]. cbv zeta.
  pose proof (minimum_le_maximum (a :: l)) as H.
  assert (Hr : (0 <= (RealPPGProcessor.maximum (a :: l)
                      - RealPPGProcessor.minimum (a :: l)) / 50)%Q)
    by (apply Qle_shift_div_l; lra).
  destruct (js_min_spec 1 ((RealPPGProcessor.maximum (a :: l)
                            - RealPPGProcessor.minimum (a :: l)) / 50))
    as [[A ->]|[A ->]]; split; lra.
Qed.

Lemma detectSaturation_between (signalData : list Q) :
  (0 <= detectSaturation signalData)%Q
  /\ (detectSaturation signalData <= 2)%Q.
Proof.
  unfold detectSaturation.
  destruct signalData as [|a l]; [split; lra|]. cbv zeta.
  set (d := a :: l).
  set (maxCount := length (filter _ d)). set (minCount := length (filter _ d)).
  assert (H1 : maxCount <= length d) by apply filter_length_le.
  assert (H2 : minCount <= length d) by apply filter_length_le.
  assert (Hk : (0 < num (length d))%Q) by (apply num_pos; cbn; lia).
  pose proof (num_le 0 (maxCount + minCount) (Nat.le_0_l _)) as L0.
  change (num 0) with 0%Q in L0.
  pose proof (num_le _ _ H1) as L1. pose proof (num_le _ _ H2) as L2.
  pose proof (num_add maxCount minCount) as EA.
  split.
  - apply Qle_shift_div_l; [exact Hk|]. lra.
  - apply Qle_shift_div_r; [exact Hk|]. lra.
Qed.

(** Which tests put a string into the result of [detectArtifacts]. *)
Lemma detectArtifacts_members (sqrtQ : Q -> Q) (signalData : list Q) :
  (In saturation (detectArtifacts sqrtQ signalData)
   <-> (8 # 10 < detectSaturation signalData)%Q)
  /\ (In poor_contact (detectArtifacts sqrtQ signalData)
      <-> (assessContactQuality signalData < 3 # 10)%Q).
Proof.
  unfold detectArtifacts. cbv zeta.
  destruct (Qle_bool (calculateAcceleration sqrtQ signalData) 2);
  destruct (Qle_bool (detectSaturation signalData) (8 # 10)) eqn:E2;
  destruct (Qle_bool (3 # 10) (assessContactQuality signalData)) eqn:E3;
  try apply Qle_bool_iff in E2; try apply Qle_bool_false in E2;
  try apply Qle_bool_iff in E3; try apply Qle_bool_false in E3;
  cbn [negb app In];
  (split; split; intros H;
   repeat match goal with
          | H : _ \/ _ |- _ => destruct H
          | H : False |- _ => destruct H
          end;
   try discriminate; try lra; auto).
Qed.

(** Artifacts.  The contact quality lies in [0, 1] and the saturation level
    in [0, 2].  [detectArtifacts] reports ['poor_contact'] for an empty
    signal and for one whose samples span 14.9 or less, and for no signal
    whose samples span more than 15.1 (the rational threshold is a span of
    15; the statement keeps 0.1 away from it, where the rounding of the
    quotient decides).  A signal whose samples all have the same value of at
    least 1 has saturation level 2 and is reported both as saturated and as
    poor contact, whatever [Math.sqrt] returns. *)
Theorem detectArtifacts_on_contact_and_saturation :
  forall (sqrtQ : Q -> Q) (signalData : list Q),
    let span := (RealPPGProcessor.maximum signalData
                 - RealPPGProcessor.minimum signalData)%Q in
    ((0 <= assessContactQuality signalData)%Q
     /\ (assessContactQuality signalData <= 1)%Q)
    /\ ((0 <= detectSaturation signalData)%Q
        /\ (detectSaturation signalData <= 2)%Q)
    /\ (signalData = [] \/ (span <= 149 # 10)%Q ->
        In poor_contact (detectArtifacts sqrtQ signalData))
    /\ (In poor_contact (detectArtifacts sqrtQ signalData) ->
        signalData = [] \/ (span <= 151 # 10)%Q)
    /\ forall c : Q,
         (1 <= c)%Q -> signalData <> [] ->
         Forall (fun v => (v == c)%Q) signalData ->
         (detectSaturation signalData == 2)%Q
         /\ In saturation (detectArtifacts sqrtQ signalData)
         /\ In poor_contact (detectArtifacts sqrtQ signalData).
Proof.
  intros sqrtQ signalData span.
  destruct (detectArtifacts_members sqrtQ signalData) as [Ms Mp].
  split; [apply assessContactQuality_between|].
  split; [apply detectSaturation_between|].
  assert (Hc : (assessContactQuality signalData < 3 # 10)%Q
               <-> signalData = [] \/ (span < 15)%Q).
  { unfold assessContactQuality, span.
    destruct signalData as [|a l].
    - split; [auto|intros _; reflexivity].
    - cbv zeta. set (r := (RealPPGProcessor.maximum (a :: l)
                           - RealPPGProcessor.minimum (a :: l))%Q).
      assert (E : (r / 50 == r * (1 # 50))%Q) by (unfold Qdiv; reflexivity).
      destruct (js_min_spec 1 (r / 50)) as [[A ->]|[A ->]]; rewrite E in *;
        split; intros H.
      + lra.
      + destruct H as [H|H]; [discriminate|lra].
      + right. lra.
      + destruct H as [H|H]; [discriminate|lra]. }
  split.
  { intros H. apply Mp, Hc. destruct H as [H|H]; [left; exact H|right; lra]. }
  split.
  { intros H. apply Mp, Hc in H.
    destruct H as [H|H]; [left; exact H|right; lra]. }
  intros c Hpos Hne Hflat.
  assert (Hsat : (detectSaturation signalData == 2)%Q).
  { unfold detectSaturation.
    destruct signalData as [|a l]; [congruence|]. cbv zeta.
    set (d := a :: l) in *.
    pose proof (maximum_flat d c Hne Hflat) as Emax.
    pose proof (minimum_flat d c Hne Hflat) as Emin.
    rewrite Forall_forall in Hflat.
    rewrite !filter_all.
    - assert (Hk : (0 < num (length d))%Q) by (apply num_pos; cbn; lia).
      rewrite num_add. field. lra.
    - intros v Hv. apply negb_true_iff, Qle_bool_false.
      rewrite Emin, (Hflat v Hv). lra.
    - intros v Hv. apply negb_true_iff, Qle_bool_false.
      rewrite Emax, (Hflat v Hv). lra. }
  split; [exact Hsat|]. split.
  - apply Ms. rewrite Hsat. reflexivity.
  - apply Mp, Hc. right. unfold span.
    rewrite (maximum_flat signalData c Hne Hflat),
            (minimum_flat signalData c Hne Hflat). lra.
Qed.

End ClassifierFacts.

(** A heart-rate variability of 2 with full confidence and a clean signal. *)
Lemma classifier_quality_needs_confidence_witness :
  (0 <= 2)%Q
  /\ PPGSignalClassifier.classifySignalQuality 1 25 2
     = RealPPGProcessor.excellent
  /\ (79 # 100 < 1)%Q.
Proof.
  assert (H : (0 <= 2)%Q) by (vm_compute; discriminate).
  split; [exact H|].
  assert (E : PPGSignalClassifier.classifySignalQuality 1 25 2
              = RealPPGProcessor.excellent) by reflexivity.
  split; [exact E|].
  destruct (classifier_quality_needs_confidence 1 25 2 H) as (X & _).
  exact (X E).
Defined.

(** ** Shape analysis does not depend on the position *)

Section ShapeFacts.

Import FingerDetector.

Variable sqrtQ : Q -> Q.

Lemma fold_left_ext_in {A B : Type} (f g : A -> B -> A) (l : list B) (a : A) :
  (forall x b, In b l -> f x b = g x b) ->
  fold_left f l a = fold_left g l a.
Proof.
  revert a. induction l as [|b l IH]; intros a H; [reflexivity|].
  cbn [fold_left]. rewrite (H a b (or_introl eq_refl)).
  apply IH. intros x c Hc. apply H. right. exact Hc.
Qed.

Lemma fold_left_mapped {A B C : Type} (f : A -> B -> A) (g : C -> B)
  (l : list C) (a : A) :
  fold_left f (map g l) a = fold_left (fun x y => f x (g y)) l a.
Proof.
  revert a. induction l as [|c l IH]; intros a; [reflexivity|].
  cbn [map fold_left]. apply IH.
Qed.

(** A loop over the indices of an array that reads the entry at its index is
    a loop over the entries. *)
Lemma fold_indices {A B : Type} (h : A -> B -> A) (l : list B) (d : B)
  (a : A) :
  fold_left (fun x i => h x (nth i l d)) (seq 0 (length l)) a
  = fold_left h l a.
Proof.
  revert a. induction l as [|b l IH]; intros a; [reflexivity|].
  cbn [length seq fold_left nth]. rewrite <- seq_shift, fold_left_mapped.
  cbn [nth]. apply IH.
Qed.

Lemma successors_length (c : contour) : length (successors c) = length c.
Proof. destruct c as [|p c]; [reflexivity|]. unfold successors. cbn [tl firstn].
  rewrite length_app. cbn. lia. Qed.

Lemma successors_nth (c : contour) (i : nat) (d : point) :
  i < length c ->
  nth i (successors c) d = nth ((i + 1) mod length c) c d.
Proof.
  intros Hi. destruct c as [|p c]; [cbn in Hi; lia|].
  unfold successors. cbn [tl firstn length] in *.
  destruct (Nat.eq_dec (i + 1) (S (length c))) as [E|E].
  - rewrite E, Nat.Div0.mod_same. rewrite app_nth2 by lia.
    replace (i - length c) with 0 by lia. reflexivity.
  - rewrite Nat.mod_small by lia. rewrite app_nth1 by lia.
    replace (i + 1) with (S i) by lia. reflexivity.
Qed.

(** The shoelace sum of [calculateContourArea], over the pairs of a point
    and its successor. *)
Lemma shoelace_pairs (c : contour) :
  calculateContourArea c
  = (inject_Z (Z.abs (fold_left (fun area pq => (area + cross pq)%Z)
                                (combine c (successors c)) 0%Z)) / 2)%Q.
Proof.
  unfold calculateContourArea. cbv beta zeta. do 3 f_equal.
  rewrite <- (fold_indices (fun area pq => (area + cross pq)%Z)
                (combine c (successors c)) ((0, 0), (0, 0))%Z).
  rewrite length_combine, successors_length, Nat.min_id.
  apply fold_left_ext_in. intros area i Hi. apply in_seq in Hi.
  rewrite combine_nth by (symmetry; apply successors_length).
  rewrite successors_nth by lia. unfold cross. cbn [fst snd].
  rewrite Z.add_sub_assoc. reflexivity.
Qed.

Lemma sum_acc_Z {A : Type} (f : A -> Z) (l : list A) (a : Z) :
  fold_left (fun x p => (x + f p)%Z) l a
  = (a + fold_left (fun x p => (x + f p)%Z) l 0)%Z.
Proof.
  revert a. induction l as [|p l IH]; intros a; [cbn; lia|].
  cbn [fold_left]. rewrite (IH (a + f p)%Z), (IH (0 + f p)%Z). lia.
Qed.

(** The sum of [f] over the successors is the sum of [f] over the
    contour. *)
Lemma successors_sum (f : point -> Z) (c : contour) :
  fold_left (fun x p => (x + f p)%Z) (successors c) 0%Z
  = fold_left (fun x p => (x + f p)%Z) c 0%Z.
Proof.
  destruct c as [|p c]; [reflexivity|].
  unfold successors. cbn [tl firstn]. rewrite fold_left_app.
  cbn [fold_left]. rewrite (sum_acc_Z f c (0 + f p)%Z). lia.
Qed.

(** Over pairs, the sum of a difference is the difference of the sums. *)
Lemma pairs_difference (f : point -> Z) (l1 l2 : contour) :
  length l1 = length l2 ->
  fold_left (fun x pq => (x + (f (fst pq) - f (snd pq)))%Z) (combine l1 l2) 0%Z
  = (fold_left (fun x p => (x + f p)%Z) l1 0
     - fold_left (fun x p => (x + f p)%Z) l2 0)%Z.
Proof.
  revert l2. induction l1 as [|p l1 IH]; intros [|q l2] H;
    try discriminate; [reflexivity|].
  cbn [combine fold_left fst snd].
  rewrite (sum_acc_Z (fun pq => (f (fst pq) - f (snd pq))%Z) _ _),
          (sum_acc_Z f l1 _), (sum_acc_Z f l2 _).
  rewrite IH by (cbn in H; lia). lia.
Qed.

Lemma translate_length (dx dy : Z) (c : contour) :
  length (translate dx dy c) = length c.
Proof. apply length_map. Qed.

Lemma translate_successors (dx dy : Z) (c : contour) :
  successors (translate dx dy c) = translate dx dy (successors c).
Proof.
  destruct c as [|p c]; [reflexivity|].
  unfold successors, translate. cbn [map tl firstn]. rewrite map_app.
  reflexivity.
Qed.

(** The shoelace sum of a moved contour. *)
Lemma shoelace_translate (dx dy : Z) (c : contour) :
  fold_left (fun area pq => (area + cross pq)%Z)
            (combine (translate dx dy c) (successors (translate dx dy c))) 0%Z
  = fold_left (fun area pq => (area + cross pq)%Z)
              (combine c (successors c)) 0%Z.
Proof.
  rewrite translate_successors.
  pose proof (successors_length c) as Hlen.
  assert (Hx : fold_left (fun x pq => (x + (fst (fst pq) - fst (snd pq)))%Z)
                         (combine c (successors c)) 0%Z = 0%Z).
  { etransitivity;
      [exact (pairs_difference fst c (successors c) (eq_sym Hlen))|].
    rewrite successors_sum. lia. }
  assert (Hy : fold_left (fun x pq => (x + (snd (fst pq) - snd (snd pq)))%Z)
                         (combine c (successors c)) 0%Z = 0%Z).
  { etransitivity;
      [exact (pairs_difference snd c (successors c) (eq_sym Hlen))|].
    rewrite successors_sum. lia. }
  assert (G : forall (l1 l2 : contour) (a : Z),
             fold_left (fun area pq => (area + cross pq)%Z)
                       (combine (translate dx dy l1) (translate dx dy l2)) a
             = (fold_left (fun area pq => (area + cross pq)%Z)
                          (combine l1 l2) a
                + dy * fold_left (fun x pq =>
                                    (x + (fst (fst pq) - fst (snd pq)))%Z)
                                 (combine l1 l2) 0
                - dx * fold_left (fun x pq =>
                                    (x + (snd (fst pq) - snd (snd pq)))%Z)
                                 (combine l1 l2) 0)%Z).
  { induction l1 as [|p l1 IH]; intros [|q l2] a; try (cbn; lia).
    unfold translate in *. cbn [map combine fold_left].
    rewrite IH.
    rewrite (sum_acc_Z (fun pq => (fst (fst pq) - fst (snd pq))%Z) _
                       (0 + _)%Z),
            (sum_acc_Z (fun pq => (snd (fst pq) - snd (snd pq))%Z) _
                       (0 + _)%Z).
    rewrite (sum_acc_Z cross _ (a + _)%Z),
            (sum_acc_Z cross _ (a + cross (p, q))%Z).
    unfold cross. cbn [fst snd]. lia. }
  rewrite G, Hx, Hy. lia.
Qed.

Lemma calculateContourArea_translate (dx dy : Z) (c : contour) :
  calculateContourArea (translate dx dy c) = calculateContourArea c.
Proof.
  rewrite (shoelace_pairs (translate dx dy c)), (shoelace_pairs c).
  rewrite shoelace_translate. reflexivity.
Qed.

Lemma translate_nth (dx dy : Z) (c : contour) (i : nat) :
  i < length c ->
  nth i (translate dx dy c) (0, 0)%Z
  = ((fst (nth i c (0, 0)) + dx)%Z, (snd (nth i c (0, 0)) + dy)%Z).
Proof.
  intros Hi. unfold translate.
  rewrite (nth_indep _ (0, 0)%Z ((fst (0, 0) + dx)%Z, (snd (0, 0) + dy)%Z))
    by (rewrite length_map; exact Hi).
  rewrite (map_nth (fun p => (fst p + dx, snd p + dy)%Z)). reflexivity.
Qed.

Lemma calculateContourPerimeter_translate (dx dy : Z) (c : contour) :
  calculateContourPerimeter sqrtQ (translate dx dy c)
  = calculateContourPerimeter sqrtQ c.
Proof.
  unfold calculateContourPerimeter. cbv zeta. rewrite translate_length.
  apply fold_left_ext_in. intros per i Hi. apply in_seq in Hi.
  assert (Hj : (i + 1) mod length c < length c)
    by (apply Nat.mod_upper_bound; lia).
  rewrite !translate_nth by lia. cbn [fst snd].
  do 3 f_equal. lia.
Qed.

Lemma fold_min_shift (f : Z * Z -> Z) (d : Z) (l : list (Z * Z)) (m : Z) :
  fold_left (fun x p => Z.min x (f p + d)) l (m + d)%Z
  = (fold_left (fun x p => Z.min x (f p)) l m + d)%Z.
Proof.
  revert m. induction l as [|p l IH]; intros m; [reflexivity|].
  cbn [fold_left]. rewrite Z.add_min_distr_r. apply IH.
Qed.

Lemma fold_max_shift (f : Z * Z -> Z) (d : Z) (l : list (Z * Z)) (m : Z) :
  fold_left (fun x p => Z.max x (f p + d)) l (m + d)%Z
  = (fold_left (fun x p => Z.max x (f p)) l m + d)%Z.
Proof.
  revert m. induction l as [|p l IH]; intros m; [reflexivity|].
  cbn [fold_left]. rewrite Z.add_max_distr_r. apply IH.
Qed.

Lemma calculateAspectRatio_translate (dx dy : Z) (c : contour) :
  calculateAspectRatio (translate dx dy c) = calculateAspectRatio c.
Proof.
  destruct c as [|[x0 y0] rest]; [reflexivity|].
  unfold calculateAspectRatio, translate. cbn [map fst snd]. cbv zeta.
  rewrite !fold_left_mapped. cbn [fst snd].
  rewrite (fold_min_shift fst dx rest x0), (fold_max_shift fst dx rest x0),
          (fold_min_shift snd dy rest y0), (fold_max_shift snd dy rest y0).
  set (minX := fold_left (fun x p => Z.min x (fst p)) rest x0).
  set (maxX := fold_left (fun x p => Z.max x (fst p)) rest x0).
  set (minY := fold_left (fun x p => Z.min x (snd p)) rest y0).
  set (maxY := fold_left (fun x p => Z.max x (snd p)) rest y0).
  replace (maxX + dx - (minX + dx))%Z with (maxX - minX)%Z by lia.
  replace (maxY + dy - (minY + dy))%Z with (maxY - minY)%Z by lia.
  reflexivity.
Qed.

Lemma isFingerShape_translate (dx dy : Z) (c : contour) :
  isFingerShape sqrtQ (translate dx dy c) = isFingerShape sqrtQ c.
Proof.
  unfold isFingerShape. cbv zeta.
  rewrite translate_length, calculateContourArea_translate,
          calculateContourPerimeter_translate, calculateAspectRatio_translate.
  reflexivity.
Qed.

(** Shape analysis does not depend on the position.  Moving a contour by
    whole columns and rows changes neither its shoelace area, nor its
    perimeter, nor its aspect ratio, nor the verdict of [isFingerShape]; and
    [findFingerContour] picks, among the moved contours, the moved one of
    the contour it picks among the originals. *)
Theorem shape_analysis_ignores_position :
  forall (dx dy : Z) (c : contour) (contours : list contour),
    calculateContourArea (translate dx dy c) = calculateContourArea c
    /\ calculateContourPerimeter sqrtQ (translate dx dy c)
       = calculateContourPerimeter sqrtQ c
    /\ calculateAspectRatio (translate dx dy c) = calculateAspectRatio c
    /\ isFingerShape sqrtQ (translate dx dy c) = isFingerShape sqrtQ c
    /\ findFingerContour sqrtQ (map (translate dx dy) contours)
       = option_map (translate dx dy) (findFingerContour sqrtQ contours).
Proof.
  intros dx dy c contours.
  split; [apply calculateContourArea_translate|].
  split; [apply calculateContourPerimeter_translate|].
  split; [apply calculateAspectRatio_translate|].
  split; [apply isFingerShape_translate|].
  unfold findFingerContour.
  induction contours as [|k contours IH]; [reflexivity|].
  cbn [map find]. rewrite isFingerShape_translate.
  destruct (isFingerShape sqrtQ k); [reflexivity|exact IH].
Qed.

End ShapeFacts.

(** ** The confidence of [AdvancedPPGProcessor] *)

Section AdvancedConfidenceFacts.

Import AdvancedPPGProcessor.

Variable sqrtQ' : Q -> Q.
Variable magnitude : list Q -> nat -> Q.
Variable sqrtQ : Q -> Q.

Lemma finalHR_nil : finalHR sqrtQ' magnitude [] = None.
Proof. reflexivity. Qed.

Lemma pushSample_present (x : RGB) (t : Q) (c : Channels) :
  aligned c -> greenBuffer (pushSample bufferSize x t c) <> [].
Proof.
  intros H. rewrite (pushSample_window bufferSize x t c H).
  cbn [greenBuffer]. intros E. apply (f_equal (@length Q)) in E.
  rewrite lastN_length, length_app in E. unfold bufferSize in E.
  cbn [length] in E. lia.
Qed.

Lemma advancedBuffers_calculateHeartRate (s : state) :
  advancedBuffers s ->
  advancedBuffers (fst (calculateHeartRate (finalHR sqrtQ' magnitude) s)).
Proof.
  intros [Ha Hp]. unfold calculateHeartRate.
  destruct (finalHR sqrtQ' magnitude (greenBuffer (channels s)))
    as [hr|] eqn:E; [|constructor; assumption].
  destruct (Qeq_bool hr 0); [constructor; assumption|].
  cbv zeta. cbn [fst]. constructor; cbn [channels heartRateHistory].
  - exact Ha.
  - intros _ G. rewrite G, finalHR_nil in E. discriminate.
Qed.

Lemma advancedBuffers_addToBuffer (rgb : RGB) (t : Q) (s : state) :
  advancedBuffers s -> advancedBuffers (addToBuffer rgb t s).
Proof.
  intros [Ha Hp]. constructor; cbn [addToBuffer channels heartRateHistory].
  - apply pushSample_aligned, Ha.
  - intros _. apply pushSample_present, Ha.
Qed.

Lemma advancedBuffers_reachable (s : state) :
  advancedReachable (finalHR sqrtQ' magnitude) s -> advancedBuffers s.
Proof.
  intros H. induction H as [|rgb t s _ IH|rgb t s _ IH|s _ IH|s _ IH].
  - constructor; [apply empty_aligned|intros E; contradiction].
  - unfold processFrame. cbv zeta.
    pose proof (advancedBuffers_addToBuffer rgb t s IH) as K.
    destruct (60 <=? _); [|exact K].
    pose proof (advancedBuffers_calculateHeartRate _ K) as K'.
    destruct (calculateHeartRate _ _) as [s' hr]. exact K'.
  - apply advancedBuffers_addToBuffer, IH.
  - apply advancedBuffers_calculateHeartRate, IH.
  - constructor; [apply empty_aligned|intros E; contradiction].
Qed.

Lemma calculateConfidence_between (s : state) :
  nonNegative sqrtQ ->
  Forall withinCeiling (heartRateHistory s) ->
  (0 <= calculateConfidence sqrtQ s)%Q /\ (calculateConfidence sqrtQ s <= 1)%Q.
Proof.
  intros Hs Hc. unfold calculateConfidence.
  destruct (Nat.ltb_spec (length (heartRateHistory s)) 3) as [Hn|Hn];
    [split; lra|].
  cbv zeta.
  set (recent := lastN 5 (heartRateHistory s)).
  assert (Hr : Forall withinCeiling recent) by apply Forall_lastN, Hc.
  assert (Hne : recent <> []).
  { intros E. apply (f_equal (@length Q)) in E. unfold recent in E.
    rewrite lastN_length in E. cbn [length] in E. lia. }
  destruct (mean_ceiling recent Hne Hr) as [M0 _].
  set (mean := (fold_left Qplus recent 0 / num (length recent))%Q) in *.
  set (variance := (fold_left _ recent 0 / num (length recent))%Q).
  pose proof (Hs variance) as S0.
  assert (C0 : (0 <= sqrtQ variance / mean)%Q)
    by (apply Qle_shift_div_l; lra).
  set (cv := (sqrtQ variance / mean)%Q) in *. clearbody cv.
  set (signal := lastN 30 (greenBuffer (channels s))).
  pose proof (minimum_le_maximum signal) as R0.
  assert (A0 : (0 <= (RealPPGProcessor.maximum signal
                      - RealPPGProcessor.minimum signal) / 50)%Q)
    by (apply Qle_shift_div_l; lra).
  set (r := ((RealPPGProcessor.maximum signal
              - RealPPGProcessor.minimum signal) / 50)%Q) in *.
  clearbody r.
  destruct (js_max_spec 0 (1 - cv * 10)) as [[B ->]|[B ->]];
    destruct (js_min_spec 1 r) as [[A ->]|[A ->]]; split; lra.
Qed.

(** The confidence lies in [0, 1].  If [Math.sqrt] returns no negative
    number then, in every state an [AdvancedPPGProcessor] reaches, the value
    of [calculateConfidence] lies between 0 and 1, and it is 0 while the
    history has fewer than three entries; the four buffers have the same
    length; and a history that is not empty comes with a green buffer that
    is not empty, so the range [calculateConfidence] takes is that of an
    array with members. *)
Theorem advanced_confidence_in_unit_interval :
  forall s : state,
    nonNegative sqrtQ ->
    advancedReachable (finalHR sqrtQ' magnitude) s ->
    ((0 <= calculateConfidence sqrtQ s)%Q
     /\ (calculateConfidence sqrtQ s <= 1)%Q)
    /\ (length (heartRateHistory s) < 3 -> calculateConfidence sqrtQ s = 0%Q)
    /\ aligned (channels s)
    /\ (heartRateHistory s <> [] -> greenBuffer (channels s) <> []).
Proof.
  intros s Hs H.
  destruct (advanced_invariant sqrtQ' magnitude s H) as [_ Hc].
  destruct (advancedBuffers_reachable s H) as [Ha Hp].
  split; [apply calculateConfidence_between; assumption|].
  split; [|split; assumption].
  intros Hn. unfold calculateConfidence. apply Nat.ltb_lt in Hn.
  rewrite Hn. reflexivity.
Qed.

End AdvancedConfidenceFacts.

(** A new processor after one frame, with a square root that returns 0. *)
Lemma advanced_confidence_in_unit_interval_witness :
  let estimate := AdvancedPPGProcessor.finalHR (fun v => v) (fun _ _ => 1%Q) in
  let s := fst (AdvancedPPGProcessor.processFrame estimate (mkRGB 1 1 1) 0
                  AdvancedPPGProcessor.init) in
  nonNegative (fun _ => 0%Q)
  /\ AdvancedPPGProcessor.calculateConfidence (fun _ => 0%Q) s = 0%Q
  /\ aligned (AdvancedPPGProcessor.channels s).
Proof.
  cbv zeta.
  assert (Hs : nonNegative (fun _ => 0%Q)).
  { intros v. vm_compute. discriminate. }
  split; [exact Hs|].
  destruct (advanced_confidence_in_unit_interval (fun v => v)
              (fun _ _ => 1%Q) (fun _ => 0%Q)
              (fst (AdvancedPPGProcessor.processFrame
                      (AdvancedPPGProcessor.finalHR (fun v => v)
                         (fun _ _ => 1%Q))
                      (mkRGB 1 1 1) 0 AdvancedPPGProcessor.init))
              Hs (advanced_processFrame _ _ _ _ (advanced_new _)))
    as (_ & Z & A & _).
  split; [apply Z; cbn; lia|exact A].
Defined.
